(** * ClawSync: skill dispatch, audit log, X integration and threads

    A shallow embedding of the tool loader ([loadTools] and the three tool
    constructors of the agent's tool loader), of the skill invocation log
    ([log], [listBySkill], [listRecent], [listSecurityFailures], [cleanup]),
    of the X integration ([getConfig], [updateConfig], [getLandingTweets],
    [listTweets], [toggleTweetLandingVisibility], [cacheTweet],
    [logTweetActivity], [makeOAuthRequest], [postTweet], [readTweet]) and
    of the thread management ([list], [getMessages], [create],
    [listPublic], [get], [getThreadMessages], [remove]).

    JavaScript strings are sequences of code units. A Rocq string stands
    for the JavaScript string with the same code units, all below 256
    (skill names, configs, inputs); the strings inside a parsed JSON
    document are lists of code units, so that a [\uXXXX] escape has a
    value. Numbers that the code only compares and subtracts (timestamps,
    limits) are integers. *)

From Stdlib Require Import ZArith List Ascii String Lia.
From stdpp Require Import gmap strings list sorting pretty.

Local Open Scope Z_scope.
Set Warnings "-register-all".

(** ** The JavaScript values produced by [JSON.parse] *)

(** A JSON number literal, kept exactly: sign, decimal mantissa and decimal
    exponent, standing for [(-1)^neg * mantissa * 10^exp10]. *)
Record JsNumber := mkNumber {
  num_neg : bool;
  num_mantissa : N;
  num_exp10 : Z
}.

Inductive JsValue :=
  | JNull
  | JBool (b : bool)
  | JNumber (n : JsNumber)
  | JString (s : list N)
  | JArray (items : list JsValue)
  | JObject (members : list (list N * JsValue)).

Definition code_units (s : string) : list N :=
  map N_of_ascii (list_ascii_of_string s).

Definition js_string (s : string) : JsValue := JString (code_units s).

(** The double nearest to a positive decimal is zero exactly when the
    decimal is at most [2^-1075] (half of the least subnormal, ties going to
    the even neighbour, which is zero). *)
Definition number_is_zero (n : JsNumber) : bool :=
  match num_mantissa n with
  | 0%N => true
  | m =>
      if 0 <=? num_exp10 n then false
      else Z.of_N m * 2 ^ 1075 <=? 10 ^ (- num_exp10 n)
  end.

(** ToBoolean, on the values [JSON.parse] can produce. *)
Definition js_truthy (v : JsValue) : bool :=
  match v with
  | JNull => false
  | JBool b => b
  | JNumber n => negb (number_is_zero n)
  | JString s => match s with [] => false | _ => true end
  | JArray _ => true
  | JObject _ => true
  end.

(** ** [JSON.parse] *)

Module JSON.

Inductive Token :=
  | TLBrace | TRBrace | TLBracket | TRBracket | TColon | TComma
  | TString (s : list N)
  | TNumber (n : JsNumber)
  | TTrue | TFalse | TNull.

(** Where the scanner is inside a number literal. *)
Inductive NumState :=
  | NMinus | NZero | NInt | NDot | NFrac | NExpMark | NExpSign | NExp.

(** A number being scanned: mantissa digits read so far, how many of them
    came after the point, and the exponent part. *)
Record NumAcc := mkAcc {
  acc_neg : bool;
  acc_mantissa : N;
  acc_scale : Z;
  acc_eneg : bool;
  acc_exp : N
}.

Inductive LexState :=
  | LIdle
  | LStr (acc : list N)
  | LEsc (acc : list N)
  | LUni (acc : list N) (k : nat) (v : N)
  | LNum (st : NumState) (a : NumAcc)
  | LLit (rest : list ascii) (t : Token).

Definition digit_of (c : ascii) : option N :=
  let n := N_of_ascii c in
  if ((48 <=? n) && (n <=? 57))%N then Some (n - 48)%N else None.

Definition hex_of (c : ascii) : option N :=
  let n := N_of_ascii c in
  if ((48 <=? n) && (n <=? 57))%N then Some (n - 48)%N
  else if ((65 <=? n) && (n <=? 70))%N then Some (n - 55)%N
  else if ((97 <=? n) && (n <=? 102))%N then Some (n - 87)%N
  else None.

Definition is_ws (c : ascii) : bool :=
  let n := N_of_ascii c in
  ((n =? 32) || (n =? 9) || (n =? 10) || (n =? 13))%N.

Definition is_exp_mark (c : ascii) : bool :=
  let n := N_of_ascii c in ((n =? 101) || (n =? 69))%N.

Definition acc_start (neg : bool) (m : N) : NumAcc :=
  mkAcc neg m 0 false 0.

Definition acc_digit (a : NumAcc) (d : N) (frac : bool) : NumAcc :=
  mkAcc (acc_neg a) (acc_mantissa a * 10 + d)
        (if frac then acc_scale a + 1 else acc_scale a)
        (acc_eneg a) (acc_exp a).

Definition acc_exp_digit (a : NumAcc) (d : N) : NumAcc :=
  mkAcc (acc_neg a) (acc_mantissa a) (acc_scale a) (acc_eneg a)
        (acc_exp a * 10 + d).

Definition acc_exp_neg (a : NumAcc) : NumAcc :=
  mkAcc (acc_neg a) (acc_mantissa a) (acc_scale a) true (acc_exp a).

Definition acc_number (a : NumAcc) : JsNumber :=
  mkNumber (acc_neg a) (acc_mantissa a)
           ((if acc_eneg a then - Z.of_N (acc_exp a) else Z.of_N (acc_exp a))
            - acc_scale a).

Definition num_accepting (st : NumState) : bool :=
  match st with
  | NZero | NInt | NFrac | NExp => true
  | _ => false
  end.

(** One character read between tokens. *)
Definition idle_step (c : ascii) : option (LexState * list Token) :=
  if is_ws c then Some (LIdle, [])
  else match N_of_ascii c with
  | 123%N => Some (LIdle, [TLBrace])
  | 125%N => Some (LIdle, [TRBrace])
  | 91%N => Some (LIdle, [TLBracket])
  | 93%N => Some (LIdle, [TRBracket])
  | 58%N => Some (LIdle, [TColon])
  | 44%N => Some (LIdle, [TComma])
  | 34%N => Some (LStr [], [])
  | 45%N => Some (LNum NMinus (acc_start true 0), [])
  | 48%N => Some (LNum NZero (acc_start false 0), [])
  | 116%N => Some (LLit (list_ascii_of_string "rue") TTrue, [])
  | 102%N => Some (LLit (list_ascii_of_string "alse") TFalse, [])
  | 110%N => Some (LLit (list_ascii_of_string "ull") TNull, [])
  | _ =>
      match digit_of c with
      | Some d => Some (LNum NInt (acc_start false d), [])
      | None => None
      end
  end.

(** A number literal ends at the first character that cannot extend it;
    that character is then read as the start of the next token. *)
Definition num_finish (st : NumState) (a : NumAcc) (c : ascii)
  : option (LexState * list Token) :=
  if num_accepting st then
    match idle_step c with
    | Some (st', ts) => Some (st', TNumber (acc_number a) :: ts)
    | None => None
    end
  else None.

Definition num_step (st : NumState) (a : NumAcc) (c : ascii)
  : option (LexState * list Token) :=
  let n := N_of_ascii c in
  match st with
  | NMinus =>
      match digit_of c with
      | Some 0%N => Some (LNum NZero a, [])
      | Some d => Some (LNum NInt (acc_digit a d false), [])
      | None => None
      end
  | NZero =>
      if (n =? 46)%N then Some (LNum NDot a, [])
      else if is_exp_mark c then Some (LNum NExpMark a, [])
      else num_finish st a c
  | NInt =>
      match digit_of c with
      | Some d => Some (LNum NInt (acc_digit a d false), [])
      | None =>
          if (n =? 46)%N then Some (LNum NDot a, [])
          else if is_exp_mark c then Some (LNum NExpMark a, [])
          else num_finish st a c
      end
  | NDot =>
      match digit_of c with
      | Some d => Some (LNum NFrac (acc_digit a d true), [])
      | None => None
      end
  | NFrac =>
      match digit_of c with
      | Some d => Some (LNum NFrac (acc_digit a d true), [])
      | None =>
          if is_exp_mark c then Some (LNum NExpMark a, [])
          else num_finish st a c
      end
  | NExpMark =>
      match digit_of c with
      | Some d => Some (LNum NExp (acc_exp_digit a d), [])
      | None =>
          if (n =? 43)%N then Some (LNum NExpSign a, [])
          else if (n =? 45)%N then Some (LNum NExpSign (acc_exp_neg a), [])
          else None
      end
  | NExpSign =>
      match digit_of c with
      | Some d => Some (LNum NExp (acc_exp_digit a d), [])
      | None => None
      end
  | NExp =>
      match digit_of c with
      | Some d => Some (LNum NExp (acc_exp_digit a d), [])
      | None => num_finish st a c
      end
  end.

Definition esc_step (acc : list N) (c : ascii) : option LexState :=
  match N_of_ascii c with
  | 34%N => Some (LStr (34%N :: acc))
  | 92%N => Some (LStr (92%N :: acc))
  | 47%N => Some (LStr (47%N :: acc))
  | 98%N => Some (LStr (8%N :: acc))
  | 102%N => Some (LStr (12%N :: acc))
  | 110%N => Some (LStr (10%N :: acc))
  | 114%N => Some (LStr (13%N :: acc))
  | 116%N => Some (LStr (9%N :: acc))
  | 117%N => Some (LUni acc 0 0%N)
  | _ => None
  end.

Definition lex_step (st : LexState) (c : ascii)
  : option (LexState * list Token) :=
  match st with
  | LIdle => idle_step c
  | LStr acc =>
      let n := N_of_ascii c in
      if (n =? 34)%N then Some (LIdle, [TString (rev acc)])
      else if (n =? 92)%N then Some (LEsc acc, [])
      else if (n <? 32)%N then None
      else Some (LStr (n :: acc), [])
  | LEsc acc =>
      match esc_step acc c with
      | Some st' => Some (st', [])
      | None => None
      end
  | LUni acc k v =>
      match hex_of c with
      | Some d =>
          let v' := (v * 16 + d)%N in
          match k with
          | 3%nat => Some (LStr (v' :: acc), [])
          | _ => Some (LUni acc (S k) v', [])
          end
      | None => None
      end
  | LNum ns a => num_step ns a c
  | LLit rest t =>
      match rest with
      | [] => None
      | r :: rest' =>
          if Ascii.eqb c r then
            match rest' with
            | [] => Some (LIdle, [t])
            | _ => Some (LLit rest' t, [])
            end
          else None
      end
  end.

Definition lex_end (st : LexState) : option (list Token) :=
  match st with
  | LIdle => Some []
  | LNum ns a => if num_accepting ns then Some [TNumber (acc_number a)] else None
  | _ => None
  end.

Fixpoint lex (st : LexState) (cs : list ascii) : option (list Token) :=
  match cs with
  | [] => lex_end st
  | c :: cs' =>
      match lex_step st c with
      | Some (st', ts) =>
          match lex st' cs' with
          | Some ts' => Some (ts ++ ts')
          | None => None
          end
      | None => None
      end
  end.

(** The containers that are open around the value being read. *)
Inductive Frame :=
  | FArray (acc : list JsValue)
  | FObject (acc : list (list N * JsValue)) (key : list N).

Inductive ParseState :=
  | SValue (stk : list Frame)
  | SArrOpen (stk : list Frame)
  | SObjOpen (stk : list Frame)
  | SKey (stk : list Frame) (acc : list (list N * JsValue))
  | SColon (stk : list Frame) (acc : list (list N * JsValue)) (key : list N)
  | SAfter (stk : list Frame) (v : JsValue).

Definition begin_value (stk : list Frame) (t : Token) : option ParseState :=
  match t with
  | TString s => Some (SAfter stk (JString s))
  | TNumber n => Some (SAfter stk (JNumber n))
  | TTrue => Some (SAfter stk (JBool true))
  | TFalse => Some (SAfter stk (JBool false))
  | TNull => Some (SAfter stk JNull)
  | TLBracket => Some (SArrOpen stk)
  | TLBrace => Some (SObjOpen stk)
  | _ => None
  end.

Definition parse_step (st : ParseState) (t : Token) : option ParseState :=
  match st with
  | SValue stk => begin_value stk t
  | SArrOpen stk =>
      match t with
      | TRBracket => Some (SAfter stk (JArray []))
      | _ => begin_value (FArray [] :: stk) t
      end
  | SObjOpen stk =>
      match t with
      | TRBrace => Some (SAfter stk (JObject []))
      | TString k => Some (SColon stk [] k)
      | _ => None
      end
  | SKey stk acc =>
      match t with
      | TString k => Some (SColon stk acc k)
      | _ => None
      end
  | SColon stk acc k =>
      match t with
      | TColon => Some (SValue (FObject acc k :: stk))
      | _ => None
      end
  | SAfter stk v =>
      match stk with
      | [] => None
      | FArray acc :: stk' =>
          match t with
          | TComma => Some (SValue (FArray (v :: acc) :: stk'))
          | TRBracket => Some (SAfter stk' (JArray (rev (v :: acc))))
          | _ => None
          end
      | FObject acc k :: stk' =>
          match t with
          | TComma => Some (SKey stk' ((k, v) :: acc))
          | TRBrace => Some (SAfter stk' (JObject (rev ((k, v) :: acc))))
          | _ => None
          end
      end
  end.

Fixpoint parse_tokens (st : ParseState) (ts : list Token) : option JsValue :=
  match ts with
  | [] => match st with SAfter [] v => Some v | _ => None end
  | t :: ts' =>
      match parse_step st t with
      | Some st' => parse_tokens st' ts'
      | None => None
      end
  end.

(** [JSON.parse(text)]: the value, or [None] where it throws a
    [SyntaxError]. *)
Definition parse (text : string) : option JsValue :=
  match lex LIdle (list_ascii_of_string text) with
  | Some ts => parse_tokens (SValue []) ts
  | None => None
  end.

End JSON.

Definition url_key : list N := code_units "url".

Fixpoint last_member (key : list N) (members : list (list N * JsValue))
  : option JsValue :=
  match members with
  | [] => None
  | (k, v) :: rest =>
      match last_member key rest with
      | Some v' => Some v'
      | None => if decide (k = key) then Some v else None
      end
  end.

(** [config.url] on the value [JSON.parse] returned: reading a property of
    [null] throws a [TypeError], which is the outer [None]; an object
    yields the last member of that name; numbers, booleans, strings and
    arrays have no such property, and the inner [None] is [undefined]. *)
Definition config_url (parsed : JsValue) : option (option JsValue) :=
  match parsed with
  | JNull => None
  | JObject members => Some (last_member url_key members)
  | _ => Some None
  end.

(** ** Data model *)

(** Modelled from the spec: a document of the [skillRegistry] table, whose
    declaration is missing from the sources. The loader reads [_id]
    ([skill_id] here), [name], [skillType], [description], [templateId] and
    [config]; the spec adds the flags [approved] and [active]. *)
Record Skill := mkSkill {
  skill_id : positive;
  name : string;
  skillType : string;
  description : string;
  templateId : option string;
  config : option string;
  approved : bool;
  active : bool
}.

(** Modelled from the spec: the verdict of the security checker, whose
    module is missing from the sources: [allowed], a machine-readable
    [code] and an optional human-readable [reason]. *)
Record Verdict := mkVerdict {
  allowed : bool;
  code : string;
  reason : option string
}.

(** The optional fourth argument of [checkSecurity]: [{ domain }]. *)
Record SecurityContext := mkContext {
  domain : option string
}.

(** The arguments of the [log] mutation, which are the fields of a
    [skillInvocationLog] document. [entrySkillType] is the field
    [skillType]. *)
Record InvocationLogEntry := mkEntry {
  skillName : string;
  entrySkillType : string;
  threadId : option string;
  userId : option string;
  channel : option string;
  input : string;
  output : option string;
  success : bool;
  errorMessage : option string;
  securityCheckResult : string;
  durationMs : Z;
  timestamp : Z
}.

(** A stored document: the system field [_creationTime] and the user
    fields. The [_id] is the key under which the table holds it. *)
Record LogDoc := mkDoc {
  creationTime : Z;
  fields : InvocationLogEntry
}.

(** The table [skillInvocationLog]. *)
Abbreviation LogTable := (gmap positive LogDoc).

(** The internal actions the tools run through [ctx.runAction]. *)
Inductive ActionCall :=
  | TemplatesExecute (templateId : option string) (config : string) (input : string)
  | WebhookCaller (config : string) (input : string) (skillId : positive).

(** What a rejected action call, a builtin or the database throws:
    the [SyntaxError] of [JSON.parse], the [TypeError] of a property read
    on [null] and of [new URL], an [Error] of the hosting runtime (a
    refused argument, a missing document), an [Error] with a message of
    its own, or a value that is not an [Error]. *)
Inductive Thrown :=
  | SyntaxError
  | TypeError
  | RuntimeError
  | ErrorWith (message : string)
  | NonErrorValue.

Inductive ActionOutcome :=
  | Resolves (result : JsValue)
  | Rejects (t : Thrown).

(** What [execute] returns to the caller of the tool. *)
Inductive ToolReturn :=
  | ActionResult (result : JsValue)
  | ResultObject (result : string)
  | ErrorObject (error : option string).

(** A call of the security checker that has returned: its arguments after
    the context, and the verdict. *)
Record CheckCall := mkCheck {
  checked_skill : Skill;
  checked_input : string;
  checked_context : option SecurityContext;
  verdict : Verdict
}.

(** The state an invocation can change: the audit table, the action calls
    and the checker calls made so far, and how many times the clock has been
    read. *)
Record World := mkWorld {
  audit : LogTable;
  actions : list ActionCall;
  checks : list CheckCall;
  ticks : nat
}.

(** The collaborators of the loader, taken as parameters: [checkSecurity]
    and [truncateForLog] of the security module, the outcome of an action
    run through [ctx.runAction], the URL constructor ([None] where it
    throws), the message text of the errors the engine and the hosting
    runtime throw, and the clock, read by the count of earlier readings. *)
Record Runtime := mkRuntime {
  checkSecurity : World -> Skill -> string -> option SecurityContext -> Verdict;
  actionOutcome : World -> ActionCall -> ActionOutcome;
  truncateForLog : JsValue -> string;
  urlHostname : JsValue -> option string;
  errorText : Thrown -> string;
  clock : nat -> Z
}.

(** ** A state and exception monad for the asynchronous code *)

Inductive Completion (A : Type) :=
  | Normal (a : A)
  | Throw (t : Thrown).
Arguments Normal {A} a.
Arguments Throw {A} t.

Definition M (A : Type) : Type := World -> Completion A * World.

Definition ret {A} (a : A) : M A := fun w => (Normal a, w).

Definition throw {A} (t : Thrown) : M A := fun w => (Throw t, w).

Definition bind {A B} (m : M A) (k : A -> M B) : M B :=
  fun w =>
    match m w with
    | (Normal a, w') => k a w'
    | (Throw t, w') => (Throw t, w')
    end.

Definition try_catch {A} (body : M A) (handler : Thrown -> M A) : M A :=
  fun w =>
    match body w with
    | (Normal a, w') => (Normal a, w')
    | (Throw t, w') => handler t w'
    end.

#[global] Instance M_ret : MRet M := @ret.
#[global] Instance M_bind : MBind M := fun A B k m => bind m k.

(** [Date.now()] *)
Definition Date_now (rt : Runtime) : M Z :=
  fun w => (Normal (clock rt (ticks w)),
            mkWorld (audit w) (actions w) (checks w) (S (ticks w))).

(** ** The skill invocation log *)

Module SkillInvocations.

(** The fields an index of the table can be declared on. *)
Inductive Field :=
  | F_skillName | F_skillType | F_threadId | F_userId | F_channel
  | F_input | F_output | F_success | F_errorMessage
  | F_securityCheckResult | F_durationMs | F_timestamp
  | F_creationTime.

#[global] Instance Field_eq_dec : EqDecision Field.
Proof. solve_decision. Defined.

(** The values of those fields, as the database compares them: a missing
    optional field is [undefined], which sorts first, then numbers, then
    booleans, then strings. *)
Inductive Value :=
  | VUndefined
  | VNumber (z : Z)
  | VBoolean (b : bool)
  | VString (s : string).

#[global] Instance Value_eq_dec : EqDecision Value.
Proof. solve_decision. Defined.

Definition optional (o : option string) : Value :=
  match o with
  | Some s => VString s
  | None => VUndefined
  end.

Definition field_value (f : Field) (d : LogDoc) : Value :=
  let e := fields d in
  match f with
  | F_skillName => VString (skillName e)
  | F_skillType => VString (entrySkillType e)
  | F_threadId => optional (threadId e)
  | F_userId => optional (userId e)
  | F_channel => optional (channel e)
  | F_input => VString (input e)
  | F_output => optional (output e)
  | F_success => VBoolean (success e)
  | F_errorMessage => optional (errorMessage e)
  | F_securityCheckResult => VString (securityCheckResult e)
  | F_durationMs => VNumber (durationMs e)
  | F_timestamp => VNumber (timestamp e)
  | F_creationTime => VNumber (creationTime d)
  end.

Definition string_compare (s1 s2 : string) : comparison :=
  list_compare N.compare (code_units s1) (code_units s2).

Definition value_compare (v1 v2 : Value) : comparison :=
  match v1, v2 with
  | VUndefined, VUndefined => Eq
  | VUndefined, _ => Lt
  | VNumber _, VUndefined => Gt
  | VNumber a, VNumber b => Z.compare a b
  | VNumber _, _ => Lt
  | VBoolean _, (VUndefined | VNumber _) => Gt
  | VBoolean a, VBoolean b => Bool.compare a b
  | VBoolean _, VString _ => Lt
  | VString a, VString b => string_compare a b
  | VString _, _ => Gt
  end.

(** A document as a query returns it: its [_id] and its content. *)
Abbreviation Row := (positive * LogDoc)%type.

(** An index orders the documents by its declared fields, then by
    [_creationTime], then by [_id]. *)
Definition index_key (ix : list Field) (r : Row) : list Value :=
  map (fun f => field_value f r.2) ix ++ [VNumber (creationTime r.2)].

Definition row_compare (ix : list Field) (r1 r2 : Row) : comparison :=
  match list_compare value_compare (index_key ix r1) (index_key ix r2) with
  | Eq => Pos.compare r1.1 r2.1
  | c => c
  end.

Definition row_le (ix : list Field) (r1 r2 : Row) : Prop :=
  row_compare ix r1 r2 <> Gt.

#[global] Instance row_le_dec ix r1 r2 : Decision (row_le ix r1 r2).
Proof.
  unfold row_le.
  destruct (row_compare ix r1 r2); [left | left | right]; congruence.
Defined.

(** The index declarations of the table. They belong to the schema file,
    which is missing from the sources, and are a parameter of the reads:
    for each index, the fields it is declared on, in order. *)
Record Schema := mkSchema {
  by_skill : list Field;
  by_timestamp : list Field;
  by_security_result : list Field
}.

(** [ctx.db.query('skillInvocationLog').withIndex(ix)]: every document,
    in the ascending order of the index. *)
Definition withIndex (ix : list Field) (t : LogTable) : list Row :=
  merge_sort (row_le ix) (map_to_list t).

(** [withIndex(ix, q => q.eq(f, v))]: the documents whose field [f] is
    [v], in index order; the field has to be the first one of the
    index. *)
Definition withIndex_eq (ix : list Field) (f : Field) (v : Value)
    (t : LogTable) : Completion (list Row) :=
  match ix with
  | f' :: _ =>
      if decide (f' = f) then
        Normal (filter (fun r : Row => field_value f r.2 = v) (withIndex ix t))
      else Throw RuntimeError
  | [] => Throw RuntimeError
  end.

(** [.order('desc')] *)
Definition order_desc (rows : list Row) : list Row := reverse rows.

(** [.take(n)], which refuses a negative [n]. *)
Definition take_rows (n : Z) (rows : list Row) : Completion (list Row) :=
  if n <? 0 then Throw RuntimeError else Normal (take (Z.to_nat n) rows).

(** [args.limit ?? 50] *)
Definition limit_or_50 (limit : option Z) : Z :=
  match limit with
  | Some n => n
  | None => 50
  end.

Definition passed : string := "passed".

Section Handlers.

Variable schema : Schema.

Definition listBySkill (skill : string) (limit : option Z) (t : LogTable)
  : Completion (list Row) :=
  match withIndex_eq (by_skill schema) F_skillName (VString skill) t with
  | Normal rows => take_rows (limit_or_50 limit) (order_desc rows)
  | Throw e => Throw e
  end.

Definition listRecent (limit : option Z) (t : LogTable)
  : Completion (list Row) :=
  take_rows (limit_or_50 limit)
    (order_desc (withIndex (by_timestamp schema) t)).

Definition listSecurityFailures (limit : option Z) (t : LogTable)
  : Completion (list Row) :=
  take_rows (limit_or_50 limit)
    (order_desc
       (filter (fun r : Row => securityCheckResult (fields r.2) <> passed)
               (withIndex (by_security_result schema) t))).

(** [ctx.db.delete(id)], which refuses an [_id] the table does not
    hold. *)
Definition db_delete (id : positive) : M unit :=
  fun w =>
    match audit w !! id with
    | Some _ => (Normal (), mkWorld (delete id (audit w)) (actions w) (checks w) (ticks w))
    | None => (Throw RuntimeError, w)
    end.

Fixpoint delete_each (rows : list Row) : M unit :=
  match rows with
  | [] => mret ()
  | r :: rest => _ ← db_delete r.1; delete_each rest
  end.

Definition retention_ms : Z := 30 * 24 * 60 * 60 * 1000.

Definition batch_cap : Z := 1000.

(** The documents [cleanup] reads at clock reading [now]. *)
Definition oldLogs (now : Z) (t : LogTable) : Completion (list Row) :=
  let cutoff := now - retention_ms in
  take_rows batch_cap
    (filter (fun r : Row => timestamp (fields r.2) < cutoff)
            (withIndex (by_timestamp schema) t)).

(** A query evaluated against the table of the current state. *)
Definition reading {A} (q : LogTable -> Completion A) : M A :=
  fun w => (q (audit w), w).

(** The [cleanup] mutation; its result is the [deleted] field of the
    object it returns. *)
Definition cleanup (rt : Runtime) : M nat :=
  now ← Date_now rt;
  rows ← reading (oldLogs now);
  _ ← delete_each rows;
  mret (length rows).

End Handlers.

(** The [log] mutation: [ctx.db.insert] stores the arguments as a new
    document, under an [_id] no document of the table has, and returns
    that [_id]. *)
Definition log (rt : Runtime) (args : InvocationLogEntry) : M positive :=
  fun w =>
    let id := fresh (dom (audit w)) in
    (Normal id,
     mkWorld (<[id := mkDoc (clock rt (ticks w)) args]> (audit w))
             (actions w) (checks w) (S (ticks w))).

End SkillInvocations.

(** ** The tool loader *)

Module ToolLoader.

Section Loader.

Variable rt : Runtime.

(** [JSON.parse(text)] *)
Definition JSON_parse (text : string) : M JsValue :=
  match JSON.parse text with
  | Some v => ret v
  | None => throw SyntaxError
  end.

(** [new URL(v).hostname] *)
Definition URL_hostname (v : JsValue) : M string :=
  match urlHostname rt v with
  | Some h => ret h
  | None => throw TypeError
  end.

(** [ctx.runAction(ref, args)]: the call is made, and resolves or
    rejects. *)
Definition runAction (call : ActionCall) : M JsValue :=
  fun w =>
    let w' := mkWorld (audit w) (actions w ++ [call]) (checks w) (ticks w) in
    match actionOutcome rt w call with
    | Resolves result => (Normal result, w')
    | Rejects t => (Throw t, w')
    end.

(** [await checkSecurity(ctx, skill, input, context)] *)
Definition check (skill : Skill) (input : string)
    (context : option SecurityContext) : M Verdict :=
  fun w =>
    let securityResult := checkSecurity rt w skill input context in
    (Normal securityResult,
     mkWorld (audit w) (actions w)
             (checks w ++ [mkCheck skill input context securityResult])
             (ticks w)).

(** [error instanceof Error ? error.message : 'Unknown error'] *)
Definition message_of (error : Thrown) : string :=
  match error with
  | ErrorWith message => message
  | NonErrorValue => "Unknown error"
  | SyntaxError | TypeError | RuntimeError => errorText rt error
  end.

Definition dquote : string := String "034" EmptyString.

(** [skill.config || '{}'] *)
Definition config_or_empty (skill : Skill) : string :=
  match config skill with
  | Some c => if decide (c = EmptyString) then "{}" else c
  | None => "{}"
  end.

(** [output ? truncateForLog(output) : undefined], where [None] is the
    [null] the failure paths pass. *)
Definition logged_output (output : option JsValue) : option string :=
  match output with
  | Some v => if js_truthy v then Some (truncateForLog rt v) else None
  | None => None
  end.

Definition logInvocation (skill : Skill) (input : JsValue)
    (output : option JsValue) (success : bool) (securityResult : Verdict)
    (startTime : Z) (errorMessage : option string) : M unit :=
  now ← Date_now rt;
  let durationMs := now - startTime in
  stamp ← Date_now rt;
  _ ← SkillInvocations.log rt (mkEntry (name skill) (skillType skill) None None None
             (truncateForLog rt input) (logged_output output)
             success errorMessage (code securityResult)
             durationMs stamp);
  mret ().

(** The [execute] function of a template skill's tool. *)
Definition execute_template (skill : Skill) (input : string) : M ToolReturn :=
  startTime ← Date_now rt;
  securityResult ← check skill input None;
  if negb (allowed securityResult) then
    _ ← logInvocation skill (js_string input) None false securityResult
          startTime None;
    mret (ErrorObject (reason securityResult))
  else
    try_catch
      (result ← runAction
                  (TemplatesExecute (templateId skill) (config_or_empty skill) input);
       _ ← logInvocation skill (js_string input) (Some result) true
             securityResult startTime None;
       mret (ActionResult result))
      (fun error =>
         let errorMessage := message_of error in
         _ ← logInvocation skill (js_string input) None false securityResult
               startTime (Some errorMessage);
         mret (ErrorObject (Some errorMessage))).

(** [skill.config ? JSON.parse(skill.config) : {}] followed by
    [config.url ? new URL(config.url).hostname : undefined]. *)
Definition webhook_domain (skill : Skill) : M (option string) :=
  parsed ← match config skill with
           | Some c => if decide (c = EmptyString) then mret (JObject []) else JSON_parse c
           | None => mret (JObject [])
           end;
  match config_url parsed with
  | None => throw TypeError
  | Some (Some url) =>
      if js_truthy url then (h ← URL_hostname url; mret (Some h))
      else mret None
  | Some None => mret None
  end.

(** The [execute] function of a webhook skill's tool. *)
Definition execute_webhook (skill : Skill) (input : string) : M ToolReturn :=
  startTime ← Date_now rt;
  domain ← webhook_domain skill;
  securityResult ← check skill input (Some (mkContext domain));
  if negb (allowed securityResult) then
    _ ← logInvocation skill (js_string input) None false securityResult
          startTime None;
    mret (ErrorObject (reason securityResult))
  else
    try_catch
      (result ← runAction
                  (WebhookCaller (config_or_empty skill) input (skill_id skill));
       _ ← logInvocation skill (js_string input) (Some result) true
             securityResult startTime None;
       mret (ActionResult result))
      (fun error =>
         let errorMessage := message_of error in
         _ ← logInvocation skill (js_string input) None false securityResult
               startTime (Some errorMessage);
         mret (ErrorObject (Some errorMessage))).

(** The [execute] function of a code skill's tool. *)
Definition execute_code (skill : Skill) (query : string) : M ToolReturn :=
  startTime ← Date_now rt;
  securityResult ← check skill query None;
  if negb (allowed securityResult) then
    _ ← logInvocation skill (js_string query) None false securityResult
          startTime None;
    mret (ErrorObject (reason securityResult))
  else
    try_catch
      (let result :=
         "Code skill " +:+ dquote +:+ name skill +:+ dquote
         +:+ " executed with query: " +:+ query in
       _ ← logInvocation skill (js_string query) (Some (js_string result)) true
             securityResult startTime None;
       mret (ResultObject result))
      (fun error =>
         let errorMessage := message_of error in
         _ ← logInvocation skill (js_string query) None false securityResult
               startTime (Some errorMessage);
         mret (ErrorObject (Some errorMessage))).

(** What [createTool] is given: the description shown to the model, the
    one string field of the parameters object, and [execute]. *)
Record Tool := mkTool {
  tool_description : string;
  parameter : string;
  execute : string -> M ToolReturn
}.

Definition createTemplateSkillTool (skill : Skill) : Tool :=
  mkTool (description skill) "input" (execute_template skill).

Definition createWebhookSkillTool (skill : Skill) : Tool :=
  mkTool (description skill) "input" (execute_webhook skill).

Definition createCodeSkillTool (skill : Skill) : Tool :=
  mkTool (description skill) "query" (execute_code skill).

(** [None] is the [null] of the [default] branch. *)
Definition createToolFromSkill (skill : Skill) : option Tool :=
  if decide (skillType skill = "template") then Some (createTemplateSkillTool skill)
  else if decide (skillType skill = "webhook") then Some (createWebhookSkillTool skill)
  else if decide (skillType skill = "code") then Some (createCodeSkillTool skill)
  else None.

(** The object [tools], which starts as the literal [{}]: its own
    properties, and the tool that has been made its prototype, [None]
    while the prototype is still [Object.prototype]. *)
Record ToolSet := mkToolSet {
  own : gmap string Tool;
  prototype : option Tool
}.

(** The own property of the tool set under a name, which is what
    [Object.keys], [Object.entries] and [hasOwnProperty] see. *)
#[global] Instance ToolSet_lookup : Lookup string Tool ToolSet :=
  fun key tools => own tools !! key.

(** [tools[key] = toolFn] on that object. The key [__proto__] reaches the
    setter [Object.prototype] has under this name: the tool, an object,
    becomes the prototype of [tools], and no property is created. Under
    any other key the own property is created or overwritten, also when
    the prototype has a property of that name (the properties of
    [Object.prototype] other than [__proto__], and those of a tool, are
    writable data properties). *)
Definition assign (tools : ToolSet) (key : string) (toolFn : Tool) : ToolSet :=
  if decide (key = "__proto__")
  then mkToolSet (own tools) (Some toolFn)
  else mkToolSet (<[key := toolFn]> (own tools)) (prototype tools).

(** One turn of the loop of [loadTools]:
    [if (toolFn) tools[skill.name] = toolFn]. *)
Definition register (tools : ToolSet) (skill : Skill) : ToolSet :=
  match createToolFromSkill skill with
  | Some toolFn => assign tools (name skill) toolFn
  | None => tools
  end.

(** [loadTools(ctx)], where [skills] is what
    [ctx.runQuery(internal.skillRegistry.getActiveApproved)] resolves to:
    the loop over the skills, starting from the empty object. *)
Definition loadTools (skills : list Skill) : ToolSet :=
  foldl register (mkToolSet ∅ None) skills.

End Loader.

(** Modelled from the spec: the handler of the registry query
    [internal.skillRegistry.getActiveApproved], which is missing from the
    sources. The spec has the loader read the approved and active skills, a
    skill being eligible iff [approved && active]; the registry is given in
    the order in which the query scans it, and the loader is run as
    [loadTools rt (getActiveApproved registry)]. *)
Definition getActiveApproved (registry : list Skill) : list Skill :=
  filter (fun skill => approved skill && active skill = true) registry.

End ToolLoader.

Import SkillInvocations ToolLoader.

(** ** State and exceptions over any state *)

(** The monad of [M], for the handlers that work on another state. *)
Definition ST (S A : Type) : Type := S -> Completion A * S.

#[global] Instance ST_ret {S} : MRet (ST S) := fun A a s => (Normal a, s).

#[global] Instance ST_bind {S} : MBind (ST S) :=
  fun A B k m s =>
    match m s with
    | (Normal a, s') => k a s'
    | (Throw t, s') => (Throw t, s')
    end.

Definition raise {S A} (t : Thrown) : ST S A := fun s => (Throw t, s).

(** A value read off the state. *)
Definition inspect {S A} (f : S -> A) : ST S A := fun s => (Normal (f s), s).

(** A query that may throw, run against the state. *)
Definition querying {S A} (q : S -> Completion A) : ST S A := fun s => (q s, s).

(** [mutation({ handler })] and [internalMutation({ handler })]: the
    writes of a handler that throws are not committed. *)
Definition mutation {S A} (handler : ST S A) : ST S A :=
  fun s =>
    match handler s with
    | (Normal a, s') => (Normal a, s')
    | (Throw t, _) => (Throw t, s)
    end.

(** ** Tables *)

Module Table.

Section Scan.

Context {K D : Type} `{Countable K}.

(** The order of the [_id]s, and the values a document has in the fields
    of the index, its [_creationTime] last. *)
Variable id_compare : K -> K -> comparison.
Variable key : D -> list Value.

Definition doc_compare (r1 r2 : K * D) : comparison :=
  match list_compare value_compare (key r1.2) (key r2.2) with
  | Eq => id_compare r1.1 r2.1
  | c => c
  end.

Definition doc_le (r1 r2 : K * D) : Prop := doc_compare r1 r2 <> Gt.

#[global] Instance doc_le_dec r1 r2 : Decision (doc_le r1 r2).
Proof.
  unfold doc_le.
  destruct (doc_compare r1 r2); [left | left | right]; congruence.
Defined.

(** The documents of a table in the ascending order of an index. *)
Definition scan (t : gmap K D) : list (K * D) :=
  merge_sort doc_le (map_to_list t).

End Scan.

(** [.take(n)], which refuses a negative [n]. *)
Definition take_docs {A} (n : Z) (l : list A) : Completion (list A) :=
  if n <? 0 then Throw RuntimeError else Normal (take (Z.to_nat n) l).

(** [a ?? b] on an optional number. *)
Definition or_default (limit : option Z) (default : Z) : Z :=
  match limit with
  | Some n => n
  | None => default
  end.

End Table.

(** ** The X integration *)

Module XTwitter.

(** The [xConfig] documents: the arguments of [updateConfig] and the
    [updatedAt] stamp it adds. *)
Module Config.

Record args := mk {
  enabled : bool;
  username : option string;
  showOnLanding : bool;
  autoReply : bool;
  postFromAgent : bool;
  rateLimitPerHour : Z
}.

(** [{ ...args }] patched over a stored document: an absent [username]
    leaves the stored one. *)
Definition patch (old new : args) : args :=
  mk (enabled new)
     (match username new with Some u => Some u | None => username old end)
     (showOnLanding new) (autoReply new) (postFromAgent new)
     (rateLimitPerHour new).

Record doc := mkDoc {
  creationTime : Z;
  values : args;
  updatedAt : Z
}.

End Config.

(** The [xTweets] documents: the arguments of [cacheTweet] and the
    [fetchedAt] stamp it adds. A tweet id is the string the X API
    answered, as code units. *)
Module Tweet.

Record args := mk {
  tweetId : list N;
  text : string;
  authorUsername : string;
  authorDisplayName : option string;
  authorProfileImageUrl : option string;
  isAgentTweet : bool;
  isReply : bool;
  replyToTweetId : option string;
  likeCount : option Z;
  retweetCount : option Z;
  replyCount : option Z;
  showOnLanding : bool;
  postedAt : option Z
}.

Definition or_old {A} (new old : option A) : option A :=
  match new with
  | Some _ => new
  | None => old
  end.

(** [{ ...args }] patched over a stored document: the optional fields
    that are absent leave the stored ones. *)
Definition patch (old new : args) : args :=
  mk (tweetId new) (text new) (authorUsername new)
     (or_old (authorDisplayName new) (authorDisplayName old))
     (or_old (authorProfileImageUrl new) (authorProfileImageUrl old))
     (isAgentTweet new) (isReply new)
     (or_old (replyToTweetId new) (replyToTweetId old))
     (or_old (likeCount new) (likeCount old))
     (or_old (retweetCount new) (retweetCount old))
     (or_old (replyCount new) (replyCount old))
     (showOnLanding new)
     (or_old (postedAt new) (postedAt old)).

Definition with_postedAt (a : args) (at_ms : Z) : args :=
  mk (tweetId a) (text a) (authorUsername a) (authorDisplayName a)
     (authorProfileImageUrl a) (isAgentTweet a) (isReply a)
     (replyToTweetId a) (likeCount a) (retweetCount a) (replyCount a)
     (showOnLanding a) (Some at_ms).

Definition with_showOnLanding (a : args) (flag : bool) : args :=
  mk (tweetId a) (text a) (authorUsername a) (authorDisplayName a)
     (authorProfileImageUrl a) (isAgentTweet a) (isReply a)
     (replyToTweetId a) (likeCount a) (retweetCount a) (replyCount a)
     flag (postedAt a).

Record doc := mkDoc {
  creationTime : Z;
  values : args;
  fetchedAt : Z
}.

End Tweet.

(** The [activityLog] documents [logTweetActivity] writes. *)
Module Activity.

Inductive Visibility := public | private.

Record doc := mkDoc {
  creationTime : Z;
  actionType : string;
  summary : string;
  channel : string;
  visibility : Visibility;
  timestamp : Z
}.

End Activity.

(** What is given to [fetch]: the method when one is given, the URL, the
    [Authorization] header, the [Content-Type] header when one is given,
    and the object [JSON.stringify] is applied to for the body. *)
Record PostBody := mkBody {
  body_text : string;
  in_reply_to_tweet_id : option string
}.

Record Request := mkRequest {
  method : option string;
  url : string;
  authorization : string;
  contentType : option string;
  body : option PostBody
}.

Record Response := mkResponse {
  ok : bool;
  payload : string
}.

Inductive FetchOutcome :=
  | Responds (response : Response)
  | Fails (t : Thrown).

Record Credentials := mkCredentials {
  apiKey : string;
  apiSecret : string;
  accessToken : string;
  accessTokenSecret : string
}.

(** [process.env] *)
Record Env := mkEnv {
  X_BEARER_TOKEN : option string;
  X_API_KEY : option string;
  X_API_SECRET : option string;
  X_ACCESS_TOKEN : option string;
  X_ACCESS_TOKEN_SECRET : option string
}.

(** The three tables, the requests sent so far, and how many times the
    clock and the random source have been read. *)
Record State := mkState {
  xConfig : gmap positive Config.doc;
  xTweets : gmap positive Tweet.doc;
  activityLog : gmap positive Activity.doc;
  sent : list Request;
  readings : nat;
  draws : nat
}.

(** What the handlers take from outside: the clock, the text
    [Math.random().toString(36).substring(2)] yields at each draw, the
    environment, and what the network answers to a request. *)
Record Host := mkHost {
  reading : nat -> Z;
  nonce_text : nat -> string;
  env : Env;
  answer : State -> Request -> FetchOutcome
}.

(** The index declarations of [xTweets], which belong to the schema file
    and are a parameter: for each index, the values a document has in the
    fields the index is declared on. *)
Record Indexes := mkIndexes {
  by_showOnLanding : Tweet.doc -> list Value;
  by_postedAt : Tweet.doc -> list Value;
  by_tweetId : Tweet.doc -> list Value
}.

Definition config_rows (s : State) : list (positive * Config.doc) :=
  Table.scan Pos.compare
    (fun d => [VNumber (Config.creationTime d)]) (xConfig s).

Definition tweet_rows (ix : Tweet.doc -> list Value) (s : State)
  : list (positive * Tweet.doc) :=
  Table.scan Pos.compare
    (fun d => ix d ++ [VNumber (Tweet.creationTime d)]) (xTweets s).

(** A string as a condition: [undefined] and the empty string are
    falsy. *)
Definition truthy (o : option string) : bool :=
  match o with
  | Some s => if decide (s = EmptyString) then false else true
  | None => false
  end.

Section Handlers.

Variable host : Host.
Variable indexes : Indexes.

(** [Date.now()] *)
Definition now : ST State Z :=
  fun s => (Normal (reading host (readings s)),
            mkState (xConfig s) (xTweets s) (activityLog s) (sent s)
                    (S (readings s)) (draws s)).

(** [Math.random().toString(36).substring(2)] *)
Definition random_nonce : ST State string :=
  fun s => (Normal (nonce_text host (draws s)),
            mkState (xConfig s) (xTweets s) (activityLog s) (sent s)
                    (readings s) (S (draws s))).

(** [ctx.db.query('xConfig').first()], which is [getConfig] and
    [getConfigInternal]. *)
Definition getConfig (s : State) : option (positive * Config.doc) :=
  head (config_rows s).

(** [ctx.db.patch(id, ...)] and [ctx.db.insert(table, ...)] on each
    table: a patch refuses an [_id] the table does not hold, an insert
    stores the document under an [_id] no document of the table has, with
    the clock reading as [_creationTime]. *)
Definition patch_config (id : positive) (f : Config.doc -> Config.doc)
  : ST State unit :=
  fun s =>
    match xConfig s !! id with
    | Some d =>
        (Normal (),
         mkState (<[id := f d]> (xConfig s)) (xTweets s) (activityLog s)
                 (sent s) (readings s) (draws s))
    | None => (Throw RuntimeError, s)
    end.

Definition insert_config (values : Config.args) (stamp : Z) : ST State positive :=
  fun s =>
    let id := fresh (dom (xConfig s)) in
    (Normal id,
     mkState (<[id := Config.mkDoc (reading host (readings s)) values stamp]>
                (xConfig s))
             (xTweets s) (activityLog s) (sent s) (S (readings s)) (draws s)).

Definition patch_tweet (id : positive) (f : Tweet.doc -> Tweet.doc)
  : ST State unit :=
  fun s =>
    match xTweets s !! id with
    | Some d =>
        (Normal (),
         mkState (xConfig s) (<[id := f d]> (xTweets s)) (activityLog s)
                 (sent s) (readings s) (draws s))
    | None => (Throw RuntimeError, s)
    end.

Definition insert_tweet (values : Tweet.args) (stamp : Z) : ST State positive :=
  fun s =>
    let id := fresh (dom (xTweets s)) in
    (Normal id,
     mkState (xConfig s)
             (<[id := Tweet.mkDoc (reading host (readings s)) values stamp]>
                (xTweets s))
             (activityLog s) (sent s) (S (readings s)) (draws s)).

Definition insert_activity (actionType summary channel : string)
    (visibility : Activity.Visibility) (stamp : Z) : ST State positive :=
  fun s =>
    let id := fresh (dom (activityLog s)) in
    (Normal id,
     mkState (xConfig s) (xTweets s)
             (<[id := Activity.mkDoc (reading host (readings s)) actionType
                        summary channel visibility stamp]> (activityLog s))
             (sent s) (S (readings s)) (draws s)).

Definition updateConfig (args : Config.args) : ST State positive :=
  mutation
    (existing ← inspect getConfig;
     match existing with
     | Some (id, _) =>
         stamp ← now;
         _ ← patch_config id
               (fun d => Config.mkDoc (Config.creationTime d)
                           (Config.patch (Config.values d) args) stamp);
         mret id
     | None =>
         stamp ← now;
         insert_config args stamp
     end).

(** [!config?.showOnLanding] *)
Definition landing_hidden (config : option (positive * Config.doc)) : bool :=
  match config with
  | Some (_, c) => negb (Config.showOnLanding (Config.values c))
  | None => true
  end.

Definition getLandingTweets (limit : option Z) (s : State)
  : Completion (list (positive * Tweet.doc)) :=
  if landing_hidden (getConfig s) then Normal []
  else
    Table.take_docs (Table.or_default limit 5)
      (reverse
         (filter (fun r : positive * Tweet.doc =>
                    Tweet.showOnLanding (Tweet.values r.2) = true)
                 (tweet_rows (by_showOnLanding indexes) s))).

Definition listTweets (limit : option Z) (s : State)
  : Completion (list (positive * Tweet.doc)) :=
  Table.take_docs (Table.or_default limit 50)
    (reverse (tweet_rows (by_postedAt indexes) s)).

(** [withIndex('by_tweetId', q => q.eq('tweetId', tweetId)).first()] *)
Definition tweet_by_id (tweetId : list N) (s : State)
  : option (positive * Tweet.doc) :=
  head (filter (fun r : positive * Tweet.doc =>
                  Tweet.tweetId (Tweet.values r.2) = tweetId)
               (tweet_rows (by_tweetId indexes) s)).

Definition toggleTweetLandingVisibility (tweetId : list N) (showOnLanding : bool)
  : ST State unit :=
  mutation
    (tweet ← inspect (tweet_by_id tweetId);
     match tweet with
     | Some (id, _) =>
         patch_tweet id
           (fun d => Tweet.mkDoc (Tweet.creationTime d)
                       (Tweet.with_showOnLanding (Tweet.values d) showOnLanding)
                       (Tweet.fetchedAt d))
     | None => mret ()
     end).

Definition cacheTweet (args : Tweet.args) : ST State positive :=
  mutation
    (existing ← inspect (tweet_by_id (Tweet.tweetId args));
     match existing with
     | Some (id, _) =>
         stamp ← now;
         _ ← patch_tweet id
               (fun d => Tweet.mkDoc (Tweet.creationTime d)
                           (Tweet.patch (Tweet.values d) args) stamp);
         mret id
     | None =>
         posted ← match Tweet.postedAt args with
                  | Some p => mret p
                  | None => now
                  end;
         stamp ← now;
         insert_tweet (Tweet.with_postedAt args posted) stamp
     end).

Definition logTweetActivity (actionType summary : string)
    (visibility : Activity.Visibility) : ST State unit :=
  mutation
    (stamp ← now;
     _ ← insert_activity actionType summary "x" visibility stamp;
     mret ()).

(** [fetch(url, init)]: the request goes out, and is answered or fails. *)
Definition fetch (request : Request) : ST State Response :=
  fun s =>
    let s' := mkState (xConfig s) (xTweets s) (activityLog s)
                      (sent s ++ [request]) (readings s) (draws s) in
    match answer host s request with
    | Responds response => (Normal response, s')
    | Fails t => (Throw t, s')
    end.

Definition quoted (s : string) : string := dquote +:+ s +:+ dquote.

Definition makeOAuthRequest (method url : string) (body : PostBody)
    (credentials : Credentials) : ST State Response :=
  stamp ← now;
  let timestamp := pretty (stamp `div` 1000) in
  nonce ← random_nonce;
  let signature := "PLACEHOLDER_SIGNATURE" in
  let authHeader :=
    "OAuth oauth_consumer_key=" +:+ quoted (apiKey credentials)
    +:+ ", oauth_nonce=" +:+ quoted nonce
    +:+ ", oauth_signature=" +:+ quoted signature
    +:+ ", oauth_signature_method=" +:+ quoted "HMAC-SHA1"
    +:+ ", oauth_timestamp=" +:+ quoted timestamp
    +:+ ", oauth_token=" +:+ quoted (accessToken credentials)
    +:+ ", oauth_version=" +:+ quoted "1.0" in
  fetch (mkRequest (Some method) url authHeader (Some "application/json")
                   (Some body)).

(** [response.json()] *)
Definition json (response : Response) : ST State JsValue :=
  match JSON.parse (payload response) with
  | Some v => mret v
  | None => raise SyntaxError
  end.

(** [v.data] and [d.id]: reading a property of [undefined] or [null]
    throws a [TypeError]; an object yields the last member of that name,
    and no other value has a property of these names. *)
Definition member (key : string) (v : option JsValue)
  : ST State (option JsValue) :=
  match v with
  | None | Some JNull => raise TypeError
  | Some (JObject members) => mret (last_member (code_units key) members)
  | Some _ => mret None
  end.

(** The argument check of [cacheTweet] on [tweetId: v.string()]. *)
Definition string_argument (v : option JsValue) : ST State (list N) :=
  match v with
  | Some (JString s) => mret s
  | _ => raise RuntimeError
  end.

Definition credentials_of (e : Env) : option Credentials :=
  if truthy (X_API_KEY e) && truthy (X_API_SECRET e)
     && truthy (X_ACCESS_TOKEN e) && truthy (X_ACCESS_TOKEN_SECRET e)
  then Some (mkCredentials (default EmptyString (X_API_KEY e))
                           (default EmptyString (X_API_SECRET e))
                           (default EmptyString (X_ACCESS_TOKEN e))
                           (default EmptyString (X_ACCESS_TOKEN_SECRET e)))
  else None.

(** [!config?.enabled || !config?.postFromAgent] *)
Definition posting_disabled (config : option (positive * Config.doc)) : bool :=
  match config with
  | Some (_, c) =>
      negb (Config.enabled (Config.values c))
      || negb (Config.postFromAgent (Config.values c))
  | None => true
  end.

Definition postTweet (text : string) (replyToTweetId : option string)
  : ST State (option JsValue) :=
  config ← inspect getConfig;
  match config with
  | Some (_, c) =>
      if posting_disabled config then
        raise (ErrorWith "X/Twitter posting is not enabled")
      else
        match credentials_of (env host) with
        | None =>
            raise (ErrorWith "X/Twitter credentials not configured. Set X_API_KEY, X_API_SECRET, X_ACCESS_TOKEN, X_ACCESS_TOKEN_SECRET in Convex environment.")
        | Some credentials =>
            let body :=
              mkBody text (if truthy replyToTweetId then replyToTweetId else None) in
            response ← makeOAuthRequest "POST" "https://api.twitter.com/2/tweets"
                         body credentials;
            if negb (ok response) then
              raise (ErrorWith ("Failed to post tweet: " +:+ payload response))
            else
              result ← json response;
              data ← member "data" (Some result);
              id ← member "id" data;
              tweetId ← string_argument id;
              _ ← cacheTweet
                    (Tweet.mk tweetId text
                       (if truthy (Config.username (Config.values c))
                        then default EmptyString (Config.username (Config.values c))
                        else "agent")
                       None None true (truthy replyToTweetId) replyToTweetId
                       None None None
                       (Config.showOnLanding (Config.values c)) None);
              _ ← logTweetActivity
                    (if truthy replyToTweetId then "x_reply" else "x_post")
                    (if truthy replyToTweetId
                     then "Replied to tweet: " +:+ substring 0 50 text +:+ "..."
                     else "Posted tweet: " +:+ substring 0 50 text +:+ "...")
                    Activity.public;
              mret data
        end
  | None => raise (ErrorWith "X/Twitter posting is not enabled")
  end.

Definition readTweet (tweetId : string) : ST State JsValue :=
  if truthy (X_BEARER_TOKEN (env host)) then
    response ← fetch
      (mkRequest None
         ("https://api.twitter.com/2/tweets/" +:+ tweetId
          +:+ "?tweet.fields=author_id,created_at,public_metrics,conversation_id&expansions=author_id&user.fields=username,name,profile_image_url")
         ("Bearer " +:+ default EmptyString (X_BEARER_TOKEN (env host)))
         None None);
    if negb (ok response) then raise (ErrorWith "Failed to read tweet")
    else json response
  else raise (ErrorWith "X_BEARER_TOKEN not configured").

End Handlers.

End XTwitter.

(** ** The conversation threads *)

Module Threads.

(** The handlers reach the tables [agent_threads] and [agent_messages]
    through an untyped database handle, and [get] and [remove] hand the
    string they are given to [ctx.db.get] and [ctx.db.delete], which
    take the [_id] of a document of any table. The documents are
    therefore kept in one store, by [_id], each with the name of its
    table, its [_creationTime] and its fields. *)
Record Document := mkDocument {
  table : string;
  creationTime : Z;
  fields : gmap string JsValue
}.

Abbreviation Store := (gmap string Document).

Abbreviation Row := (string * Document)%type.

(** The objects the handlers return. *)
Record ThreadView := mkThread {
  threadId : string;
  createdAt : Z;
  metadata : option JsValue
}.

Record MessageView := mkMessage {
  id : string;
  role : option JsValue;
  content : option JsValue;
  sentAt : Z
}.

Record State := mkState {
  store : Store;
  readings : nat
}.

(** What the handlers take from outside: the clock, and the strings the
    database accepts as an [_id]. *)
Record Host := mkHost {
  reading : nat -> Z;
  well_formed : string -> bool
}.

(** [ctx.db.query(name)]: the documents of a table, oldest first. *)
Definition rows (name : string) (st : Store) : list Row :=
  filter (fun r : Row => table r.2 = name)
         (Table.scan string_compare
            (fun d => [VNumber (creationTime d)]) st).

(** [q.eq(q.field('threadId'), threadId)]: the field holds that
    string. *)
Definition holds_string (v : option JsValue) (s : string) : bool :=
  match v with
  | Some (JString u) => bool_decide (u = code_units s)
  | _ => false
  end.

Definition of_thread (threadId : string) (r : Row) : Prop :=
  holds_string (fields r.2 !! "threadId") threadId = true.

#[global] Instance of_thread_dec threadId r : Decision (of_thread threadId r).
Proof. unfold of_thread. apply _. Defined.

Definition thread_view (r : Row) : ThreadView :=
  mkThread r.1 (creationTime r.2) (fields r.2 !! "metadata").

Definition message_view (r : Row) : MessageView :=
  mkMessage r.1 (fields r.2 !! "role") (fields r.2 !! "content")
            (creationTime r.2).

Definition list (limit : option Z) (st : Store) : Completion (list ThreadView) :=
  match Table.take_docs (Table.or_default limit 20)
          (reverse (rows "agent_threads" st)) with
  | Normal threads => Normal (thread_view <$> threads)
  | Throw t => Throw t
  end.

Definition getMessages (threadId : string) (st : Store)
  : Completion (Datatypes.list MessageView) :=
  match Table.take_docs 100
          (filter (of_thread threadId) (rows "agent_messages" st)) with
  | Normal messages => Normal (message_view <$> messages)
  | Throw t => Throw t
  end.

(** [try { ... } catch { return [] }] around the same query. *)
Definition listPublic (limit : option Z) (st : Store)
  : Datatypes.list ThreadView :=
  match list limit st with
  | Normal threads => threads
  | Throw _ => []
  end.

Definition getThreadMessages (threadId : string) (st : Store)
  : Datatypes.list MessageView :=
  match getMessages threadId st with
  | Normal messages => messages
  | Throw _ => []
  end.

Section Handlers.

Variable host : Host.

(** [ctx.db.get(id)]: the stored document, [null] for an [_id] that
    names none, and an exception for a string that is no [_id]. *)
Definition db_get (id : string) (st : Store) : Completion (option Row) :=
  match st !! id with
  | Some d => Normal (Some (id, d))
  | None => if well_formed host id then Normal None else Throw RuntimeError
  end.

Definition get (threadId : string) (st : Store) : option ThreadView :=
  match db_get threadId st with
  | Normal (Some thread) => Some (thread_view thread)
  | Normal None => None
  | Throw _ => None
  end.

(** [ctx.db.insert(name, fields)] *)
Definition db_insert (name : string) (values : gmap string JsValue)
  : ST State string :=
  fun s =>
    let id := fresh (dom (store s)) in
    (Normal id,
     mkState (<[id := mkDocument name (reading host (readings s)) values]>
                (store s))
             (S (readings s))).

(** [args.metadata ?? {}] *)
Definition metadata_or_empty (metadata : option JsValue) : JsValue :=
  match metadata with
  | None | Some JNull => JObject []
  | Some v => v
  end.

Definition create (metadata : option JsValue) : ST State string :=
  mutation
    (db_insert "agent_threads"
       (<["metadata" := metadata_or_empty metadata]>
          (<["status" := js_string "active"]> ∅))).

(** [ctx.db.delete(id)], which refuses a string that names no stored
    document. *)
Definition db_delete (id : string) : ST State unit :=
  fun s =>
    match store s !! id with
    | Some _ => (Normal (), mkState (delete id (store s)) (readings s))
    | None => (Throw RuntimeError, s)
    end.

Fixpoint delete_each (messages : Datatypes.list Row) : ST State unit :=
  match messages with
  | [] => mret ()
  | msg :: rest => _ ← db_delete msg.1; delete_each rest
  end.

Definition remove (threadId : string) : ST State unit :=
  mutation
    (messages ← inspect (fun s => filter (of_thread threadId)
                                   (rows "agent_messages" (store s)));
     _ ← delete_each messages;
     db_delete threadId).

End Handlers.

End Threads.

(** * Vocabulary of the properties *)

(** The error object the wrapper itself builds, [{ error: ... }]; what the
    action returned, whatever its shape, and [{ result }] are results. *)
Definition is_error_payload (r : ToolReturn) : bool :=
  match r with
  | ErrorObject _ => true
  | _ => false
  end.

(** Between [w] and [w'] exactly one document, with fields [e], has been
    added to the audit table, and none changed or removed. *)
Definition wrote_one (w w' : World) (e : InvocationLogEntry) : Prop :=
  exists id t, audit w !! id = None /\ audit w' = <[id := mkDoc t e]> (audit w).

(** The facts about an invocation that reached the checker, recorded as
    the call [c]: it returned [r], one entry [e] was written, the checker
    was called once, and a denial ran no action. *)
Definition dispatched (w w' : World) (c : CheckCall) (r : ToolReturn)
    (e : InvocationLogEntry) : Prop :=
  checks w' = checks w ++ [c]
  /\ wrote_one w w' e
  /\ success e = negb (is_error_payload r)
  /\ securityCheckResult e = code (verdict c)
  /\ (allowed (verdict c) = false ->
      r = ErrorObject (reason (verdict c))
      /\ actions w' = actions w
      /\ success e = false
      /\ output e = None).

(** The state after one reading of the clock and nothing else. *)
Definition tick (w : World) : World :=
  mkWorld (audit w) (actions w) (checks w) (S (ticks w)).

(** Newest first: no row is followed, anywhere later in the list, by a
    row with a greater [timestamp]. *)
Definition newest_first (rows : list Row) : Prop :=
  StronglySorted
    (fun a b : Row => timestamp (fields b.2) <= timestamp (fields a.2)) rows.

(** The rows one sweep at clock reading [now] deletes: the first 1000,
    in the order of [by_timestamp], of those older than the cutoff. *)
Definition swept (schema : Schema) (now : Z) (t : LogTable) : list Row :=
  take 1000
    (filter (fun r : Row => timestamp (fields r.2) < now - retention_ms)
            (withIndex (by_timestamp schema) t)).

(** A comparison that is a total order: [Eq] means equal, swapping the
    arguments flips the result, and each result is transitive. *)
Record total_compare {A} (cmp : A -> A -> comparison) : Prop := {
  cmp_eq : forall x y, cmp x y = Eq <-> x = y;
  cmp_opp : forall x y, cmp y x = CompOpp (cmp x y);
  cmp_trans : forall x y z c, cmp x y = c -> cmp y z = c -> cmp x z = c
}.

(** The state in which the action of an allowed call runs: the clock has
    been read once and the checker's answer [c] recorded. *)
Definition asked (w : World) (c : CheckCall) : World :=
  mkWorld (audit w) (actions w) (checks w ++ [c]) (S (ticks w)).

(** The configs on which reading the domain of a webhook skill throws:
    a non-empty text that is not JSON, that is the JSON [null], or whose
    [url] is truthy and refused by the URL constructor. *)
Definition unreadable_config (rt : Runtime) (skill : Skill) : Prop :=
  exists c,
    config skill = Some c /\ c <> EmptyString
    /\ (JSON.parse c = None
        \/ JSON.parse c = Some JNull
        \/ exists parsed url,
             JSON.parse c = Some parsed
             /\ config_url parsed = Some (Some url)
             /\ js_truthy url = true
             /\ urlHostname rt url = None).

(** The entries past the 30-day retention window at clock reading [now]. *)
Definition expired (now : Z) (t : LogTable) : LogTable :=
  filter (fun r : Row => timestamp (fields r.2) < now - 2592000000) t.

(** The stored entries of one skill, and those that did not pass. *)
Definition of_skill (skill : string) (t : LogTable) : LogTable :=
  filter (fun r : Row => skillName (fields r.2) = skill) t.

Definition refusals (t : LogTable) : LogTable :=
  filter (fun r : Row => securityCheckResult (fields r.2) <> passed) t.

(** No two stored tweets have the same [tweetId]. *)
Definition unique_tweet_ids (t : gmap positive XTwitter.Tweet.doc) : Prop :=
  forall i j di dj,
    t !! i = Some di -> t !! j = Some dj ->
    XTwitter.Tweet.tweetId (XTwitter.Tweet.values di)
    = XTwitter.Tweet.tweetId (XTwitter.Tweet.values dj) ->
    i = j.

(** The order in which [ctx.db.query('xConfig')] yields the documents. *)
Definition config_le : relation (positive * XTwitter.Config.doc) :=
  Table.doc_le Pos.compare (fun d => [VNumber (XTwitter.Config.creationTime d)]).

(** The stored messages of a thread. *)
Definition thread_messages (threadId : string) (st : Threads.Store)
  : Threads.Store :=
  filter (fun r : Threads.Row =>
            Threads.table r.2 = "agent_messages"
            /\ Threads.of_thread threadId r) st.

(** The stored threads. *)
Definition threads (st : Threads.Store) : Threads.Store :=
  filter (fun r : Threads.Row => Threads.table r.2 = "agent_threads") st.

(** ** Scenarios *)

Definition config_of_url (url : string) : string :=
  "{" +:+ dquote +:+ "url" +:+ dquote +:+ ":" +:+ dquote +:+ url +:+ dquote +:+ "}".

(** The webhook skill of the scenarios: approved, active, configured with
    the URL [https://example.com/hook]. *)
Definition ping : Skill :=
  mkSkill 1 "ping" "webhook" "Calls the ping hook" None
          (Some (config_of_url "https://example.com/hook")) true true.

(** A webhook skill whose stored config is not JSON. *)
Definition broken_hook : Skill :=
  mkSkill 2 "notify" "webhook" "Notifies the team" None
          (Some "{not json") true true.

(** A template skill. *)
Definition summarize : Skill :=
  mkSkill 3 "summarize" "template" "Summarizes a text" (Some "summary")
          (Some "{}") true true.

(** A second approved and active skill under the name [ping]. *)
Definition ping_code : Skill :=
  mkSkill 4 "ping" "code" "Answers pong" None None true true.

(** A skill that was approved and then deactivated. *)
Definition retired : Skill :=
  mkSkill 5 "legacy" "code" "No longer offered" None None true false.




(** A runtime whose checker refuses every call as the denial scenario
    does, whose actions answer [pong], and whose clock advances by one
    millisecond per reading. *)
Definition refusing : Runtime :=
  mkRuntime
    (fun _ _ _ _ => mkVerdict false "domain_not_allowlisted" (Some "host not permitted"))
    (fun _ _ => Resolves (js_string "pong"))
    (fun _ => "logged")
    (fun _ => Some "example.com")
    (fun _ => "engine message")
    (fun n => 1700000000000 + Z.of_nat n).

(** A runtime whose checker passes every call and whose clock reads the
    same at every reading. *)
Definition steady : Runtime :=
  mkRuntime
    (fun _ _ _ _ => mkVerdict true "passed" None)
    (fun _ _ => Resolves (js_string "pong"))
    (fun _ => "logged")
    (fun _ => Some "example.com")
    (fun _ => "engine message")
    (fun _ => 1700000000000).

Definition idle : World := mkWorld ∅ [] [] 0.

(** The index declarations that the names of the indexes, and the range
    expression of [listBySkill], announce. *)
Definition declared : Schema :=
  mkSchema [F_skillName; F_timestamp] [F_timestamp]
           [F_securityCheckResult; F_timestamp].

Definition logged_call (skill result_code : string) (ok : bool) (at_ms : Z)
  : LogDoc :=
  mkDoc at_ms
        (mkEntry skill "webhook" None None None "hello" None ok None
                 result_code 3 at_ms).

(** Two refused invocations: an older one of an unapproved skill and a
    newer one whose host is not on the allow list. *)
Definition older_refusal : LogDoc :=
  logged_call "deploy" "not_approved" false 1700000000100.

Definition newer_refusal : LogDoc :=
  logged_call "ping" "domain_not_allowlisted" false 1700000000200.

Definition two_refusals : LogTable :=
  <[1%positive := older_refusal]> (<[2%positive := newer_refusal]> ∅).

(** A backlog of 1001 entries, all of them long past the retention
    window at the clock reading of [steady]. *)
Definition backlog : LogTable :=
  list_to_map
    ((fun i => (Pos.of_nat (S i), logged_call "ping" "passed" true (Z.of_nat i)))
       <$> seq 0 1001).

(** Two entries past the retention window at the clock reading of
    [steady], and one inside it. *)
Definition small_log : LogTable :=
  <[1%positive := logged_call "ping" "passed" true 1000]>
    (<[2%positive := logged_call "ping" "passed" true 2000]>
       (<[3%positive := logged_call "ping" "passed" true 1699999999000]> ∅)).

(** A runtime whose checker passes every call and whose actions are
    rejected with an [Error]. *)
Definition failing : Runtime :=
  mkRuntime
    (fun _ _ _ _ => mkVerdict true "passed" None)
    (fun _ _ => Rejects (ErrorWith "upstream unavailable"))
    (fun _ => "logged")
    (fun _ => Some "example.com")
    (fun _ => "engine message")
    (fun _ => 1700000000000).

(** ** Scenarios of the X integration *)

(** The key of a string field: its code units, closed by the value that
    sorts before every unit, so that a string sorts after its
    prefixes. *)
Definition units_key (units : list N) : list Value :=
  ((fun u => VNumber (Z.of_N u)) <$> units) ++ [VUndefined].

(** The index declarations that the names of the indexes of [xTweets]
    announce. *)
Definition x_indexes : XTwitter.Indexes :=
  XTwitter.mkIndexes
    (fun d => [VBoolean (XTwitter.Tweet.showOnLanding (XTwitter.Tweet.values d))])
    (fun d => [match XTwitter.Tweet.postedAt (XTwitter.Tweet.values d) with
               | Some at_ms => VNumber at_ms
               | None => VUndefined
               end])
    (fun d => units_key (XTwitter.Tweet.tweetId (XTwitter.Tweet.values d))).

(** The body of the answer to a post that the X API accepted. *)
Definition posted_body : string :=
  "{" +:+ dquote +:+ "data" +:+ dquote +:+ ":{" +:+ dquote +:+ "id" +:+ dquote
  +:+ ":" +:+ dquote +:+ "1003" +:+ dquote +:+ "}}".

Definition x_env : XTwitter.Env :=
  XTwitter.mkEnv (Some "bearer") (Some "key") (Some "secret") (Some "token")
                 (Some "token-secret").

(** A host with all the credentials, where the X API accepts every
    request; one where it refuses every request; and one with no
    credentials. *)
Definition x_accepting : XTwitter.Host :=
  XTwitter.mkHost (fun n => 1700000000000 + Z.of_nat n) (fun _ => "k3x9") x_env
    (fun _ _ => XTwitter.Responds (XTwitter.mkResponse true posted_body)).

Definition x_refusing : XTwitter.Host :=
  XTwitter.mkHost (fun n => 1700000000000 + Z.of_nat n) (fun _ => "k3x9") x_env
    (fun _ _ => XTwitter.Responds (XTwitter.mkResponse false "Forbidden")).

Definition x_bare : XTwitter.Host :=
  XTwitter.mkHost (fun n => 1700000000000 + Z.of_nat n) (fun _ => "k3x9")
    (XTwitter.mkEnv None None None None None)
    (fun _ _ => XTwitter.Fails TypeError).

Definition x_config : XTwitter.Config.doc :=
  XTwitter.Config.mkDoc 1000
    (XTwitter.Config.mk true (Some "clawsync") true false true 10) 1000.

Definition cached_tweet (tweetId text : string) (at_ms : Z)
  : XTwitter.Tweet.doc :=
  XTwitter.Tweet.mkDoc at_ms
    (XTwitter.Tweet.mk (code_units tweetId) text "clawsync" None None true
       false None None None None true (Some at_ms))
    at_ms.

(** An enabled integration with two cached tweets on the landing
    page. *)
Definition x_seeded : XTwitter.State :=
  XTwitter.mkState
    (<[1%positive := x_config]> ∅)
    (<[1%positive := cached_tweet "1001" "first" 2000]>
       (<[2%positive := cached_tweet "1002" "second" 3000]> ∅))
    ∅ [] 0 0.

(** ** Scenarios of the thread management *)

Definition thread_host : Threads.Host :=
  Threads.mkHost (fun n => 1700000000000 + Z.of_nat n) (fun _ => true).

Definition message_fields (thread text : string) : gmap string JsValue :=
  <["threadId" := js_string thread]>
    (<["role" := js_string "user"]> (<["content" := js_string text]> ∅)).

Definition orphan_message : Threads.Document :=
  Threads.mkDocument "agent_messages" 130 (message_fields "t2" "orphan").

(** A thread with two messages, and a message of a thread that is not
    stored. *)
Definition thread_store : Threads.Store :=
  <["t1" := Threads.mkDocument "agent_threads" 100
              (<["metadata" := JObject []]>
                 (<["status" := js_string "active"]> ∅))]>
    (<["m1" := Threads.mkDocument "agent_messages" 110
                 (message_fields "t1" "hi")]>
       (<["m2" := Threads.mkDocument "agent_messages" 120
                    (message_fields "t1" "there")]>
          (<["m3" := orphan_message]> ∅))).

(** * Properties of the dispatch path *)

(** [JSON.parse] on the configs of the scenarios. *)
Example parse_ping_config :
  JSON.parse (config_of_url "https://example.com/hook")
  = Some (JObject [(url_key, js_string "https://example.com/hook")]).
Proof. reflexivity. Qed.

Example parse_broken_config : JSON.parse "{not json" = None.
Proof. reflexivity. Qed.

Example parse_nested :
  JSON.parse " [1.5e3, -0, true, null, {} ] "
  = Some (JArray [JNumber (mkNumber false 15 2); JNumber (mkNumber true 0 0);
                  JBool true; JNull; JObject []]).
Proof. reflexivity. Qed.

Example parse_leading_zero : JSON.parse "01" = None.
Proof. reflexivity. Qed.

Example parse_trailing_comma : JSON.parse "[1,]" = None.
Proof. reflexivity. Qed.

(** The allow scenario: the checker passes [ping], the hook answers
    [pong]; the result is returned and one entry is written with
    [success = true] and [securityCheckResult = "passed"]. *)
Example ping_allowed :
  let run := execute (createWebhookSkillTool steady ping) "hello" idle in
  run.1 = Normal (ActionResult (js_string "pong"))
  /\ actions run.2
     = [WebhookCaller (config_of_url "https://example.com/hook") "hello" 1]
  /\ (fun r : positive * LogDoc => (success (fields r.2), securityCheckResult (fields r.2)))
       <$> map_to_list (audit run.2)
     = [(true, "passed")].
Proof. vm_compute. done. Qed.

Lemma fresh_id_unused (t : LogTable) : t !! fresh (dom t) = None.
Proof. apply not_elem_of_dom, is_fresh. Qed.

Lemma wrote_one_size w w' e :
  wrote_one w w' e -> size (audit w') = S (size (audit w)).
Proof.
  intros (id & t & Hnone & ->). by apply map_size_insert_None.
Qed.

Lemma snoc_not_self {A} (l : list A) (x : A) : l <> l ++ [x].
Proof.
  intros H. apply (f_equal length) in H. rewrite length_app in H.
  cbn in H. lia.
Qed.

Section Logging.

Variable rt : Runtime.

(** What one call of [logInvocation] does to the state. *)
Lemma logInvocation_run skill inp out ok v start msg w :
  logInvocation rt skill inp out ok v start msg w =
  (Normal (),
   mkWorld
     (<[fresh (dom (audit w)) :=
          mkDoc (clock rt (S (S (ticks w))))
                (mkEntry (name skill) (skillType skill) None None None
                         (truncateForLog rt inp) (logged_output rt out) ok msg
                         (code v) (clock rt (ticks w) - start)
                         (clock rt (S (ticks w))))]> (audit w))
     (actions w) (checks w) (S (S (S (ticks w))))).
Proof. reflexivity. Qed.

(** It always succeeds and writes exactly one entry, with the flag, the
    message and the code it was given. *)
Lemma logInvocation_wrote skill inp out ok v start msg w :
  exists w' e,
    logInvocation rt skill inp out ok v start msg w = (Normal (), w')
    /\ wrote_one w w' e
    /\ success e = ok /\ errorMessage e = msg
    /\ output e = logged_output rt out
    /\ securityCheckResult e = code v
    /\ actions w' = actions w /\ checks w' = checks w.
Proof.
  rewrite logInvocation_run. eexists _, _. split; [reflexivity |].
  split; [eexists _, _; split; [apply fresh_id_unused | reflexivity] |].
  by repeat split.
Qed.

End Logging.

(** Closes the facts of [dispatched] for a run whose last step is one
    [logInvocation]. *)
Ltac logged_tail :=
  split; [reflexivity |];
  split; [reflexivity |];
  split; [eexists _, _; split; [apply fresh_id_unused | reflexivity] |];
  split; [reflexivity |];
  split; [reflexivity |];
  let Hd := fresh "Hd" in
  intros Hd; cbn [verdict] in Hd; first [ congruence | by repeat split ].

Ltac logged_once :=
  rewrite logInvocation_run; eexists _, _, _; logged_tail.

Section Dispatch.

Variable rt : Runtime.

(** A template skill's tool always returns, having asked the checker
    without a context and written one entry whose [success] tells a
    result from an error payload. *)
Lemma execute_template_returns skill inp w :
  exists r w' e,
    execute_template rt skill inp w = (Normal r, w')
    /\ dispatched w w'
         (mkCheck skill inp None (checkSecurity rt (tick w) skill inp None)) r e.
Proof.
  unfold dispatched, execute_template, mbind, M_bind, bind, mret, M_ret, ret,
    try_catch, Date_now, check, runAction, tick.
  cbn beta iota.
  destruct (allowed (checkSecurity rt _ skill inp None)) eqn:Hv; cbn [negb].
  - destruct (actionOutcome rt _ _) as [result | t]; logged_once.
  - logged_once.
Qed.

(** So does a code skill's tool. *)
Lemma execute_code_returns skill query w :
  exists r w' e,
    execute_code rt skill query w = (Normal r, w')
    /\ dispatched w w'
         (mkCheck skill query None (checkSecurity rt (tick w) skill query None)) r e.
Proof.
  unfold dispatched, execute_code, mbind, M_bind, bind, mret, M_ret, ret,
    try_catch, Date_now, check, tick.
  cbn beta iota.
  destruct (allowed (checkSecurity rt _ skill query None)) eqn:Hv; cbn [negb];
    logged_once.
Qed.

(** Reading the domain of a webhook skill changes nothing, and what it
    yields depends on the skill alone. *)
Lemma webhook_domain_reads skill :
  exists c, forall w, webhook_domain rt skill w = (c, w).
Proof.
  unfold webhook_domain, JSON_parse, URL_hostname, mbind, M_bind, bind,
    mret, M_ret, ret, throw.
  destruct (config skill) as [c |]; [destruct (decide (c = EmptyString)) |].
  2: destruct (JSON.parse c) as [parsed |]; [| by eexists].
  2: destruct (config_url parsed) as [[url |] |]; [| by eexists ..].
  2: destruct (js_truthy url); [| by eexists].
  2: destruct (urlHostname rt url); by eexists.
  all: by eexists.
Qed.

(** A webhook skill's tool either throws what reading the domain threw,
    before the checker is asked and before anything is written, or
    returns like the other two. *)
Lemma execute_webhook_cases skill inp w :
  (exists t,
      webhook_domain rt skill (tick w) = (Throw t, tick w)
      /\ execute_webhook rt skill inp w = (Throw t, tick w))
  \/ (exists d r w' e,
         webhook_domain rt skill (tick w) = (Normal d, tick w)
         /\ execute_webhook rt skill inp w = (Normal r, w')
         /\ dispatched w w'
              (mkCheck skill inp (Some (mkContext d))
                 (checkSecurity rt (tick w) skill inp (Some (mkContext d)))) r e).
Proof.
  destruct (webhook_domain_reads skill) as [c Hc].
  unfold execute_webhook, mbind, M_bind, bind, Date_now.
  fold (tick w). rewrite Hc.
  destruct c as [d | t]; [right | left; by eexists].
  exists d.
  unfold dispatched, mret, M_ret, ret, try_catch, check, runAction, tick.
  cbn beta iota.
  destruct (allowed (checkSecurity rt _ skill inp _)) eqn:Hv; cbn [negb].
  - destruct (actionOutcome rt _ _) as [result | t];
      rewrite logInvocation_run; eexists _, _, _;
      (split; [reflexivity |]); logged_tail.
  - rewrite logInvocation_run; eexists _, _, _;
      (split; [reflexivity |]); logged_tail.
Qed.

(** What [createToolFromSkill] built, by skill type. *)
Lemma createToolFromSkill_cases skill tool :
  createToolFromSkill rt skill = Some tool ->
  (skillType skill = "template" /\ tool = createTemplateSkillTool rt skill)
  \/ (skillType skill = "webhook" /\ tool = createWebhookSkillTool rt skill)
  \/ (skillType skill = "code" /\ tool = createCodeSkillTool rt skill).
Proof.
  unfold createToolFromSkill. intros H.
  repeat case_decide; simplify_eq; auto.
Qed.

(** C4. In every invocation of a loaded tool in which the security
    checker returns a verdict with [allowed = false]: no action is run,
    the value returned is the error payload carrying the verdict's
    reason, and the one entry written has [success = false], no
    [output], and the verdict's code as [securityCheckResult]. *)
Theorem denied_invocation skill tool inp w r w' c :
  createToolFromSkill rt skill = Some tool ->
  execute tool inp w = (r, w') ->
  checks w' = checks w ++ [c] ->
  allowed (verdict c) = false ->
  r = Normal (ErrorObject (reason (verdict c)))
  /\ actions w' = actions w
  /\ exists e,
       wrote_one w w' e
       /\ success e = false
       /\ output e = None
       /\ securityCheckResult e = code (verdict c).
Proof.
  intros Htool Hrun Hchecks Hdeny.
  assert (Hcase :
    (checks w' = checks w)
    \/ exists c0 r0 e, r = Normal r0 /\ dispatched w w' c0 r0 e).
  { destruct (createToolFromSkill_cases _ _ Htool) as [[_ ->] | [[_ ->] | [_ ->]]];
      cbn [execute createTemplateSkillTool createWebhookSkillTool
           createCodeSkillTool] in Hrun.
    - destruct (execute_template_returns skill inp w) as (r0 & w0 & e & Hex & Hd).
      rewrite Hex in Hrun. simplify_eq. right. eauto.
    - destruct (execute_webhook_cases skill inp w)
        as [(t & _ & Hex) | (d & r0 & w0 & e & _ & Hex & Hd)];
        rewrite Hex in Hrun; simplify_eq; [by left | right; eauto].
    - destruct (execute_code_returns skill inp w) as (r0 & w0 & e & Hex & Hd).
      rewrite Hex in Hrun. simplify_eq. right. eauto. }
  destruct Hcase as [Hsame | (c0 & r0 & e & -> & Hc0 & Hone & _ & Hcode & Hden)].
  { rewrite Hsame in Hchecks. by apply snoc_not_self in Hchecks. }
  rewrite Hc0 in Hchecks. apply app_inv_head in Hchecks. simplify_eq.
  destruct (Hden Hdeny) as (-> & Hact & Hsucc & Hout).
  split; [done |]. split; [done |]. by exists e.
Qed.

(** A stored config that is not JSON makes reading the domain throw. *)
Lemma webhook_domain_malformed skill c w :
  config skill = Some c -> c <> EmptyString -> JSON.parse c = None ->
  webhook_domain rt skill w = (Throw SyntaxError, w).
Proof.
  intros Hc Hne Hparse. unfold webhook_domain, JSON_parse, mbind, M_bind, bind.
  rewrite Hc. case_decide; [done |]. by rewrite Hparse.
Qed.

(** So does a config whose [url] the URL constructor refuses. *)
Lemma webhook_domain_invalid_url skill c parsed url w :
  config skill = Some c -> c <> EmptyString -> JSON.parse c = Some parsed ->
  config_url parsed = Some (Some url) -> js_truthy url = true ->
  urlHostname rt url = None ->
  webhook_domain rt skill w = (Throw TypeError, w).
Proof.
  intros Hc Hne Hparse Hurl Htruthy Hhost.
  unfold webhook_domain, JSON_parse, URL_hostname, mbind, M_bind, bind,
    mret, M_ret, ret, throw.
  rewrite Hc. case_decide; [done |].
  by rewrite Hparse, Hurl, Htruthy, Hhost.
Qed.

(** And a config that is the JSON text [null]. *)
Lemma webhook_domain_null skill c w :
  config skill = Some c -> c <> EmptyString -> JSON.parse c = Some JNull ->
  webhook_domain rt skill w = (Throw TypeError, w).
Proof.
  intros Hc Hne Hparse.
  unfold webhook_domain, JSON_parse, mbind, M_bind, bind, mret, M_ret, ret, throw.
  rewrite Hc. case_decide; [done |]. by rewrite Hparse.
Qed.

(** When reading the domain throws, the invocation throws the same, with
    only the clock read. *)
Lemma execute_webhook_throws skill inp w t :
  webhook_domain rt skill (tick w) = (Throw t, tick w) ->
  execute_webhook rt skill inp w = (Throw t, tick w).
Proof.
  intros Hd.
  destruct (execute_webhook_cases skill inp w)
    as [(t' & Hd' & Hex) | (d & r0 & w0 & e & Hd' & _)];
    rewrite Hd in Hd'; by simplify_eq.
Qed.

(** X1. Every invocation of a loaded tool: either it returns, and then it has
    written exactly one entry whose [success] tells a result from an
    error object; or it throws, and then the tool is a webhook tool whose
    domain could not be read, and nothing was written. *)
Lemma invocation_outcome skill tool inp w :
  createToolFromSkill rt skill = Some tool ->
  (exists r w' e,
      execute tool inp w = (Normal r, w')
      /\ wrote_one w w' e
      /\ success e = negb (is_error_payload r))
  \/ (exists t,
         skillType skill = "webhook"
         /\ webhook_domain rt skill (tick w) = (Throw t, tick w)
         /\ execute tool inp w = (Throw t, tick w)).
Proof.
  intros Htool.
  destruct (createToolFromSkill_cases _ _ Htool) as [[_ ->] | [[Hty ->] | [_ ->]]];
    cbn [execute createTemplateSkillTool createWebhookSkillTool
         createCodeSkillTool].
  - destruct (execute_template_returns skill inp w)
      as (r & w' & e & Hex & _ & Hone & Hflag & _).
    left. by exists r, w', e.
  - destruct (execute_webhook_cases skill inp w)
      as [(t & Hd & Hex) | (d & r & w' & e & _ & Hex & _ & Hone & Hflag & _)].
    + right. by exists t.
    + left. by exists r, w', e.
  - destruct (execute_code_returns skill inp w)
      as (r & w' & e & Hex & _ & Hone & Hflag & _).
    left. by exists r, w', e.
Qed.

(** The invocation of the webhook skill whose config is not JSON. *)
Lemma broken_hook_run inp w :
  execute_webhook rt broken_hook inp w = (Throw SyntaxError, tick w).
Proof.
  apply execute_webhook_throws.
  by apply (webhook_domain_malformed _ "{not json").
Qed.

(** C1. A webhook skill whose stored config is not JSON: the invocation
    throws the [SyntaxError] of [JSON.parse], the checker is not asked,
    and no audit entry is written. *)
Theorem broken_hook_writes_no_entry inp w :
  exists w',
    execute_webhook rt broken_hook inp w = (Throw SyntaxError, w')
    /\ audit w' = audit w
    /\ checks w' = checks w.
Proof. exists (tick w). split; [apply broken_hook_run | done]. Qed.

(** C2. The tool the loader builds for that skill does not resolve to a
    value: its [execute] propagates the exception to the caller. *)
Theorem broken_hook_propagates inp w :
  exists tool,
    createToolFromSkill rt broken_hook = Some tool
    /\ (execute tool inp w).1 = Throw SyntaxError.
Proof.
  eexists. split; [reflexivity |].
  cbn [execute createWebhookSkillTool]. by rewrite broken_hook_run.
Qed.

(** C3. A registry holding that skill and a sound one: both tools are
    built, so the bad config does not keep the other skill out of the
    tool set; but invoking the bad skill's tool is not caught at the
    dispatch boundary: it throws, and nothing is logged. *)
Theorem broken_hook_loaded_but_uncaught inp w :
  loadTools rt (getActiveApproved [broken_hook; summarize]) !! "summarize"
    = Some (createTemplateSkillTool rt summarize)
  /\ exists tool w',
       loadTools rt (getActiveApproved [broken_hook; summarize]) !! "notify"
       = Some tool
       /\ execute tool inp w = (Throw SyntaxError, w')
       /\ audit w' = audit w.
Proof.
  split; [reflexivity |].
  exists (createWebhookSkillTool rt broken_hook), (tick w).
  split; [reflexivity |]. split; [apply broken_hook_run | done].
Qed.

End Dispatch.

(** The denial scenario: the checker refuses [ping] because of its host. *)
Lemma denied_invocation_witness :
  (execute (createWebhookSkillTool refusing ping) "hello" idle).1
    = Normal (ErrorObject (Some "host not permitted"))
  /\ actions (execute (createWebhookSkillTool refusing ping) "hello" idle).2 = []
  /\ exists e,
       wrote_one idle (execute (createWebhookSkillTool refusing ping) "hello" idle).2 e
       /\ success e = false
       /\ output e = None
       /\ securityCheckResult e = "domain_not_allowlisted".
Proof.
  apply (denied_invocation refusing ping (createWebhookSkillTool refusing ping)
           "hello" idle _ _
           (mkCheck ping "hello" (Some (mkContext (Some "example.com")))
              (mkVerdict false "domain_not_allowlisted" (Some "host not permitted")))).
  - reflexivity.
  - apply surjective_pairing.
  - vm_compute. reflexivity.
  - reflexivity.
Defined.

(** * Properties of the loader *)

Section Loading.

Variable rt : Runtime.

(** The tool set after one assignment. *)
Lemma lookup_assign tools key toolFn n :
  assign tools key toolFn !! n
  = if decide (key = "__proto__") then tools !! n
    else if decide (key = n) then Some toolFn
    else tools !! n.
Proof.
  unfold assign, lookup, ToolSet_lookup.
  destruct (decide (key = "__proto__")); cbn [own]; [done |].
  destruct (decide (key = n)) as [-> | Hne].
  - apply lookup_insert_eq.
  - by apply lookup_insert_ne.
Qed.

Lemma prototype_assign tools key toolFn :
  prototype (assign tools key toolFn)
  = if decide (key = "__proto__") then Some toolFn else prototype tools.
Proof. unfold assign. by destruct (decide (key = "__proto__")). Qed.

Lemma lookup_empty_tools n : mkToolSet ∅ None !! n = None.
Proof. apply lookup_empty. Qed.


(** Every tool of the map comes from the starting map or from one of the
    skills the loop went through. *)
Lemma foldl_register_source skills : forall tools n tool,
  foldl (register rt) tools skills !! n = Some tool ->
  tools !! n = Some tool
  \/ exists skill, skill ∈ skills /\ name skill = n
                   /\ createToolFromSkill rt skill = Some tool.
Proof.
  induction skills as [| s skills IH]; intros tools n tool H; cbn in H.
  { by left. }
  apply IH in H as [H | (skill & Hin & Hn & Hc)].
  - unfold register in H. destruct (createToolFromSkill rt s) as [t |] eqn:Hs.
    + rewrite lookup_assign in H.
      destruct (decide (name s = "__proto__")); [by left |].
      destruct (decide (name s = n)) as [<- | Hne]; [| by left].
      simplify_eq. right. exists s. split; [left |]. done.
    + by left.
  - right. exists skill. split; [by right | done].
Qed.


(** C9. Every tool of the set [loadTools] produces is built from a skill
    of the registry that is approved and active, and sits under that
    skill's name; so a skill with [approved = false] or [active = false]
    contributes no tool. *)
Theorem loadTools_only_eligible registry n tool :
  loadTools rt (getActiveApproved registry) !! n = Some tool ->
  exists skill,
    skill ∈ registry
    /\ approved skill = true /\ active skill = true
    /\ name skill = n
    /\ createToolFromSkill rt skill = Some tool.
Proof.
  unfold loadTools. intros H.
  apply foldl_register_source in H as [H | (skill & Hin & Hn & Hc)].
  { by rewrite lookup_empty_tools in H. }
  unfold getActiveApproved in Hin.
  apply list_elem_of_filter in Hin as [Hflags Hin].
  apply andb_true_iff in Hflags as [Ha Hb].
  exists skill. done.
Qed.


End Loading.

(** A deactivated skill next to an active one: only the active one is
    behind a tool. *)
Lemma loadTools_only_eligible_witness :
  exists skill,
    skill ∈ [retired; summarize]
    /\ approved skill = true /\ active skill = true
    /\ name skill = "summarize"
    /\ createToolFromSkill refusing skill
       = Some (createTemplateSkillTool refusing summarize).
Proof.
  apply (loadTools_only_eligible refusing [retired; summarize] "summarize").
  reflexivity.
Defined.



(** * Properties of the invocation log *)

(** ** The order of an index *)

Lemma N_total : total_compare N.compare.
Proof.
  split.
  - apply N.compare_eq_iff.
  - intros x y. apply N.compare_antisym.
  - intros x y z [] H1 H2.
    + apply N.compare_eq_iff in H1, H2. subst. apply N.compare_refl.
    + rewrite N.compare_lt_iff in *. lia.
    + rewrite N.compare_gt_iff in *. lia.
Qed.

Lemma Z_total : total_compare Z.compare.
Proof.
  split.
  - apply Z.compare_eq_iff.
  - intros x y. apply Z.compare_antisym.
  - intros x y z [] H1 H2.
    + apply Z.compare_eq_iff in H1, H2. subst. apply Z.compare_refl.
    + rewrite Z.compare_lt_iff in *. lia.
    + rewrite Z.compare_gt_iff in *. lia.
Qed.

Lemma bool_total : total_compare Bool.compare.
Proof.
  split.
  - intros [] []; cbn; split; congruence.
  - by intros [] [].
  - intros [] [] [] []; cbn; congruence.
Qed.

Lemma list_total {A} (cmp : A -> A -> comparison) :
  total_compare cmp -> total_compare (list_compare cmp).
Proof.
  intros [Heq Hopp Htrans]. split.
  - by apply list_compare_refl.
  - intros x y. by apply list_compare_antisym.
  - intros x y z c. by apply list_compare_trans.
Qed.

Lemma code_units_inj s1 s2 : code_units s1 = code_units s2 -> s1 = s2.
Proof.
  unfold code_units. intros H.
  rewrite <- (string_of_list_ascii_of_string s1),
          <- (string_of_list_ascii_of_string s2).
  f_equal. revert H.
  generalize (list_ascii_of_string s1) (list_ascii_of_string s2).
  induction l as [| a l IH]; intros [| b l'] H; cbn in H; try done.
  injection H as Hab Hl. f_equal; [| by apply IH].
  by rewrite <- (ascii_N_embedding a), <- (ascii_N_embedding b), Hab.
Qed.

Lemma string_total : total_compare string_compare.
Proof.
  destruct (list_total N.compare N_total) as [Heq Hopp Htrans].
  unfold string_compare. split.
  - intros x y. rewrite Heq. split; [apply code_units_inj | by intros ->].
  - intros x y. apply Hopp.
  - intros x y z c. apply Htrans.
Qed.

Lemma value_total : total_compare value_compare.
Proof.
  destruct Z_total as [Zeq Zopp Ztrans].
  destruct bool_total as [Beq Bopp Btrans].
  destruct string_total as [Seq Sopp Strans].
  split.
  - intros [| a | a | a] [| b | b | b]; cbn; try (split; congruence).
    + rewrite Zeq. split; congruence.
    + rewrite Beq. split; congruence.
    + rewrite Seq. split; congruence.
  - intros [| a | a | a] [| b | b | b]; cbn; auto.
  - intros [| a | a | a] [| b | b | b] [| d | d | d] c; cbn;
      try congruence; eauto.
Qed.

Section IndexOrder.

Variable ix : list Field.

(** [row_compare] is the lexicographic order of the index key followed
    by the [_id]. *)
Lemma row_compare_opp r1 r2 :
  row_compare ix r2 r1 = CompOpp (row_compare ix r1 r2).
Proof.
  unfold row_compare.
  rewrite (cmp_opp _ (list_total _ value_total) (index_key ix r1)).
  destruct (list_compare _ _ _); cbn; [| done ..].
  apply Pos.compare_antisym.
Qed.

Lemma row_compare_eq r1 r2 :
  row_compare ix r1 r2 = Eq ->
  index_key ix r1 = index_key ix r2 /\ r1.1 = r2.1.
Proof.
  pose proof (list_total _ value_total) as [Keq _ _].
  unfold row_compare.
  destruct (list_compare _ _ _) eqn:E; try done.
  intros H. split; [by apply Keq | by apply Pos.compare_eq_iff].
Qed.

Lemma row_compare_eq_l r1 r2 r3 :
  row_compare ix r1 r2 = Eq -> row_compare ix r1 r3 = row_compare ix r2 r3.
Proof.
  intros [Hk Hi]%row_compare_eq. unfold row_compare. by rewrite Hk, Hi.
Qed.

Lemma row_compare_eq_r r1 r2 r3 :
  row_compare ix r2 r3 = Eq -> row_compare ix r1 r2 = row_compare ix r1 r3.
Proof.
  intros [Hk Hi]%row_compare_eq. unfold row_compare. by rewrite Hk, Hi.
Qed.

Lemma row_compare_lt_trans r1 r2 r3 :
  row_compare ix r1 r2 = Lt -> row_compare ix r2 r3 = Lt ->
  row_compare ix r1 r3 = Lt.
Proof.
  pose proof (list_total _ value_total) as [Keq Kopp Ktrans].
  unfold row_compare.
  destruct (list_compare _ (index_key ix r1) (index_key ix r2)) eqn:H12;
    destruct (list_compare _ (index_key ix r2) (index_key ix r3)) eqn:H23;
    intros H1 H2; try congruence.
  - apply Keq in H12, H23. rewrite H12, H23.
    rewrite (proj2 (Keq _ _) eq_refl).
    rewrite Pos.compare_lt_iff in *. lia.
  - apply Keq in H12. by rewrite H12, H23.
  - apply Keq in H23. by rewrite <- H23, H12.
  - by rewrite (Ktrans _ _ _ _ H12 H23).
Qed.

#[global] Instance row_le_total : Total (row_le ix).
Proof.
  intros r1 r2. unfold row_le. rewrite (row_compare_opp r1 r2).
  destruct (row_compare ix r1 r2); cbn; [left | left | right]; congruence.
Qed.

#[global] Instance row_le_trans : Transitive (row_le ix).
Proof.
  intros r1 r2 r3. unfold row_le. intros H12 H23.
  destruct (row_compare ix r1 r2) eqn:E12; [| | done].
  - by rewrite (row_compare_eq_l _ _ r3 E12).
  - destruct (row_compare ix r2 r3) eqn:E23; [| | done].
    + rewrite <- (row_compare_eq_r r1 _ _ E23). congruence.
    + rewrite (row_compare_lt_trans _ _ _ E12 E23). congruence.
Qed.

End IndexOrder.

(** Rows in index order whose keys start with the timestamp are in
    timestamp order. *)
Lemma row_le_timestamp rest (a b : Row) :
  row_le (F_timestamp :: rest) a b ->
  timestamp (fields a.2) <= timestamp (fields b.2).
Proof.
  unfold row_le, row_compare, index_key.
  cbn [map app list_compare value_compare field_value].
  destruct (Z.compare_spec (timestamp (fields a.2)) (timestamp (fields b.2)));
    [lia | lia | done].
Qed.

(** So are rows of one skill under an index on the skill name and then
    the timestamp. *)
Lemma row_le_skill_timestamp rest (a b : Row) :
  skillName (fields a.2) = skillName (fields b.2) ->
  row_le (F_skillName :: F_timestamp :: rest) a b ->
  timestamp (fields a.2) <= timestamp (fields b.2).
Proof.
  intros Hname.
  unfold row_le, row_compare, index_key.
  cbn [map app list_compare value_compare field_value].
  rewrite Hname, (proj2 (cmp_eq _ string_total _ _) eq_refl).
  destruct (Z.compare_spec (timestamp (fields a.2)) (timestamp (fields b.2)));
    [lia | lia | done].
Qed.

(** ** Sorted lists *)

Lemma StronglySorted_sublist {A} (R : relation A) (l1 l2 : list A) :
  l1 `sublist_of` l2 -> StronglySorted R l2 -> StronglySorted R l1.
Proof.
  induction 1 as [| x l1 l2 Hsub IH | x l1 l2 Hsub IH]; intros Hs.
  - constructor.
  - apply StronglySorted_inv in Hs as [Hs Hall]. constructor; [by apply IH |].
    rewrite Forall_forall in *. intros y Hy. apply Hall.
    by eapply elem_of_sublist.
  - apply StronglySorted_inv in Hs as [Hs _]. by apply IH.
Qed.

Lemma StronglySorted_reverse {A} (R : relation A) `{!Transitive R} (l : list A) :
  StronglySorted R l -> StronglySorted (flip R) (reverse l).
Proof.
  intros Hs. apply Sorted_StronglySorted.
  { intros x y z Hxy Hyz. unfold flip in *. by etrans. }
  apply Sorted_reverse. by apply StronglySorted_Sorted.
Qed.

Lemma StronglySorted_weaken {A} (R1 R2 : relation A) (l : list A) :
  (forall x y, x ∈ l -> y ∈ l -> R1 x y -> R2 x y) ->
  StronglySorted R1 l -> StronglySorted R2 l.
Proof.
  intros Himp Hs. induction Hs as [| x l Hs IH Hall].
  - constructor.
  - constructor.
    + apply IH. intros a b Ha Hb. apply Himp; by right.
    + rewrite Forall_forall in *. intros y Hy. apply Himp.
      * left.
      * by right.
      * by apply Hall.
Qed.

(** ** The reads *)

Section Queries.

Variable ix : list Field.
Variable t : LogTable.

Lemma withIndex_sorted : StronglySorted (row_le ix) (withIndex ix t).
Proof. apply StronglySorted_merge_sort; apply _. Qed.

Lemma withIndex_Permutation : withIndex ix t ≡ₚ map_to_list t.
Proof. apply merge_sort_Permutation. Qed.

Lemma elem_of_withIndex id d :
  (id, d) ∈ withIndex ix t <-> t !! id = Some d.
Proof. rewrite withIndex_Permutation. apply elem_of_map_to_list. Qed.

Lemma NoDup_withIndex : NoDup (withIndex ix t).*1.
Proof. rewrite withIndex_Permutation. apply NoDup_fst_map_to_list. Qed.

Lemma take_rows_Normal n rows result :
  take_rows n rows = Normal result ->
  0 <= n /\ result = take (Z.to_nat n) rows.
Proof.
  unfold take_rows. destruct (Z.ltb_spec n 0); [done |].
  intros [= <-]. done.
Qed.

Lemma take_rows_length n rows result :
  take_rows n rows = Normal result -> Z.of_nat (length result) <= n.
Proof.
  intros [Hn ->]%take_rows_Normal. rewrite length_take. lia.
Qed.

End Queries.

Section Reads.

Variable schema : Schema.
Variable t : LogTable.

(** Each read returns at most the requested number of rows, or at most
    50 when no limit is given. *)
Lemma listRecent_bounded limit rows :
  listRecent schema limit t = Normal rows ->
  Z.of_nat (length rows) <= limit_or_50 limit.
Proof. apply take_rows_length. Qed.

Lemma listBySkill_bounded skill limit rows :
  listBySkill schema skill limit t = Normal rows ->
  Z.of_nat (length rows) <= limit_or_50 limit.
Proof.
  unfold listBySkill. destruct (withIndex_eq _ _ _ _); [| done].
  apply take_rows_length.
Qed.

Lemma listSecurityFailures_bounded limit rows :
  listSecurityFailures schema limit t = Normal rows ->
  Z.of_nat (length rows) <= limit_or_50 limit.
Proof. apply take_rows_length. Qed.

(** [listRecent] is newest first when [by_timestamp] is declared on the
    timestamp. *)
Lemma listRecent_newest_first rest limit rows :
  by_timestamp schema = F_timestamp :: rest ->
  listRecent schema limit t = Normal rows ->
  newest_first rows.
Proof.
  unfold listRecent, order_desc. intros Hix [_ ->]%take_rows_Normal.
  rewrite Hix. unfold newest_first.
  eapply StronglySorted_sublist; [apply sublist_take |].
  apply (StronglySorted_weaken (flip (row_le (F_timestamp :: rest))));
    [| apply StronglySorted_reverse; [apply _ | apply withIndex_sorted]].
  intros a b _ _. unfold flip. apply row_le_timestamp.
Qed.

(** [listBySkill] is newest first when [by_skill] is declared on the
    skill name and then the timestamp. *)
Lemma listBySkill_newest_first rest skill limit rows :
  by_skill schema = F_skillName :: F_timestamp :: rest ->
  listBySkill schema skill limit t = Normal rows ->
  newest_first rows.
Proof.
  unfold listBySkill, withIndex_eq, order_desc. intros Hix. rewrite Hix.
  case_decide; [| done]. intros [_ ->]%take_rows_Normal.
  unfold newest_first.
  eapply StronglySorted_sublist; [apply sublist_take |].
  apply (StronglySorted_weaken
           (flip (row_le (F_skillName :: F_timestamp :: rest))));
    [| apply StronglySorted_reverse; [apply _ |]].
  2: { eapply StronglySorted_sublist; [apply sublist_filter | apply withIndex_sorted]. }
  intros a b Ha Hb. unfold flip.
  apply elem_of_reverse, list_elem_of_filter in Ha as [Ha _].
  apply elem_of_reverse, list_elem_of_filter in Hb as [Hb _].
  cbn in Ha, Hb. apply row_le_skill_timestamp. congruence.
Qed.

(** [listSecurityFailures] returns stored rows that did not pass, in the
    descending order of the index [by_security_result]. *)
Lemma listSecurityFailures_rows limit rows :
  listSecurityFailures schema limit t = Normal rows ->
  (forall r, r ∈ rows ->
     t !! r.1 = Some r.2 /\ securityCheckResult (fields r.2) <> passed)
  /\ StronglySorted (flip (row_le (by_security_result schema))) rows.
Proof.
  unfold listSecurityFailures, order_desc. intros [_ ->]%take_rows_Normal.
  split.
  - intros [id d] Hr.
    eapply elem_of_sublist in Hr; [| apply sublist_take].
    apply elem_of_reverse, list_elem_of_filter in Hr as [Hp Hr].
    by apply elem_of_withIndex in Hr.
  - eapply StronglySorted_sublist; [apply sublist_take |].
    apply StronglySorted_reverse; [apply _ |].
    eapply StronglySorted_sublist; [apply sublist_filter | apply withIndex_sorted].
Qed.

End Reads.

(** C5. The security-failures read, over the two refusals and without a
    limit, whatever fields follow [securityCheckResult] in the index
    [by_security_result]: it returns the older refusal before the newer
    one, since [desc] on that index orders by result code first; the
    result is not newest first. *)
Theorem listSecurityFailures_not_newest_first skill_ix time_ix rest :
  listSecurityFailures
    (mkSchema skill_ix time_ix (F_securityCheckResult :: rest))
    None two_refusals
  = Normal [(1%positive, older_refusal); (2%positive, newer_refusal)]
  /\ ~ newest_first [(1%positive, older_refusal); (2%positive, newer_refusal)].
Proof.
  split.
  - vm_compute. reflexivity.
  - intros H. apply StronglySorted_inv in H as [_ H].
    apply Forall_cons in H as [H _]. cbn in H. lia.
Qed.

(** C6. The same read with a page of one row: the row returned is the
    older refusal, and the newest stored entry that did not pass, the
    only one a page of the newest could hold, is not returned. *)
Theorem listSecurityFailures_misses_newest skill_ix time_ix rest :
  listSecurityFailures
    (mkSchema skill_ix time_ix (F_securityCheckResult :: rest))
    (Some 1) two_refusals
  = Normal [(1%positive, older_refusal)]
  /\ two_refusals !! 2%positive = Some newer_refusal
  /\ securityCheckResult (fields newer_refusal) <> passed
  /\ timestamp (fields older_refusal) < timestamp (fields newer_refusal).
Proof.
  split; [vm_compute; reflexivity |].
  split; [reflexivity |]. split; [discriminate | reflexivity].
Qed.

(** ** The retention sweep *)

Section Retention.

Variable schema : Schema.
Variable rt : Runtime.

(** Deleting rows the table holds, each once, succeeds and removes
    exactly those. *)
Lemma delete_each_run (rows : list Row) : forall w,
  NoDup rows.*1 ->
  (forall r, r ∈ rows -> is_Some (audit w !! r.1)) ->
  exists w',
    delete_each rows w = (Normal (), w')
    /\ (forall id, audit w' !! id
                   = if decide (id ∈ rows.*1) then None else audit w !! id)
    /\ size (audit w) = (size (audit w') + length rows)%nat
    /\ ticks w' = ticks w.
Proof.
  induction rows as [| r rows IH]; intros w Hnd Hin.
  { exists w. cbn. split; [done |]. split; [| split; [lia | done]].
    intros id. case_decide as H; [by apply elem_of_nil in H | done]. }
  cbn [delete_each]. unfold mbind, M_bind, bind, db_delete.
  destruct (Hin r) as [d Hd]; [left |]. rewrite Hd.
  rewrite fmap_cons in Hnd. apply NoDup_cons in Hnd as [Hfresh Hnd].
  destruct (IH (mkWorld (delete r.1 (audit w)) (actions w) (checks w) (ticks w)) Hnd)
    as (w' & Hrun & Hlook & Hsize & Hticks).
  { intros r' Hr'. cbn. rewrite lookup_delete_ne.
    - apply Hin. by right.
    - intros Heq. apply Hfresh. rewrite Heq. by apply list_elem_of_fmap_2. }
  exists w'. split; [done |]. cbn in Hlook, Hsize, Hticks.
  split; [| split; [| done]].
  - intros id. rewrite Hlook, fmap_cons.
    destruct (decide (id = r.1)) as [-> | Hne].
    + rewrite lookup_delete_eq.
      destruct (decide (r.1 ∈ r.1 :: rows.*1)) as [_ | Hn];
        [by case_decide | exfalso; apply Hn; left].
    + rewrite lookup_delete_ne by done.
      destruct (decide (id ∈ rows.*1)) as [Hi | Hi];
        destruct (decide (id ∈ r.1 :: rows.*1)) as [Hc | Hc]; try done.
      * exfalso. apply Hc. by right.
      * exfalso. apply elem_of_cons in Hc as [Hc | Hc]; done.
  - rewrite map_size_delete_Some in Hsize by eauto.
    assert (size (audit w) <> 0%nat).
    { intros H0. apply map_size_empty_iff in H0. rewrite H0 in Hd.
      by rewrite lookup_empty in Hd. }
    cbn [length]. lia.
Qed.

Lemma oldLogs_swept now t : oldLogs schema now t = Normal (swept schema now t).
Proof. reflexivity. Qed.

Lemma swept_stored now t r :
  r ∈ swept schema now t ->
  t !! r.1 = Some r.2 /\ timestamp (fields r.2) < now - retention_ms.
Proof.
  unfold swept. intros Hr. destruct r as [id d].
  eapply elem_of_sublist in Hr; [| apply sublist_take].
  apply list_elem_of_filter in Hr as [Hold Hr].
  by apply elem_of_withIndex in Hr.
Qed.

Lemma swept_NoDup now t : NoDup (swept schema now t).*1.
Proof.
  eapply sublist_NoDup; [apply (NoDup_withIndex (by_timestamp schema) t) |].
  apply fmap_sublist. unfold swept.
  etrans; [apply sublist_take | apply sublist_filter].
Qed.

(** One run of [cleanup]: it returns the number of rows of [swept], and
    the table afterwards is the table before without them. *)
Lemma cleanup_run w :
  let now := clock rt (ticks w) in
  exists w',
    cleanup schema rt w = (Normal (length (swept schema now (audit w))), w')
    /\ (forall id, audit w' !! id
                   = if decide (id ∈ (swept schema now (audit w)).*1) then None
                     else audit w !! id)
    /\ size (audit w) = (size (audit w') + length (swept schema now (audit w)))%nat
    /\ ticks w' = S (ticks w).
Proof.
  intros now. unfold cleanup, mbind, M_bind, bind, Date_now, reading.
  cbn [audit]. rewrite oldLogs_swept.
  destruct (delete_each_run (swept schema now (audit w))
              (mkWorld (audit w) (actions w) (checks w) (S (ticks w))))
    as (w' & Hrun & Hlook & Hsize & Hticks).
  { apply swept_NoDup. }
  { intros r Hr. apply swept_stored in Hr as [Hr _]. cbn. eauto. }
  exists w'. fold now. rewrite Hrun. done.
Qed.

(** C7. One run of the retention sweep returns, deletes only entries
    whose timestamp is below the clock reading minus 30 days
    (2 592 000 000 ms), deletes at most 1000 of them, changes no other
    entry and adds none, and returns the number of entries it
    deleted. *)
Theorem cleanup_sweep w :
  let cutoff := clock rt (ticks w) - 2592000000 in
  exists n w',
    cleanup schema rt w = (Normal n, w')
    /\ (n <= 1000)%nat
    /\ (forall id d, audit w !! id = Some d -> audit w' !! id = None ->
                     timestamp (fields d) < cutoff)
    /\ (forall id d, audit w !! id = Some d -> cutoff <= timestamp (fields d) ->
                     audit w' !! id = Some d)
    /\ audit w' ⊆ audit w
    /\ size (audit w) = (size (audit w') + n)%nat.
Proof.
  intros cutoff.
  destruct (cleanup_run w) as (w' & Hrun & Hlook & Hsize & _).
  set (rows := swept schema (clock rt (ticks w)) (audit w)) in *.
  assert (Hrows : forall id, id ∈ rows.*1 ->
            exists d, audit w !! id = Some d /\ timestamp (fields d) < cutoff).
  { intros id ([id' d] & -> & Hr)%list_elem_of_fmap.
    apply swept_stored in Hr as [Hr Hold]. by exists d. }
  exists (length rows), w'. split; [done |].
  split; [| split; [| split; [| split; [| done]]]].
  - unfold rows, swept. rewrite length_take. lia.
  - intros id d Hd Hgone. rewrite Hlook in Hgone.
    case_decide as Hin; [| congruence].
    destruct (Hrows id Hin) as (d' & Hd' & Hold). congruence.
  - intros id d Hd Hnew. rewrite Hlook.
    case_decide as Hin; [| done].
    destruct (Hrows id Hin) as (d' & Hd' & Hold).
    assert (d' = d) by congruence. subst. lia.
  - apply map_subseteq_spec. intros id d. rewrite Hlook.
    by case_decide.
Qed.

(** C8, as amended. When the first of two runs in succession deleted
    fewer than 1000 entries, and no entry that was inside the 30-day
    window at the first run's clock reading is outside it at the
    second's, the second run returns a deleted count of 0. *)
Theorem second_sweep_deletes_nothing w n1 w1 :
  cleanup schema rt w = (Normal n1, w1) ->
  (n1 < 1000)%nat ->
  (forall id d, audit w !! id = Some d ->
     clock rt (ticks w) - 2592000000 <= timestamp (fields d) ->
     clock rt (ticks w1) - 2592000000 <= timestamp (fields d)) ->
  exists w2, cleanup schema rt w1 = (Normal 0%nat, w2).
Proof.
  intros Hrun1 Hcap Hage.
  destruct (cleanup_run w) as (w1' & Hrun1' & Hlook & _ & _).
  rewrite Hrun1 in Hrun1'. injection Hrun1' as -> <-.
  destruct (cleanup_run w1) as (w2 & Hrun2 & _).
  exists w2. rewrite Hrun2. do 2 f_equal.
  destruct (swept schema (clock rt (ticks w1)) (audit w1)) as [| [id d] rest] eqn:Hs;
    [done | exfalso].
  assert (Hr : (id, d) ∈ swept schema (clock rt (ticks w1)) (audit w1))
    by (rewrite Hs; left).
  apply swept_stored in Hr as [Hstored Hold]. cbn in Hstored, Hold.
  rewrite Hlook in Hstored. case_decide as Hin; [done |].
  unfold retention_ms in Hold.
  assert (Hnew : clock rt (ticks w) - 2592000000 <= timestamp (fields d));
    [| specialize (Hage id d Hstored Hnew); lia].
  destruct (Z.le_gt_cases (clock rt (ticks w) - 2592000000) (timestamp (fields d)))
    as [| Hlt]; [done | exfalso].
  apply Hin. apply (list_elem_of_fmap_2 fst _ (id, d)).
  unfold swept in *. rewrite length_take in Hcap.
  rewrite take_ge by lia.
  apply list_elem_of_filter. split; [cbn; unfold retention_ms; lia |].
  by apply elem_of_withIndex.
Qed.

End Retention.

(** A backlog of 1001 expired entries and a clock that reads the same at
    both runs: the first run deletes 1000 entries and the second run,
    with no entry added in between, deletes one more. *)
Lemma second_sweep_counterexample :
  (cleanup declared steady (mkWorld backlog [] [] 0)).1 = Normal 1000%nat
  /\ (cleanup declared steady
        (cleanup declared steady (mkWorld backlog [] [] 0)).2).1
     = Normal 1%nat.
Proof. vm_compute. done. Qed.

(** A log with two expired entries: the first run deletes both, and the
    second run nothing. *)
Lemma second_sweep_deletes_nothing_witness :
  exists w2,
    cleanup declared steady
      (cleanup declared steady (mkWorld small_log [] [] 0)).2
    = (Normal 0%nat, w2).
Proof.
  apply (second_sweep_deletes_nothing declared steady
           (mkWorld small_log [] [] 0) 2%nat).
  - rewrite (surjective_pairing (cleanup _ _ _)). f_equal.
  - lia.
  - intros id d _ H. exact H.
Defined.

(** * Further properties of the dispatch path *)

Section DispatchOutcomes.

Variable rt : Runtime.

(** X2. An allowed call of a template tool whose action is rejected: the
    tool returns the error object with the message of what was thrown,
    the action was called once, and the one entry written has
    [success = false], that message, no output and the checker's code. *)
Theorem rejected_action_is_reported skill inp w t :
  let c := mkCheck skill inp None (checkSecurity rt (tick w) skill inp None) in
  let call := TemplatesExecute (templateId skill) (config_or_empty skill) inp in
  allowed (verdict c) = true ->
  actionOutcome rt (asked w c) call = Rejects t ->
  exists w' e,
    execute_template rt skill inp w
      = (Normal (ErrorObject (Some (message_of rt t))), w')
    /\ actions w' = actions w ++ [call]
    /\ wrote_one w w' e
    /\ success e = false
    /\ errorMessage e = Some (message_of rt t)
    /\ output e = None
    /\ securityCheckResult e = code (verdict c).
Proof.
  intros c call Hallow Hrej.
  unfold execute_template, mbind, M_bind, bind, mret, M_ret, ret,
    try_catch, Date_now, check, runAction.
  cbn beta iota.
  unfold c in Hallow. cbn [verdict] in Hallow. unfold tick in Hallow.
  rewrite Hallow. cbn [negb]. cbn beta iota.
  unfold asked, call, c, tick in Hrej.
  cbn [audit actions checks ticks]. rewrite Hrej.
  rewrite logInvocation_run. eexists _, _. split; [reflexivity |].
  split; [reflexivity |].
  split; [eexists _, _; split; [apply fresh_id_unused | reflexivity] |].
  by repeat split.
Qed.

(** X3. An allowed call of a webhook tool whose domain could be read and
    whose action resolves: the tool returns the action's result as it
    is, the checker was asked once with the domain, the action called
    once, and the one entry written has [success = true], no error
    message, and the truncated result as output when the result is
    truthy, and no output when it is falsy. *)
Theorem resolved_webhook_is_returned skill inp w d result :
  let c := mkCheck skill inp (Some (mkContext d))
             (checkSecurity rt (tick w) skill inp (Some (mkContext d))) in
  let call := WebhookCaller (config_or_empty skill) inp (skill_id skill) in
  webhook_domain rt skill (tick w) = (Normal d, tick w) ->
  allowed (verdict c) = true ->
  actionOutcome rt (asked w c) call = Resolves result ->
  exists w' e,
    execute_webhook rt skill inp w = (Normal (ActionResult result), w')
    /\ checks w' = checks w ++ [c]
    /\ actions w' = actions w ++ [call]
    /\ wrote_one w w' e
    /\ success e = true
    /\ errorMessage e = None
    /\ output e = (if js_truthy result then Some (truncateForLog rt result) else None)
    /\ securityCheckResult e = code (verdict c).
Proof.
  intros c call Hd Hallow Hres.
  unfold execute_webhook, mbind, M_bind, bind, Date_now.
  fold (tick w). rewrite Hd.
  unfold mret, M_ret, ret, try_catch, check, runAction.
  cbn beta iota. unfold tick. cbn [audit actions checks ticks].
  unfold c in Hallow. cbn [verdict] in Hallow. unfold tick in Hallow.
  rewrite Hallow. cbn [negb]. cbn beta iota.
  unfold asked, call, c, tick in Hres.
  cbn [audit actions checks ticks]. rewrite Hres.
  rewrite logInvocation_run. eexists _, _. split; [reflexivity |].
  split; [reflexivity |]. split; [reflexivity |].
  split; [eexists _, _; split; [apply fresh_id_unused | reflexivity] |].
  by repeat split.
Qed.

End DispatchOutcomes.

Section WebhookConfig.

Variable rt : Runtime.

Lemma webhook_domain_throws_iff skill w :
  (exists t, webhook_domain rt skill w = (Throw t, w)) <-> unreadable_config rt skill.
Proof.
  unfold unreadable_config, webhook_domain, JSON_parse, URL_hostname,
    mbind, M_bind, bind, mret, M_ret, ret, throw.
  destruct (config skill) as [c |].
  2: { split; [by intros [t H] | by intros (c & H & _)]. }
  destruct (decide (c = EmptyString)) as [-> | Hne].
  { cbn. split; [by intros [t H] | intros (c & [= <-] & Hc & _); done]. }
  destruct (JSON.parse c) as [parsed |] eqn:Hp.
  2: { split; [| by eexists]. intros _. exists c. auto. }
  assert (Hcases : forall P : Prop,
    (forall url, config_url parsed = Some (Some url) -> js_truthy url = true ->
                 urlHostname rt url = None -> False) ->
    parsed <> JNull ->
    (exists c0 : string,
        Some c = Some c0 /\ c0 <> EmptyString
        /\ (JSON.parse c0 = None \/ JSON.parse c0 = Some JNull
            \/ exists p u, JSON.parse c0 = Some p /\ config_url p = Some (Some u)
                           /\ js_truthy u = true /\ urlHostname rt u = None)) ->
    P).
  { intros P Hurl Hnull (c0 & [= <-] & _ & Hor). rewrite Hp in Hor.
    destruct Hor as [H | [H | (p & u & H1 & H2 & H3 & H4)]].
    - done.
    - by simplify_eq.
    - simplify_eq. by destruct (Hurl u). }
  destruct (config_url parsed) as [[url |] |] eqn:Hu.
  - destruct (js_truthy url) eqn:Ht.
    + destruct (urlHostname rt url) as [h |] eqn:Hh.
      * split; [by intros [t H] |].
        intros Hex. eapply Hcases; [| | exact Hex];
          [intros u [= <-] _ ?; congruence | by intros ->].
      * split; [| by eexists]. intros _. exists c.
        split; [done |]. split; [done |]. right. right. by exists parsed, url.
    + split; [by intros [t H] |].
      intros Hex. eapply Hcases; [| | exact Hex];
        [intros u [= <-] ? _; congruence | by intros ->].
  - split; [by intros [t H] |].
    intros Hex. eapply Hcases; [| | exact Hex];
      [by intros u [=] | by intros ->].
  - split; [| by eexists]. intros _. exists c.
    split; [done |]. split; [done |]. right. left.
    destruct parsed; try done.
Qed.

(** X4. The webhook tool throws exactly on the unreadable configs,
    whatever the input, the state and the checker. *)
Theorem execute_webhook_throws_iff skill inp w :
  (exists t w', execute_webhook rt skill inp w = (Throw t, w'))
  <-> unreadable_config rt skill.
Proof.
  rewrite <- (webhook_domain_throws_iff skill (tick w)).
  destruct (execute_webhook_cases rt skill inp w)
    as [(t & Hd & Hex) | (d & r & w' & e & Hd & Hex & _)].
  - split; [by exists t | by exists t, (tick w)].
  - rewrite Hd, Hex. split; [by intros (t & w0 & H) | by intros (t & H)].
Qed.

(** X5. An allowed call of a code skill's tool runs no action: it
    returns the placeholder text, built from the skill's name and the
    query, as [{ result }], and logs it as the output of a successful
    invocation. *)
Theorem code_skill_placeholder skill query w :
  let c := mkCheck skill query None (checkSecurity rt (tick w) skill query None) in
  let text := "Code skill " +:+ dquote +:+ name skill +:+ dquote
              +:+ " executed with query: " +:+ query in
  allowed (verdict c) = true ->
  exists w' e,
    execute_code rt skill query w = (Normal (ResultObject text), w')
    /\ actions w' = actions w
    /\ wrote_one w w' e
    /\ success e = true
    /\ output e = Some (truncateForLog rt (js_string text)).
Proof.
  intros c text Hallow.
  unfold execute_code, mbind, M_bind, bind, mret, M_ret, ret,
    try_catch, Date_now, check.
  cbn beta iota.
  unfold c in Hallow. cbn [verdict] in Hallow. unfold tick in Hallow.
  rewrite Hallow. cbn [negb]. cbn beta iota.
  rewrite logInvocation_run. eexists _, _. split; [reflexivity |].
  split; [reflexivity |].
  split; [eexists _, _; split; [apply fresh_id_unused | reflexivity] |].
  split; [reflexivity |]. reflexivity.
Qed.

(** The names of the tool set the loop has built. *)
Lemma foldl_register_names skills : forall tools n,
  is_Some (foldl (register rt) tools skills !! n)
  <-> is_Some (tools !! n)
      \/ (n <> "__proto__"
          /\ exists s, s ∈ skills /\ name s = n
                       /\ is_Some (createToolFromSkill rt s)).
Proof.
  induction skills as [| s skills IH]; intros tools n; cbn [foldl].
  { split; [by left | intros [H | (_ & s & Hs & _)];
                        [done | by apply elem_of_nil in Hs]]. }
  rewrite IH. unfold register.
  split.
  - intros [H | (Hn & s' & Hs' & Hname & Hc)].
    + destruct (createToolFromSkill rt s) as [tool |] eqn:Hs; [| by left].
      rewrite lookup_assign in H.
      destruct (decide (name s = "__proto__")) as [Hp | Hp]; [by left |].
      destruct (decide (name s = n)) as [<- | Hne]; [| by left].
      right. split; [done |]. exists s. split; [left |]. by rewrite Hs.
    + right. split; [done |]. exists s'. split; [by right | done].
  - intros [H | (Hn & s' & Hs' & Hname & Hc)].
    + left. destruct (createToolFromSkill rt s) as [tool |]; [| done].
      rewrite lookup_assign. repeat case_decide; eauto.
    + apply elem_of_cons in Hs' as [-> | Hs'].
      * left. destruct Hc as [tool Hc]. rewrite Hc, lookup_assign.
        rewrite decide_False by congruence. rewrite decide_True by done. eauto.
      * right. split; [done |]. by exists s'.
Qed.

(** The prototype of the tool set the loop has built. *)
Lemma foldl_register_prototype skills : forall tools,
  is_Some (prototype (foldl (register rt) tools skills))
  <-> is_Some (prototype tools)
      \/ exists s, s ∈ skills /\ name s = "__proto__"
                   /\ is_Some (createToolFromSkill rt s).
Proof.
  induction skills as [| s skills IH]; intros tools; cbn [foldl].
  { split; [by left | intros [H | (s & Hs & _)];
                        [done | by apply elem_of_nil in Hs]]. }
  rewrite IH. unfold register.
  split.
  - intros [H | (s' & Hs' & Hname & Hc)].
    + destruct (createToolFromSkill rt s) as [tool |] eqn:Hs; [| by left].
      rewrite prototype_assign in H.
      destruct (decide (name s = "__proto__")) as [Hp | Hp]; [| by left].
      right. exists s. split; [left |]. by rewrite Hs.
    + right. exists s'. split; [by right | done].
  - intros [H | (s' & Hs' & Hname & Hc)].
    + left. destruct (createToolFromSkill rt s) as [tool |]; [| done].
      rewrite prototype_assign. case_decide; eauto.
    + apply elem_of_cons in Hs' as [-> | Hs'].
      * left. destruct Hc as [tool Hc]. rewrite Hc, prototype_assign.
        rewrite decide_True by done. eauto.
      * right. by exists s'.
Qed.

Lemma supported_type skill :
  is_Some (createToolFromSkill rt skill)
  <-> skillType skill = "template" \/ skillType skill = "webhook"
      \/ skillType skill = "code".
Proof.
  unfold createToolFromSkill. split.
  - intros [tool H]. repeat case_decide; auto. discriminate.
  - intros Hty. repeat case_decide; eauto.
    destruct Hty as [? | [? | ?]]; done.
Qed.

(** X6. The names of the tool set are the names, other than
    [__proto__], of the skills given to the loader whose type is
    [template], [webhook] or [code]: a skill of another type adds no
    tool, a skill named [__proto__] adds no name, and nothing else adds
    one. The tool set has a tool as its prototype exactly when a skill
    of one of these types is named [__proto__]. *)
Theorem loadTools_names skills n :
  (is_Some (loadTools rt skills !! n)
   <-> n <> "__proto__"
       /\ exists s, s ∈ skills /\ name s = n
                    /\ (skillType s = "template" \/ skillType s = "webhook"
                        \/ skillType s = "code"))
  /\ (is_Some (prototype (loadTools rt skills))
      <-> exists s, s ∈ skills /\ name s = "__proto__"
                   /\ (skillType s = "template" \/ skillType s = "webhook"
                       \/ skillType s = "code")).
Proof.
  unfold loadTools. split.
  - rewrite foldl_register_names, lookup_empty_tools. split.
    + intros [[? H] | (Hn & s & Hs & Hname & Hc)]; [done |].
      split; [done |]. exists s. by rewrite <- supported_type.
    + intros (Hn & s & Hs & Hname & Hty). right. split; [done |].
      exists s. by rewrite supported_type.
  - rewrite foldl_register_prototype. cbn [prototype]. split.
    + intros [[? H] | (s & Hs & Hname & Hc)]; [done |].
      exists s. by rewrite <- supported_type.
    + intros (s & Hs & Hname & Hty). right. exists s. by rewrite supported_type.
Qed.

End WebhookConfig.

(** The rejected template action, the answered webhook and the code
    placeholder, on the skills of the scenarios. *)
Lemma invocation_outcome_witness :
  (exists r w' e,
      execute (createWebhookSkillTool steady ping) "hello" idle = (Normal r, w')
      /\ wrote_one idle w' e
      /\ success e = negb (is_error_payload r))
  \/ (exists t,
         skillType ping = "webhook"
         /\ webhook_domain steady ping (tick idle) = (Throw t, tick idle)
         /\ execute (createWebhookSkillTool steady ping) "hello" idle
            = (Throw t, tick idle)).
Proof. apply (invocation_outcome steady ping). reflexivity. Defined.

Lemma rejected_action_is_reported_witness :
  exists w' e,
    execute_template failing summarize "hello" idle
      = (Normal (ErrorObject (Some "upstream unavailable")), w')
    /\ actions w' = [TemplatesExecute (Some "summary") "{}" "hello"]
    /\ wrote_one idle w' e
    /\ success e = false
    /\ errorMessage e = Some "upstream unavailable"
    /\ output e = None
    /\ securityCheckResult e = "passed".
Proof.
  apply (rejected_action_is_reported failing summarize "hello" idle
           (ErrorWith "upstream unavailable")).
  - reflexivity.
  - reflexivity.
Defined.

Lemma resolved_webhook_is_returned_witness :
  exists w' e,
    execute_webhook steady ping "hello" idle
      = (Normal (ActionResult (js_string "pong")), w')
    /\ checks w'
       = [mkCheck ping "hello" (Some (mkContext (Some "example.com")))
            (mkVerdict true "passed" None)]
    /\ actions w'
       = [WebhookCaller (config_of_url "https://example.com/hook") "hello" 1]
    /\ wrote_one idle w' e
    /\ success e = true
    /\ errorMessage e = None
    /\ output e = Some "logged"
    /\ securityCheckResult e = "passed".
Proof.
  apply (resolved_webhook_is_returned steady ping "hello" idle
           (Some "example.com") (js_string "pong")).
  - vm_compute. reflexivity.
  - reflexivity.
  - reflexivity.
Defined.

Lemma code_skill_placeholder_witness :
  exists w' e,
    execute_code steady ping_code "status" idle
      = (Normal (ResultObject
                   ("Code skill " +:+ dquote +:+ "ping" +:+ dquote
                    +:+ " executed with query: status")), w')
    /\ actions w' = []
    /\ wrote_one idle w' e
    /\ success e = true
    /\ output e = Some "logged".
Proof.
  apply (code_skill_placeholder steady ping_code "status" idle).
  reflexivity.
Defined.

(** * Further properties of the invocation log *)

Lemma take_all {A} (n : nat) (l : list A) (x : A) :
  (length l <= n)%nat -> x ∈ l -> x ∈ take n l.
Proof. intros Hn Hx. by rewrite take_ge. Qed.

Lemma take_sorted_split {A} (R : relation A) (n : nat) (l : list A) (x y : A) :
  StronglySorted R l -> x ∈ take n l -> y ∈ l -> y ∉ take n l -> R x y.
Proof.
  intros Hs Hx Hy Hny. rewrite <- (take_drop n l) in Hs, Hy.
  apply elem_of_app in Hy as [Hy | Hy]; [done |].
  by eapply StronglySorted_app_1_elem_of.
Qed.

Section Selected.

Variable ix : list Field.
Variable t : LogTable.
Variable P : Row -> Prop.
Context `{!forall r, Decision (P r)}.

(** The rows of an index scan that satisfy a condition are the entries of
    the table that satisfy it. *)
Lemma elem_of_selected id d :
  (id, d) ∈ filter P (withIndex ix t) <-> filter P t !! id = Some d.
Proof.
  rewrite list_elem_of_filter, elem_of_withIndex, map_lookup_filter_Some.
  cbn. tauto.
Qed.

Lemma length_selected : length (filter P (withIndex ix t)) = size (filter P t).
Proof.
  rewrite (withIndex_Permutation ix t), map_filter_alt.
  rewrite map_size_list_to_map; [done |].
  eapply sublist_NoDup; [apply (NoDup_fst_map_to_list t) |].
  apply fmap_sublist, sublist_filter.
Qed.

End Selected.

Section ReadSelection.

Variable schema : Schema.
Variable t : LogTable.

(** X7. With [by_timestamp] declared on [timestamp] first, the page of
    [listRecent] holds the limit's number of rows, or all the stored
    entries when they are fewer; the rows are stored entries in
    newest-first order, and no entry left out is newer than a row of the
    page. *)
Theorem listRecent_returns_newest rest limit rows :
  by_timestamp schema = F_timestamp :: rest ->
  listRecent schema limit t = Normal rows ->
  length rows = Nat.min (Z.to_nat (limit_or_50 limit)) (size t)
  /\ newest_first rows
  /\ (forall id d, (id, d) ∈ rows -> t !! id = Some d)
  /\ (forall id d r, t !! id = Some d -> (id, d) ∉ rows -> r ∈ rows ->
        timestamp (fields d) <= timestamp (fields r.2)).
Proof.
  intros Hix Hrun.
  assert (Hnew := listRecent_newest_first schema t rest limit rows Hix Hrun).
  unfold listRecent, order_desc in Hrun.
  apply take_rows_Normal in Hrun as [Hn ->]. rewrite Hix in *.
  split; [| split; [done | split]].
  - rewrite length_take, length_reverse, (withIndex_Permutation _ t),
      length_map_to_list. done.
  - intros id d Hr. eapply elem_of_sublist in Hr; [| apply sublist_take].
    by apply elem_of_reverse, elem_of_withIndex in Hr.
  - intros id d r Hd Hout Hr.
    assert (Hs : StronglySorted (flip (row_le (F_timestamp :: rest)))
                   (reverse (withIndex (F_timestamp :: rest) t))).
    { apply StronglySorted_reverse; [apply _ | apply withIndex_sorted]. }
    apply (row_le_timestamp rest (id, d) r).
    apply (take_sorted_split _ _ _ r (id, d) Hs Hr); [| done].
    by apply elem_of_reverse, elem_of_withIndex.
Qed.

(** X8. With [by_skill] declared on [skillName] then [timestamp], the
    page of [listBySkill] is made of the stored entries of that skill
    only: the limit's number of them or all when they are fewer, newest
    first, and no entry of the skill left out is newer than a row of
    the page. *)
Theorem listBySkill_selects rest skill limit rows :
  by_skill schema = F_skillName :: F_timestamp :: rest ->
  listBySkill schema skill limit t = Normal rows ->
  length rows = Nat.min (Z.to_nat (limit_or_50 limit)) (size (of_skill skill t))
  /\ newest_first rows
  /\ (forall id d, (id, d) ∈ rows -> of_skill skill t !! id = Some d)
  /\ (forall id d r, of_skill skill t !! id = Some d -> (id, d) ∉ rows -> r ∈ rows ->
        timestamp (fields d) <= timestamp (fields r.2)).
Proof.
  intros Hix Hrun.
  assert (Hnew := listBySkill_newest_first schema t rest skill limit rows Hix Hrun).
  unfold listBySkill, withIndex_eq, order_desc in Hrun. rewrite Hix in Hrun.
  rewrite decide_True in Hrun by done.
  apply take_rows_Normal in Hrun as [Hn ->].
  set (ix := F_skillName :: F_timestamp :: rest) in *.
  set (Q := fun r : Row => field_value F_skillName r.2 = VString skill).
  assert (HQ : forall r : Row, Q r <-> skillName (fields r.2) = skill).
  { intros r. unfold Q. cbn. split; congruence. }
  assert (Hof : of_skill skill t = filter Q t).
  { unfold of_skill. apply map_filter_ext. intros i x _. symmetry. apply (HQ (i, x)). }
  rewrite Hof.
  split; [| split; [done | split]].
  - by rewrite length_take, length_reverse, length_selected.
  - intros id d Hr. eapply elem_of_sublist in Hr; [| apply sublist_take].
    by apply elem_of_reverse, elem_of_selected in Hr.
  - intros id d r Hd Hout Hr.
    assert (Hs : StronglySorted (flip (row_le ix)) (reverse (filter Q (withIndex ix t)))).
    { apply StronglySorted_reverse; [apply _ |].
      eapply StronglySorted_sublist; [apply sublist_filter | apply withIndex_sorted]. }
    assert (Hd' : (id, d) ∈ reverse (filter Q (withIndex ix t)))
      by by apply elem_of_reverse, elem_of_selected.
    apply (row_le_skill_timestamp rest (id, d) r).
    + eapply elem_of_sublist in Hr; [| apply sublist_take].
      apply elem_of_reverse, list_elem_of_filter in Hr as [Hr _].
      apply elem_of_reverse, list_elem_of_filter in Hd' as [Hd' _].
      apply HQ in Hr, Hd'. cbn in *. congruence.
    + by apply (take_sorted_split _ _ _ r (id, d) Hs Hr).
Qed.

(** X9. Whatever the index declarations, the page of
    [listSecurityFailures] holds the limit's number of those stored
    entries whose check result is not [passed], or all of them when they
    are fewer; each row is such an entry, and when the limit covers
    them all none is missing. *)
Theorem listSecurityFailures_selects limit rows :
  listSecurityFailures schema limit t = Normal rows ->
  length rows = Nat.min (Z.to_nat (limit_or_50 limit)) (size (refusals t))
  /\ (forall id d, (id, d) ∈ rows -> refusals t !! id = Some d)
  /\ (Z.of_nat (size (refusals t)) <= limit_or_50 limit ->
      forall id d, refusals t !! id = Some d -> (id, d) ∈ rows).
Proof.
  unfold listSecurityFailures, order_desc, refusals.
  intros [Hn ->]%take_rows_Normal.
  split; [| split].
  - by rewrite length_take, length_reverse, length_selected.
  - intros id d Hr. eapply elem_of_sublist in Hr; [| apply sublist_take].
    by apply elem_of_reverse, elem_of_selected in Hr.
  - intros Hsize id d Hd. apply take_all.
    + rewrite length_reverse, length_selected. lia.
    + by apply elem_of_reverse, elem_of_selected.
Qed.

End ReadSelection.

Section LogAndSweep.

Variable schema : Schema.
Variable rt : Runtime.

(** X10. [log] always returns: it stores the entry it was given, as it
    was given, under an id no entry had, and changes no other entry. A
    [listRecent] that follows with a limit above the number of entries
    stored before returns the new entry and every older one. *)
Theorem logged_entry_is_listed args w limit :
  Z.of_nat (size (audit w)) < limit ->
  exists id w' rows,
    SkillInvocations.log rt args w = (Normal id, w')
    /\ audit w !! id = None
    /\ (forall j, j <> id -> audit w' !! j = audit w !! j)
    /\ listRecent schema (Some limit) (audit w') = Normal rows
    /\ (id, mkDoc (clock rt (ticks w)) args) ∈ rows
    /\ (forall j d, audit w !! j = Some d -> (j, d) ∈ rows).
Proof.
  intros Hlimit. unfold SkillInvocations.log.
  set (id := fresh (dom (audit w))).
  set (t' := <[id := mkDoc (clock rt (ticks w)) args]> (audit w)).
  assert (Hfresh : audit w !! id = None) by apply fresh_id_unused.
  exists id, (mkWorld t' (actions w) (checks w) (S (ticks w))),
    (take (Z.to_nat limit) (reverse (withIndex (by_timestamp schema) t'))).
  cbn [audit]. split; [done |]. split; [done |].
  split; [intros j Hj; by apply lookup_insert_ne |].
  split.
  { unfold listRecent, take_rows, order_desc. cbn [limit_or_50].
    destruct (Z.ltb_spec limit 0); [lia | done]. }
  assert (Hall : forall r, r ∈ withIndex (by_timestamp schema) t' ->
            r ∈ take (Z.to_nat limit) (reverse (withIndex (by_timestamp schema) t'))).
  { intros r Hr. apply take_all; [| by apply elem_of_reverse].
    rewrite length_reverse, (withIndex_Permutation _ t'), length_map_to_list.
    unfold t'. rewrite map_size_insert_None by done. lia. }
  split.
  - apply Hall, elem_of_withIndex. apply lookup_insert_eq.
  - intros j d Hd. apply Hall, elem_of_withIndex. unfold t'.
    rewrite lookup_insert_ne; [done |]. intros <-. congruence.
Qed.

(** The rows a sweep filters from the index are the expired entries. *)
Lemma expired_swept now t :
  length (filter (fun r : Row => timestamp (fields r.2) < now - retention_ms)
            (withIndex (by_timestamp schema) t))
  = size (expired now t).
Proof. apply length_selected. Qed.

(** X11. The count [cleanup] returns is the number of expired entries,
    capped at 1000; the expired entries that remain are those above the
    cap, so that a run that found fewer than 1000 leaves none. *)
Theorem cleanup_count w :
  let now := clock rt (ticks w) in
  exists w',
    cleanup schema rt w
      = (Normal (Nat.min 1000 (size (expired now (audit w)))), w')
    /\ (size (expired now (audit w'))
        = size (expired now (audit w)) - Nat.min 1000 (size (expired now (audit w))))%nat
    /\ ((size (expired now (audit w)) < 1000)%nat -> expired now (audit w') = ∅).
Proof.
  intros now.
  destruct (cleanup_run schema rt w) as (w' & Hrun & Hlook & Hsize & _).
  fold now in Hrun, Hlook, Hsize.
  assert (Hlen : length (swept schema now (audit w))
                 = Nat.min 1000 (size (expired now (audit w)))).
  { unfold swept. by rewrite length_take, expired_swept. }
  assert (Hexp : expired now (audit w')
                 = filter (fun r : Row => r.1 ∉ (swept schema now (audit w)).*1)
                     (expired now (audit w))).
  { apply map_eq. intros id. unfold expired.
    destruct (audit w' !! id) as [d |] eqn:Hd.
    - rewrite Hlook in Hd. case_decide as Hin; [done |].
      destruct (decide (timestamp (fields d) < now - 2592000000)) as [Hold | Hnew].
      + rewrite (map_lookup_filter_Some_2 _ _ id d); [| by rewrite Hlook, decide_False | done].
        symmetry. apply map_lookup_filter_Some_2; [| done].
        by apply map_lookup_filter_Some_2.
      + rewrite (proj2 (map_lookup_filter_None _ _ _)).
        2: { right. intros d' Hd'. rewrite Hlook, decide_False in Hd' by done.
             cbn. congruence. }
        symmetry. apply map_lookup_filter_None. left.
        apply map_lookup_filter_None. right. intros d' Hd'. cbn. congruence.
    - rewrite (proj2 (map_lookup_filter_None _ _ _)) by (left; done).
      symmetry. apply map_lookup_filter_None.
      rewrite Hlook in Hd. case_decide as Hin.
      + right. intros d' _. cbn. tauto.
      + left. apply map_lookup_filter_None. by left. }
  exists w'. rewrite Hrun, Hlen. split; [done |].
  assert (Hsz : (size (expired now (audit w))
                 = size (expired now (audit w')) + length (swept schema now (audit w)))%nat).
  { rewrite Hexp.
    assert (Hsub : forall r, r ∈ swept schema now (audit w) ->
              expired now (audit w) !! r.1 = Some r.2).
    { intros [id d] [Hst Hold]%swept_stored. cbn in *.
      apply map_lookup_filter_Some_2; [done | cbn; unfold retention_ms in Hold; lia]. }
    pose proof (swept_NoDup schema now (audit w)) as Hnd.
    revert Hsub Hnd. generalize (swept schema now (audit w)) as rows.
    generalize (expired now (audit w)) as m. clear.
    intros m rows. revert m.
    induction rows as [| r rows IH]; intros m Hsub Hnd.
    { cbn. rewrite map_filter_id; [lia |]. intros i x _. cbn. apply not_elem_of_nil. }
    rewrite fmap_cons in Hnd. apply NoDup_cons in Hnd as [Hr Hnd].
    specialize (IH (delete r.1 m)).
    rewrite (map_size_delete_Some r.1 m) in IH by (rewrite Hsub by left; eauto).
    assert (size m <> 0%nat).
    { intros H0. apply map_size_empty_iff in H0. specialize (Hsub r).
      rewrite H0, lookup_empty in Hsub. by discriminate Hsub; left. }
    assert (Heq : filter (fun r0 : Row => r0.1 ∉ (r :: rows).*1) m
                  = filter (fun r0 : Row => r0.1 ∉ rows.*1) (delete r.1 m)).
    { apply map_eq. intros i. rewrite fmap_cons.
      destruct (decide (i = r.1)) as [-> | Hne].
      - rewrite (proj2 (map_lookup_filter_None _ _ _)).
        2: { right. intros x _. cbn. intros Hn. apply Hn. left. }
        symmetry. apply map_lookup_filter_None. left. apply lookup_delete_eq.
      - destruct (m !! i) as [x |] eqn:Hx.
        + destruct (decide (i ∈ rows.*1)) as [Hi | Hi].
          * rewrite (proj2 (map_lookup_filter_None _ _ _)).
            2: { right. intros x' _. cbn. intros Hn. apply Hn. by right. }
            symmetry. apply map_lookup_filter_None. right. intros x' _. cbn. tauto.
          * rewrite (map_lookup_filter_Some_2 _ _ i x); [| done |].
            2: { cbn. intros [? | ?]%elem_of_cons; done. }
            symmetry. apply map_lookup_filter_Some_2; [| done].
            by rewrite lookup_delete_ne.
        + rewrite (proj2 (map_lookup_filter_None _ _ _)) by (by left).
          symmetry. apply map_lookup_filter_None. left.
          by rewrite lookup_delete_ne. }
    rewrite Heq. cbn [length].
    assert (Hsub' : forall r', r' ∈ rows -> delete r.1 m !! r'.1 = Some r'.2).
    { intros r' Hr'. rewrite lookup_delete_ne.
      - apply Hsub. by right.
      - intros Heq'. apply Hr. rewrite Heq'. by apply list_elem_of_fmap_2. }
    specialize (IH Hsub' Hnd). lia. }
  split; [lia |].
  intros Hfew. apply map_size_empty_iff. lia.
Qed.

(** X12. With [by_timestamp] declared on [timestamp] first, a sweep
    deletes the oldest entries first: no entry it deleted has a greater
    timestamp than an entry it left. *)
Theorem cleanup_oldest_first rest w n w' id d id' d' :
  by_timestamp schema = F_timestamp :: rest ->
  cleanup schema rt w = (Normal n, w') ->
  audit w !! id = Some d -> audit w' !! id = None ->
  audit w' !! id' = Some d' ->
  timestamp (fields d) <= timestamp (fields d').
Proof.
  intros Hix Hrun Hd Hgone Hkept.
  destruct (cleanup_run schema rt w) as (w0 & Hrun0 & Hlook & _).
  rewrite Hrun in Hrun0. injection Hrun0 as -> <-.
  set (now := clock rt (ticks w)) in *.
  rewrite Hlook in Hgone, Hkept.
  destruct (decide (id ∈ (swept schema now (audit w)).*1)) as [Hin | Hin];
    [| congruence].
  destruct (decide (id' ∈ (swept schema now (audit w)).*1)) as [Hin' | Hin'];
    [done |].
  apply list_elem_of_fmap in Hin as ([j e] & -> & Hr). cbn in Hd.
  pose proof (swept_stored schema now (audit w) _ Hr) as [Hst Hold].
  cbn in Hst, Hold. assert (e = d) by congruence. subst e.
  destruct (decide (timestamp (fields d') < now - retention_ms)) as [Hold' | Hnew];
    [| lia].
  unfold swept in Hr, Hin'. rewrite Hix in Hr, Hin'.
  apply (row_le_timestamp rest (j, d) (id', d')).
  eapply take_sorted_split; [| exact Hr | |].
  - eapply StronglySorted_sublist; [apply sublist_filter | apply withIndex_sorted].
  - apply list_elem_of_filter. split; [done | by apply elem_of_withIndex].
  - intros Hc. apply Hin'. by apply (list_elem_of_fmap_2 fst _ (id', d')).
Qed.

End LogAndSweep.

(** The reads on the log of the two refusals and on the log of three
    entries. *)
Lemma listRecent_returns_newest_witness :
  let rows := [(3%positive, logged_call "ping" "passed" true 1699999999000);
               (2%positive, logged_call "ping" "passed" true 2000)] in
  length rows = Nat.min (Z.to_nat (limit_or_50 (Some 2))) (size small_log)
  /\ newest_first rows
  /\ (forall id d, (id, d) ∈ rows -> small_log !! id = Some d)
  /\ (forall id d r, small_log !! id = Some d -> (id, d) ∉ rows -> r ∈ rows ->
        timestamp (fields d) <= timestamp (fields r.2)).
Proof.
  apply (listRecent_returns_newest declared small_log [] (Some 2)).
  - reflexivity.
  - vm_compute. reflexivity.
Defined.

Lemma listBySkill_selects_witness :
  let rows := [(2%positive, newer_refusal)] in
  length rows
  = Nat.min (Z.to_nat (limit_or_50 None)) (size (of_skill "ping" two_refusals))
  /\ newest_first rows
  /\ (forall id d, (id, d) ∈ rows -> of_skill "ping" two_refusals !! id = Some d)
  /\ (forall id d r, of_skill "ping" two_refusals !! id = Some d ->
        (id, d) ∉ rows -> r ∈ rows ->
        timestamp (fields d) <= timestamp (fields r.2)).
Proof.
  apply (listBySkill_selects declared two_refusals [] "ping" None).
  - reflexivity.
  - vm_compute. reflexivity.
Defined.

Lemma listSecurityFailures_selects_witness :
  let rows := [(1%positive, older_refusal)] in
  length rows
  = Nat.min (Z.to_nat (limit_or_50 (Some 1))) (size (refusals two_refusals))
  /\ (forall id d, (id, d) ∈ rows -> refusals two_refusals !! id = Some d)
  /\ (Z.of_nat (size (refusals two_refusals)) <= limit_or_50 (Some 1) ->
      forall id d, refusals two_refusals !! id = Some d -> (id, d) ∈ rows).
Proof.
  apply (listSecurityFailures_selects declared two_refusals (Some 1)).
  vm_compute. reflexivity.
Defined.

Lemma logged_entry_is_listed_witness :
  exists id w' rows,
    SkillInvocations.log steady (fields newer_refusal)
      (mkWorld small_log [] [] 0) = (Normal id, w')
    /\ small_log !! id = None
    /\ (forall j, j <> id -> audit w' !! j = small_log !! j)
    /\ listRecent declared (Some 10) (audit w') = Normal rows
    /\ (id, mkDoc 1700000000000 (fields newer_refusal)) ∈ rows
    /\ (forall j d, small_log !! j = Some d -> (j, d) ∈ rows).
Proof.
  apply (logged_entry_is_listed declared steady (fields newer_refusal)
           (mkWorld small_log [] [] 0) 10).
  vm_compute. reflexivity.
Defined.

Lemma cleanup_oldest_first_witness :
  timestamp (fields (logged_call "ping" "passed" true 1000))
  <= timestamp (fields (logged_call "ping" "passed" true 1699999999000)).
Proof.
  apply (cleanup_oldest_first declared steady [] (mkWorld small_log [] [] 0)
           2%nat (cleanup declared steady (mkWorld small_log [] [] 0)).2
           1%positive _ 3%positive _).
  - reflexivity.
  - vm_compute. reflexivity.
  - reflexivity.
  - vm_compute. reflexivity.
  - vm_compute. reflexivity.
Defined.

(** * Properties of the tables *)

Lemma Pos_total : total_compare Pos.compare.
Proof.
  split.
  - apply Pos.compare_eq_iff.
  - intros x y. apply Pos.compare_antisym.
  - intros x y z [] H1 H2.
    + apply Pos.compare_eq_iff in H1, H2. subst. apply Pos.compare_refl.
    + rewrite Pos.compare_lt_iff in *. lia.
    + rewrite Pos.compare_gt_iff in *. lia.
Qed.

Section TableOrder.

Context {K D : Type} `{Countable K}.
Variable id_compare : K -> K -> comparison.
Hypothesis id_total : total_compare id_compare.
Variable key : D -> list Value.

Lemma doc_compare_opp (r1 r2 : K * D) :
  Table.doc_compare id_compare key r2 r1
  = CompOpp (Table.doc_compare id_compare key r1 r2).
Proof.
  unfold Table.doc_compare.
  rewrite (cmp_opp _ (list_total _ value_total) (key r1.2)).
  destruct (list_compare _ _ _); cbn; [| done ..].
  apply (cmp_opp _ id_total).
Qed.

Lemma doc_compare_eq (r1 r2 : K * D) :
  Table.doc_compare id_compare key r1 r2 = Eq ->
  key r1.2 = key r2.2 /\ r1.1 = r2.1.
Proof.
  pose proof (list_total _ value_total) as [Keq _ _].
  unfold Table.doc_compare.
  destruct (list_compare _ _ _) eqn:E; try done.
  intros Hid. split; [by apply Keq | by apply (cmp_eq _ id_total)].
Qed.

Lemma doc_compare_eq_l (r1 r2 r3 : K * D) :
  Table.doc_compare id_compare key r1 r2 = Eq ->
  Table.doc_compare id_compare key r1 r3 = Table.doc_compare id_compare key r2 r3.
Proof.
  intros [Hk Hi]%doc_compare_eq. unfold Table.doc_compare. by rewrite Hk, Hi.
Qed.

Lemma doc_compare_eq_r (r1 r2 r3 : K * D) :
  Table.doc_compare id_compare key r2 r3 = Eq ->
  Table.doc_compare id_compare key r1 r2 = Table.doc_compare id_compare key r1 r3.
Proof.
  intros [Hk Hi]%doc_compare_eq. unfold Table.doc_compare. by rewrite Hk, Hi.
Qed.

Lemma doc_compare_lt_trans (r1 r2 r3 : K * D) :
  Table.doc_compare id_compare key r1 r2 = Lt ->
  Table.doc_compare id_compare key r2 r3 = Lt ->
  Table.doc_compare id_compare key r1 r3 = Lt.
Proof.
  pose proof (list_total _ value_total) as [Keq Kopp Ktrans].
  unfold Table.doc_compare.
  destruct (list_compare _ (key r1.2) (key r2.2)) eqn:H12;
    destruct (list_compare _ (key r2.2) (key r3.2)) eqn:H23;
    intros H1 H2; try congruence.
  - apply Keq in H12, H23. rewrite H12, H23.
    rewrite (proj2 (Keq _ _) eq_refl).
    apply (cmp_trans _ id_total _ _ _ _ H1 H2).
  - apply Keq in H12. by rewrite H12, H23.
  - apply Keq in H23. by rewrite <- H23, H12.
  - by rewrite (Ktrans _ _ _ _ H12 H23).
Qed.

#[global] Instance doc_le_total : Total (Table.doc_le id_compare key).
Proof.
  intros r1 r2. unfold Table.doc_le. rewrite (doc_compare_opp r1 r2).
  destruct (Table.doc_compare id_compare key r1 r2); cbn;
    [left | left | right]; congruence.
Qed.

#[global] Instance doc_le_trans : Transitive (Table.doc_le id_compare key).
Proof.
  intros r1 r2 r3. unfold Table.doc_le. intros H12 H23.
  destruct (Table.doc_compare id_compare key r1 r2) eqn:E12; [| | done].
  - by rewrite (doc_compare_eq_l _ _ r3 E12).
  - destruct (Table.doc_compare id_compare key r2 r3) eqn:E23; [| | done].
    + rewrite <- (doc_compare_eq_r r1 _ _ E23). congruence.
    + rewrite (doc_compare_lt_trans _ _ _ E12 E23). congruence.
Qed.

Lemma doc_le_refl (r : K * D) : Table.doc_le id_compare key r r.
Proof. by destruct (doc_le_total r r). Qed.

Variable t : gmap K D.

Lemma scan_sorted :
  StronglySorted (Table.doc_le id_compare key) (Table.scan id_compare key t).
Proof. apply StronglySorted_merge_sort; apply _. Qed.

Lemma scan_Permutation : Table.scan id_compare key t ≡ₚ map_to_list t.
Proof. apply merge_sort_Permutation. Qed.

Lemma elem_of_scan id d :
  (id, d) ∈ Table.scan id_compare key t <-> t !! id = Some d.
Proof. by rewrite scan_Permutation, elem_of_map_to_list. Qed.

Lemma length_scan : length (Table.scan id_compare key t) = size t.
Proof. by rewrite scan_Permutation, length_map_to_list. Qed.

Lemma NoDup_scan : NoDup (Table.scan id_compare key t).*1.
Proof. rewrite scan_Permutation. apply NoDup_fst_map_to_list. Qed.

(** The first document of a scan that selects with [P] is the least, in
    the order of the index, of the stored documents that satisfy [P]. *)
Lemma first_selected (P : K * D -> Prop) `{!forall r, Decision (P r)} r :
  head (filter P (Table.scan id_compare key t)) = Some r <->
  t !! r.1 = Some r.2 /\ P r
  /\ forall id d, t !! id = Some d -> P (id, d) ->
       Table.doc_le id_compare key r (id, d).
Proof.
  assert (Hs : StronglySorted (Table.doc_le id_compare key)
                 (filter P (Table.scan id_compare key t))).
  { eapply StronglySorted_sublist; [apply sublist_filter | apply scan_sorted]. }
  assert (Hin : forall id d, (id, d) ∈ filter P (Table.scan id_compare key t)
                  <-> t !! id = Some d /\ P (id, d)).
  { intros id d. rewrite list_elem_of_filter, elem_of_scan. tauto. }
  destruct (filter P (Table.scan id_compare key t)) as [| [i0 d0] l] eqn:El; cbn.
  - split; [done |]. intros (Hst & HP & _). destruct r as [id d].
    assert (Hr : (id, d) ∈ @nil (K * D)) by by apply Hin.
    by apply elem_of_nil in Hr.
  - apply StronglySorted_inv in Hs as [_ Hall]. rewrite Forall_forall in Hall.
    assert (Hfst : t !! i0 = Some d0 /\ P (i0, d0)) by (apply Hin; left).
    assert (Hleast : forall id d, t !! id = Some d -> P (id, d) ->
              Table.doc_le id_compare key (i0, d0) (id, d)).
    { intros id d Hd HP.
      assert (Hr : (id, d) ∈ (i0, d0) :: l) by by apply Hin.
      apply elem_of_cons in Hr as [-> | Hr]; [| by apply Hall].
      unfold Table.doc_le.
      destruct (total (Table.doc_le id_compare key) (i0, d0) (i0, d0)); done. }
    split.
    + intros [= <-]. by destruct Hfst.
    + intros (Hst & HP & Hmin). destruct r as [id d]. cbn in Hst.
      destruct Hfst as [Hst0 HP0].
      pose proof (Hleast id d Hst HP) as H1.
      pose proof (Hmin i0 d0 Hst0 HP0) as H2.
      unfold Table.doc_le in H1, H2. rewrite doc_compare_opp in H2.
      destruct (Table.doc_compare id_compare key (i0, d0) (id, d)) eqn:E;
        [| done | done].
      apply doc_compare_eq in E as [_ Hid]. cbn in Hid. subst i0.
      congruence.
Qed.

Lemma first_selected_None (P : K * D -> Prop) `{!forall r, Decision (P r)} :
  head (filter P (Table.scan id_compare key t)) = None <->
  forall id d, t !! id = Some d -> ~ P (id, d).
Proof.
  rewrite head_None. split.
  - intros Hnil id d Hd HP.
    assert (Hr : (id, d) ∈ filter P (Table.scan id_compare key t)).
    { apply list_elem_of_filter. split; [done | by apply elem_of_scan]. }
    rewrite Hnil in Hr. by apply elem_of_nil in Hr.
  - intros Hno. destruct (filter P _) as [| [id d] l] eqn:El; [done |].
    assert (Hr : (id, d) ∈ filter P (Table.scan id_compare key t))
      by (rewrite El; left).
    apply list_elem_of_filter in Hr as [HP Hr]. apply elem_of_scan in Hr.
    by destruct (Hno id d).
Qed.

Lemma elem_of_scan_filter (P : K * D -> Prop) `{!forall r, Decision (P r)} id d :
  (id, d) ∈ filter P (Table.scan id_compare key t) <-> filter P t !! id = Some d.
Proof.
  rewrite list_elem_of_filter, elem_of_scan, map_lookup_filter_Some.
  cbn. tauto.
Qed.

Lemma length_scan_filter (P : K * D -> Prop) `{!forall r, Decision (P r)} :
  length (filter P (Table.scan id_compare key t)) = size (filter P t).
Proof.
  rewrite scan_Permutation, map_filter_alt.
  rewrite map_size_list_to_map; [done |].
  eapply sublist_NoDup; [apply (NoDup_fst_map_to_list t) |].
  apply fmap_sublist, sublist_filter.
Qed.

Lemma scan_filter_sorted (P : K * D -> Prop) `{!forall r, Decision (P r)} :
  StronglySorted (Table.doc_le id_compare key)
    (filter P (Table.scan id_compare key t)).
Proof.
  eapply StronglySorted_sublist; [apply sublist_filter | apply scan_sorted].
Qed.

End TableOrder.

Lemma take_docs_Normal {A} n (l result : list A) :
  Table.take_docs n l = Normal result ->
  0 <= n /\ result = take (Z.to_nat n) l.
Proof.
  unfold Table.take_docs. destruct (Z.ltb_spec n 0); [done |].
  intros [= <-]. done.
Qed.

(** * Properties of the X integration *)

Import XTwitter.

Lemma filter_all {A} (P : A -> Prop) `{!forall x, Decision (P x)} (l : list A) :
  (forall x, x ∈ l -> P x) -> filter P l = l.
Proof.
  induction l as [| x l IH]; intros Hall; [done |].
  rewrite filter_cons_True by (apply Hall; left).
  f_equal. apply IH. intros y Hy. apply Hall. by right.
Qed.

(** ** The configuration *)

Section ConfigTable.

Variable host : Host.

(** [getConfig] returns the least stored document in the order of
    [_creationTime], then [_id]. *)
Lemma getConfig_Some s r :
  getConfig s = Some r <->
  xConfig s !! r.1 = Some r.2
  /\ forall id d, xConfig s !! id = Some d -> config_le r (id, d).
Proof.
  unfold getConfig, config_rows.
  rewrite <- (filter_all (fun _ => True) (Table.scan _ _ _)) by done.
  rewrite (first_selected _ Pos_total). split.
  - intros (Hst & _ & Hmin). split; [done |]. intros id d Hd. by apply Hmin.
  - intros [Hst Hmin]. split; [done |]. split; [done |].
    intros id d Hd _. by apply Hmin.
Qed.

Lemma getConfig_None s : getConfig s = None <-> xConfig s = ∅.
Proof.
  unfold getConfig, config_rows. rewrite head_None. split.
  - intros Hnil. apply map_size_empty_iff.
    by rewrite <- (length_scan Pos.compare (fun d => [VNumber (Config.creationTime d)])), Hnil.
  - intros He. apply length_zero_iff_nil. by rewrite length_scan, He.
Qed.

Lemma updateConfig_patches args s id old :
  getConfig s = Some (id, old) ->
  updateConfig host args s
  = (Normal id,
     mkState (<[id := Config.mkDoc (Config.creationTime old)
                        (Config.patch (Config.values old) args)
                        (reading host (readings s))]> (xConfig s))
             (xTweets s) (activityLog s) (sent s) (S (readings s)) (draws s)).
Proof.
  intros Hget. pose proof Hget as [Hst _]%getConfig_Some. cbn in Hst.
  unfold updateConfig, mutation, mbind, ST_bind, inspect, now, patch_config,
    mret, ST_ret.
  rewrite Hget. cbn. by rewrite Hst.
Qed.

Lemma updateConfig_inserts args s :
  getConfig s = None ->
  updateConfig host args s
  = (Normal (fresh (dom (xConfig s))),
     mkState (<[fresh (dom (xConfig s)) :=
                  Config.mkDoc (reading host (S (readings s))) args
                    (reading host (readings s))]> (xConfig s))
             (xTweets s) (activityLog s) (sent s) (S (S (readings s))) (draws s)).
Proof.
  intros Hget.
  unfold updateConfig, mutation, mbind, ST_bind, inspect, now, insert_config,
    mret, ST_ret.
  rewrite Hget. reflexivity.
Qed.

(** X13. [updateConfig] always returns, and the configuration
    [getConfig] returns next is the one it wrote: it carries the given
    flags and rate limit, the given [username] or, when none is given,
    the one stored before, and the clock reading as [updatedAt]. *)
Theorem updateConfig_then_getConfig args s :
  exists id d s',
    updateConfig host args s = (Normal id, s')
    /\ getConfig s' = Some (id, d)
    /\ Config.enabled (Config.values d) = Config.enabled args
    /\ Config.showOnLanding (Config.values d) = Config.showOnLanding args
    /\ Config.autoReply (Config.values d) = Config.autoReply args
    /\ Config.postFromAgent (Config.values d) = Config.postFromAgent args
    /\ Config.rateLimitPerHour (Config.values d) = Config.rateLimitPerHour args
    /\ Config.username (Config.values d)
       = match Config.username args, getConfig s with
         | Some u, _ => Some u
         | None, Some (_, old) => Config.username (Config.values old)
         | None, None => None
         end
    /\ Config.updatedAt d = reading host (readings s).
Proof.
  destruct (getConfig s) as [[id old] |] eqn:Hget.
  - exists id, (Config.mkDoc (Config.creationTime old)
                  (Config.patch (Config.values old) args)
                  (reading host (readings s))).
    eexists. split; [by apply updateConfig_patches |].
    split; [| cbn; by destruct (Config.username args)].
    apply getConfig_Some in Hget as [Hst Hmin]. cbn in Hst.
    apply getConfig_Some. cbn [fst snd xConfig]. split; [apply lookup_insert_eq |].
    intros j d. destruct (decide (j = id)) as [-> | Hne].
    + rewrite lookup_insert_eq. intros [= <-].
      apply (doc_le_refl _ Pos_total).
    + rewrite lookup_insert_ne by done. intros Hd.
      specialize (Hmin j d Hd). exact Hmin.
  - exists (fresh (dom (xConfig s))),
      (Config.mkDoc (reading host (S (readings s))) args
         (reading host (readings s))).
    eexists. split; [by apply updateConfig_inserts |].
    split; [| cbn; by destruct (Config.username args)].
    apply getConfig_None in Hget.
    apply getConfig_Some. cbn [fst snd xConfig]. split; [apply lookup_insert_eq |].
    intros j d. rewrite Hget. rewrite lookup_insert_Some.
    intros [[<- <-] | [_ Hd]]; [| by rewrite lookup_empty in Hd].
    apply (doc_le_refl _ Pos_total).
Qed.

(** X14. [updateConfig] never adds a second configuration: it stores a
    new document only in an empty table, and otherwise rewrites the
    document [getConfig] returns and leaves the others, the tweets, the
    activity log and the network alone. *)
Theorem updateConfig_keeps_one args s :
  exists id s',
    updateConfig host args s = (Normal id, s')
    /\ size (xConfig s') = Nat.max 1 (size (xConfig s))
    /\ (forall old, getConfig s = Some old -> id = old.1)
    /\ (forall j, j <> id -> xConfig s' !! j = xConfig s !! j)
    /\ xTweets s' = xTweets s
    /\ activityLog s' = activityLog s
    /\ sent s' = sent s.
Proof.
  destruct (getConfig s) as [[id old] |] eqn:Hget.
  - eexists id, _. split; [by apply updateConfig_patches |].
    apply getConfig_Some in Hget as [Hst _]. cbn in Hst.
    cbn [xConfig xTweets activityLog sent].
    split; [| split; [| split; [| done]]].
    + rewrite map_size_insert_Some by eauto.
      assert (size (xConfig s) <> 0%nat); [| lia].
      intros H0%map_size_empty_iff. by rewrite H0, lookup_empty in Hst.
    + by intros old' [= <-].
    + intros j Hj. by rewrite lookup_insert_ne.
  - eexists _, _. split; [by apply updateConfig_inserts |].
    apply getConfig_None in Hget.
    cbn [xConfig xTweets activityLog sent].
    split; [| split; [| split; [| done]]].
    + rewrite Hget. by rewrite map_size_insert_None by apply lookup_empty.
    + done.
    + intros j Hj. by rewrite lookup_insert_ne.
Qed.

End ConfigTable.

(** ** The cached tweets *)

Section TweetTable.

Variable host : Host.
Variable indexes : Indexes.

(** The lookup by [tweetId] returns a stored tweet of that id, and none
    only when no stored tweet has it. *)
Lemma tweet_by_id_Some tid s id d :
  tweet_by_id indexes tid s = Some (id, d) ->
  xTweets s !! id = Some d /\ Tweet.tweetId (Tweet.values d) = tid.
Proof.
  unfold tweet_by_id, tweet_rows.
  intros (Hst & Htid & _)%(first_selected _ Pos_total). done.
Qed.

Lemma tweet_by_id_None tid s :
  tweet_by_id indexes tid s = None <->
  forall id d, xTweets s !! id = Some d -> Tweet.tweetId (Tweet.values d) <> tid.
Proof.
  unfold tweet_by_id, tweet_rows. by rewrite first_selected_None.
Qed.

Lemma tweet_by_id_is_Some tid s id d :
  xTweets s !! id = Some d -> Tweet.tweetId (Tweet.values d) = tid ->
  is_Some (tweet_by_id indexes tid s).
Proof.
  intros Hst Htid. destruct (tweet_by_id indexes tid s) eqn:E; [done |].
  rewrite tweet_by_id_None in E. by destruct (E id d).
Qed.

Lemma landing_rows limit s rows :
  landing_hidden (getConfig s) = false ->
  getLandingTweets indexes limit s = Normal rows ->
  0 <= Table.or_default limit 5
  /\ rows = take (Z.to_nat (Table.or_default limit 5))
              (reverse
                 (filter (fun r : positive * Tweet.doc =>
                            Tweet.showOnLanding (Tweet.values r.2) = true)
                         (tweet_rows (by_showOnLanding indexes) s))).
Proof.
  unfold getLandingTweets. intros ->. apply take_docs_Normal.
Qed.

(** The tweets of a page of the landing query are stored tweets whose
    [showOnLanding] is on. *)
Lemma landing_rows_shown limit s rows id d :
  getLandingTweets indexes limit s = Normal rows ->
  (id, d) ∈ rows ->
  landing_hidden (getConfig s) = false
  /\ xTweets s !! id = Some d
  /\ Tweet.showOnLanding (Tweet.values d) = true.
Proof.
  intros Hrun Hin.
  destruct (landing_hidden (getConfig s)) eqn:Hhid.
  - unfold getLandingTweets in Hrun. rewrite Hhid in Hrun.
    injection Hrun as <-. by apply elem_of_nil in Hin.
  - apply landing_rows in Hrun as [Hn ->]; [| done]. split; [done |].
    eapply elem_of_sublist in Hin; [| apply sublist_take].
    apply elem_of_reverse, list_elem_of_filter in Hin as [Hshow Hin].
    unfold tweet_rows in Hin. apply elem_of_scan in Hin. done.
Qed.

(** X15. The landing page shows tweets only while the configuration says
    so: without a configuration, or with [showOnLanding] off in it,
    [getLandingTweets] returns no tweet, whatever the limit; and every
    tweet it returns is a stored tweet whose own [showOnLanding] is on,
    with no more of them than the limit, its own or the default 5. *)
Theorem getLandingTweets_gated limit s :
  (landing_hidden (getConfig s) = true ->
   getLandingTweets indexes limit s = Normal [])
  /\ forall rows,
       getLandingTweets indexes limit s = Normal rows ->
       (length rows <= Z.to_nat (Table.or_default limit 5))%nat
       /\ forall id d, (id, d) ∈ rows ->
            landing_hidden (getConfig s) = false
            /\ xTweets s !! id = Some d
            /\ Tweet.showOnLanding (Tweet.values d) = true.
Proof.
  split; [unfold getLandingTweets; by intros -> |].
  intros rows Hrun.
  split; [| intros id d; by apply (landing_rows_shown limit s rows)].
  destruct (landing_hidden (getConfig s)) eqn:Hhid.
  - unfold getLandingTweets in Hrun. rewrite Hhid in Hrun.
    injection Hrun as <-. cbn. lia.
  - apply landing_rows in Hrun as [Hn ->]; [| done].
    rewrite length_take. lia.
Qed.

Lemma toggle_patches tid flag s id d :
  tweet_by_id indexes tid s = Some (id, d) ->
  toggleTweetLandingVisibility indexes tid flag s
  = (Normal (),
     mkState (xConfig s)
             (<[id := Tweet.mkDoc (Tweet.creationTime d)
                        (Tweet.with_showOnLanding (Tweet.values d) flag)
                        (Tweet.fetchedAt d)]> (xTweets s))
             (activityLog s) (sent s) (readings s) (draws s)).
Proof.
  intros Hget. pose proof (tweet_by_id_Some _ _ _ _ Hget) as [Hst _].
  unfold toggleTweetLandingVisibility, mutation, mbind, ST_bind, inspect,
    patch_tweet, mret, ST_ret.
  rewrite Hget. by rewrite Hst.
Qed.

Lemma toggle_skips tid flag s :
  tweet_by_id indexes tid s = None ->
  toggleTweetLandingVisibility indexes tid flag s = (Normal (), s).
Proof.
  intros Hget.
  unfold toggleTweetLandingVisibility, mutation, mbind, ST_bind, inspect,
    mret, ST_ret.
  by rewrite Hget.
Qed.

(** X16. [toggleTweetLandingVisibility] always returns. It changes
    nothing but the [showOnLanding] flag of one stored tweet of the given
    id, which it sets to the given value; with no stored tweet of that
    id it changes nothing at all. *)
Theorem toggle_changes_one_flag tid flag s :
  exists s',
    toggleTweetLandingVisibility indexes tid flag s = (Normal (), s')
    /\ xConfig s' = xConfig s
    /\ activityLog s' = activityLog s
    /\ sent s' = sent s
    /\ ((forall id d, xTweets s !! id = Some d ->
           Tweet.tweetId (Tweet.values d) <> tid) -> s' = s)
    /\ ((exists id d, xTweets s !! id = Some d
                      /\ Tweet.tweetId (Tweet.values d) = tid) ->
        exists id d,
          xTweets s !! id = Some d
          /\ Tweet.tweetId (Tweet.values d) = tid
          /\ xTweets s'
             = <[id := Tweet.mkDoc (Tweet.creationTime d)
                         (Tweet.with_showOnLanding (Tweet.values d) flag)
                         (Tweet.fetchedAt d)]> (xTweets s)).
Proof.
  destruct (tweet_by_id indexes tid s) as [[id d] |] eqn:Hget.
  - eexists. split; [by apply toggle_patches |].
    apply tweet_by_id_Some in Hget as [Hst Htid].
    cbn [xConfig xTweets activityLog sent].
    split; [done |]. split; [done |]. split; [done |]. split.
    + intros Hno. by destruct (Hno id d).
    + intros _. by exists id, d.
  - exists s. split; [by apply toggle_skips |].
    split; [done |]. split; [done |]. split; [done |]. split; [done |].
    intros (id & d & Hst & Htid). rewrite tweet_by_id_None in Hget.
    by destruct (Hget id d).
Qed.

(** X17. While no two stored tweets share a [tweetId], a tweet whose
    landing visibility was switched off is not among the tweets
    [getLandingTweets] returns next. *)
Theorem hidden_tweet_leaves_landing tid s limit rows :
  unique_tweet_ids (xTweets s) ->
  getLandingTweets indexes limit
    (toggleTweetLandingVisibility indexes tid false s).2 = Normal rows ->
  forall id d, (id, d) ∈ rows -> Tweet.tweetId (Tweet.values d) <> tid.
Proof.
  intros Huniq Hrun id d Hin Htid.
  destruct (landing_rows_shown _ _ _ _ _ Hrun Hin) as (_ & Hst & Hshow).
  clear Hrun Hin.
  destruct (tweet_by_id indexes tid s) as [[id0 d0] |] eqn:Hget.
  - rewrite (toggle_patches _ _ _ _ _ Hget) in Hst. cbn in Hst.
    apply tweet_by_id_Some in Hget as [Hst0 Htid0].
    destruct (decide (id = id0)) as [-> | Hne].
    + rewrite lookup_insert_eq in Hst. injection Hst as <-. done.
    + rewrite lookup_insert_ne in Hst by done.
      apply Hne. apply (Huniq id id0 d d0 Hst Hst0). congruence.
  - rewrite (toggle_skips _ _ _ Hget) in Hst. cbn in Hst.
    rewrite tweet_by_id_None in Hget. by destruct (Hget id d).
Qed.

Lemma cacheTweet_patches args s id old :
  tweet_by_id indexes (Tweet.tweetId args) s = Some (id, old) ->
  cacheTweet host indexes args s
  = (Normal id,
     mkState (xConfig s)
             (<[id := Tweet.mkDoc (Tweet.creationTime old)
                        (Tweet.patch (Tweet.values old) args)
                        (reading host (readings s))]> (xTweets s))
             (activityLog s) (sent s) (S (readings s)) (draws s)).
Proof.
  intros Hget. pose proof (tweet_by_id_Some _ _ _ _ Hget) as [Hst _].
  unfold cacheTweet, mutation, mbind, ST_bind, inspect, now, patch_tweet,
    mret, ST_ret.
  rewrite Hget. cbn. by rewrite Hst.
Qed.

(** How many times the insert branch of [cacheTweet] reads the clock
    before it stamps [fetchedAt]. *)
Lemma cacheTweet_inserts args s :
  tweet_by_id indexes (Tweet.tweetId args) s = None ->
  let n := match Tweet.postedAt args with
           | Some _ => readings s
           | None => S (readings s)
           end in
  let posted := match Tweet.postedAt args with
                | Some p => p
                | None => reading host (readings s)
                end in
  cacheTweet host indexes args s
  = (Normal (fresh (dom (xTweets s))),
     mkState (xConfig s)
             (<[fresh (dom (xTweets s)) :=
                  Tweet.mkDoc (reading host (S n))
                    (Tweet.with_postedAt args posted)
                    (reading host n)]> (xTweets s))
             (activityLog s) (sent s) (S (S n)) (draws s)).
Proof.
  intros Hget.
  unfold cacheTweet, mutation, mbind, ST_bind, inspect, now, insert_tweet,
    mret, ST_ret.
  rewrite Hget. by destruct (Tweet.postedAt args).
Qed.

(** What [cacheTweet] leaves behind, whichever branch it takes. *)
Lemma cacheTweet_stores args s :
  exists id d s',
    cacheTweet host indexes args s = (Normal id, s')
    /\ xTweets s' !! id = Some d
    /\ Tweet.tweetId (Tweet.values d) = Tweet.tweetId args
    /\ Tweet.text (Tweet.values d) = Tweet.text args
    /\ Tweet.authorUsername (Tweet.values d) = Tweet.authorUsername args
    /\ Tweet.isAgentTweet (Tweet.values d) = Tweet.isAgentTweet args
    /\ Tweet.isReply (Tweet.values d) = Tweet.isReply args
    /\ Tweet.showOnLanding (Tweet.values d) = Tweet.showOnLanding args
    /\ xConfig s' = xConfig s
    /\ activityLog s' = activityLog s
    /\ sent s' = sent s.
Proof.
  destruct (tweet_by_id indexes (Tweet.tweetId args) s) as [[id old] |] eqn:Hget.
  - eexists id, _, _. split; [by apply cacheTweet_patches |].
    cbn [xConfig xTweets activityLog sent].
    split; [apply lookup_insert_eq | done].
  - pose proof (cacheTweet_inserts args s Hget) as Hrun. cbn zeta in Hrun.
    eexists _, _, _. split; [exact Hrun |].
    cbn [xConfig xTweets activityLog sent].
    split; [apply lookup_insert_eq | done].
Qed.

(** X18. [cacheTweet] always returns the id of a stored tweet that now
    carries the given [tweetId], text, author and flags. When a tweet of
    that [tweetId] was stored, it is one of those that was rewritten, and
    the number of stored tweets is the same; otherwise the tweet is a new
    one. No other tweet and no other table is changed. *)
Theorem cacheTweet_upsert args s :
  exists id d s',
    cacheTweet host indexes args s = (Normal id, s')
    /\ xTweets s' !! id = Some d
    /\ Tweet.tweetId (Tweet.values d) = Tweet.tweetId args
    /\ Tweet.text (Tweet.values d) = Tweet.text args
    /\ Tweet.authorUsername (Tweet.values d) = Tweet.authorUsername args
    /\ Tweet.isAgentTweet (Tweet.values d) = Tweet.isAgentTweet args
    /\ Tweet.isReply (Tweet.values d) = Tweet.isReply args
    /\ Tweet.showOnLanding (Tweet.values d) = Tweet.showOnLanding args
    /\ (forall j, j <> id -> xTweets s' !! j = xTweets s !! j)
    /\ match xTweets s !! id with
       | Some old =>
           Tweet.tweetId (Tweet.values old) = Tweet.tweetId args
           /\ Tweet.creationTime d = Tweet.creationTime old
           /\ size (xTweets s') = size (xTweets s)
       | None =>
           (forall j dj, xTweets s !! j = Some dj ->
              Tweet.tweetId (Tweet.values dj) <> Tweet.tweetId args)
           /\ size (xTweets s') = S (size (xTweets s))
       end
    /\ xConfig s' = xConfig s
    /\ activityLog s' = activityLog s
    /\ sent s' = sent s.
Proof.
  destruct (tweet_by_id indexes (Tweet.tweetId args) s) as [[id old] |] eqn:Hget.
  - exists id, (Tweet.mkDoc (Tweet.creationTime old)
                  (Tweet.patch (Tweet.values old) args)
                  (reading host (readings s))).
    eexists. split; [by apply cacheTweet_patches |].
    apply tweet_by_id_Some in Hget as [Hst Htid].
    cbn [xConfig xTweets activityLog sent].
    split; [apply lookup_insert_eq |].
    do 6 (split; [done |]).
    split; [intros j Hj; by rewrite lookup_insert_ne |].
    rewrite Hst. split; [| done].
    split; [done |]. split; [done |].
    apply map_size_insert_Some; eauto.
  - pose proof (cacheTweet_inserts args s Hget) as Hrun. cbn zeta in Hrun.
    eexists _, _, _. split; [exact Hrun |].
    cbn [xConfig xTweets activityLog sent].
    split; [apply lookup_insert_eq |].
    do 6 (split; [done |]).
    split; [intros j Hj; by rewrite lookup_insert_ne |].
    assert (Hfresh : xTweets s !! fresh (dom (xTweets s)) = None).
    { apply not_elem_of_dom, is_fresh. }
    rewrite Hfresh. split; [| done].
    split; [by apply tweet_by_id_None |].
    by apply map_size_insert_None.
Qed.

(** X19. [cacheTweet] keeps the stored [tweetId]s distinct. *)
Theorem cacheTweet_keeps_ids_unique args s :
  unique_tweet_ids (xTweets s) ->
  unique_tweet_ids (xTweets (cacheTweet host indexes args s).2).
Proof.
  intros Huniq.
  destruct (tweet_by_id indexes (Tweet.tweetId args) s) as [[id old] |] eqn:Hget.
  - rewrite (cacheTweet_patches _ _ _ _ Hget). cbn [snd xTweets].
    apply tweet_by_id_Some in Hget as [Hst Htid].
    intros i j di dj Hi Hj Heq.
    destruct (decide (i = id)) as [-> | Hi'];
      destruct (decide (j = id)) as [-> | Hj']; [done | | |].
    + rewrite lookup_insert_eq in Hi. rewrite lookup_insert_ne in Hj by done.
      injection Hi as <-. cbn in Heq.
      apply (Huniq id j old dj Hst Hj). congruence.
    + rewrite lookup_insert_eq in Hj. rewrite lookup_insert_ne in Hi by done.
      injection Hj as <-. cbn in Heq.
      apply (Huniq i id di old Hi Hst). congruence.
    + rewrite lookup_insert_ne in Hi, Hj by done. by apply (Huniq i j di dj).
  - pose proof (cacheTweet_inserts args s Hget) as Hrun. cbn zeta in Hrun.
    rewrite Hrun. cbn [snd xTweets].
    rewrite tweet_by_id_None in Hget.
    intros i j di dj Hi Hj Heq.
    destruct (decide (i = fresh (dom (xTweets s)))) as [-> | Hi'];
      destruct (decide (j = fresh (dom (xTweets s)))) as [-> | Hj']; [done | | |].
    + rewrite lookup_insert_eq in Hi. rewrite lookup_insert_ne in Hj by done.
      injection Hi as <-. cbn in Heq. by destruct (Hget j dj).
    + rewrite lookup_insert_eq in Hj. rewrite lookup_insert_ne in Hi by done.
      injection Hj as <-. cbn in Heq. by destruct (Hget i di).
    + rewrite lookup_insert_ne in Hi, Hj by done. by apply (Huniq i j di dj).
Qed.

(** X20. The time a tweet was posted survives its being cached again:
    [cacheTweet] stores the [postedAt] it is given; given none, it keeps
    the [postedAt] of the tweet it rewrites, and stamps a new tweet with
    the clock reading taken before the one that stamps [fetchedAt]. *)
Theorem cacheTweet_postedAt args s :
  let id := (cacheTweet host indexes args s).1 in
  let s' := (cacheTweet host indexes args s).2 in
  exists i d,
    id = Normal i
    /\ xTweets s' !! i = Some d
    /\ match Tweet.postedAt args, xTweets s !! i with
       | Some p, _ =>
           Tweet.postedAt (Tweet.values d) = Some p
           /\ Tweet.fetchedAt d = reading host (readings s)
       | None, Some old =>
           Tweet.postedAt (Tweet.values d) = Tweet.postedAt (Tweet.values old)
           /\ Tweet.fetchedAt d = reading host (readings s)
       | None, None =>
           Tweet.postedAt (Tweet.values d) = Some (reading host (readings s))
           /\ Tweet.fetchedAt d = reading host (S (readings s))
       end.
Proof.
  intros id s'. unfold id, s'. clear id s'.
  destruct (tweet_by_id indexes (Tweet.tweetId args) s) as [[id old] |] eqn:Hget.
  - rewrite (cacheTweet_patches _ _ _ _ Hget). cbn [fst snd xTweets].
    apply tweet_by_id_Some in Hget as [Hst Htid].
    eexists _, _. split; [done |]. split; [apply lookup_insert_eq |].
    rewrite Hst. cbn. by destruct (Tweet.postedAt args).
  - pose proof (cacheTweet_inserts args s Hget) as Hrun. cbn zeta in Hrun.
    rewrite Hrun. cbn [fst snd xTweets].
    eexists _, _. split; [done |]. split; [apply lookup_insert_eq |].
    assert (Hfresh : xTweets s !! fresh (dom (xTweets s)) = None).
    { apply not_elem_of_dom, is_fresh. }
    rewrite Hfresh. cbn. by destruct (Tweet.postedAt args).
Qed.

End TweetTable.

(** ** The actions *)

Lemma bind_Normal {S A B} (m : ST S A) (k : A -> ST S B) s a s' :
  m s = (Normal a, s') -> (x ← m; k x) s = k a s'.
Proof. unfold mbind, ST_bind. by intros ->. Qed.

Lemma bind_Throw {S A B} (m : ST S A) (k : A -> ST S B) s t s' :
  m s = (Throw t, s') -> (x ← m; k x) s = (Throw t, s').
Proof. unfold mbind, ST_bind. by intros ->. Qed.

Section Actions.

Variable host : Host.
Variable indexes : Indexes.

(** The request [makeOAuthRequest] sends: one clock reading and one draw
    of the random source go into its [Authorization] header. *)
Lemma makeOAuthRequest_run method url body credentials s :
  let s2 := mkState (xConfig s) (xTweets s) (activityLog s) (sent s)
                    (S (readings s)) (S (draws s)) in
  let request :=
    mkRequest (Some method) url
      ("OAuth oauth_consumer_key=" +:+ quoted (apiKey credentials)
       +:+ ", oauth_nonce=" +:+ quoted (nonce_text host (draws s))
       +:+ ", oauth_signature=" +:+ quoted "PLACEHOLDER_SIGNATURE"
       +:+ ", oauth_signature_method=" +:+ quoted "HMAC-SHA1"
       +:+ ", oauth_timestamp="
       +:+ quoted (pretty (reading host (readings s) `div` 1000))
       +:+ ", oauth_token=" +:+ quoted (accessToken credentials)
       +:+ ", oauth_version=" +:+ quoted "1.0")
      (Some "application/json") (Some body) in
  makeOAuthRequest host method url body credentials s = fetch host request s2.
Proof. reflexivity. Qed.

Lemma fetch_run request s :
  exists outcome,
    fetch host request s
    = (outcome,
       mkState (xConfig s) (xTweets s) (activityLog s) (sent s ++ [request])
               (readings s) (draws s))
    /\ match answer host s request with
       | Responds response => outcome = Normal response
       | Fails t => outcome = Throw t
       end.
Proof. unfold fetch. destruct (answer host s request); eauto. Qed.

(** X21. The [Authorization] header [makeOAuthRequest] sends is not a
    signature of the request: it is the same for any two requests made
    from the same state with the same consumer key and access token,
    whatever their methods, URLs, bodies and secrets. Each call sends
    exactly one request. *)
Theorem oauth_header_is_unsigned m1 u1 b1 c1 m2 u2 b2 c2 s :
  apiKey c1 = apiKey c2 ->
  accessToken c1 = accessToken c2 ->
  exists r1 r2,
    sent (makeOAuthRequest host m1 u1 b1 c1 s).2 = sent s ++ [r1]
    /\ sent (makeOAuthRequest host m2 u2 b2 c2 s).2 = sent s ++ [r2]
    /\ authorization r1 = authorization r2
    /\ method r1 = Some m1 /\ url r1 = u1 /\ body r1 = Some b1.
Proof.
  intros Hkey Htoken.
  rewrite !makeOAuthRequest_run. cbn zeta.
  match goal with
  | |- context [fetch host ?r1 ?s1] =>
      destruct (fetch_run r1 s1) as (o1 & -> & _)
  end.
  match goal with
  | |- context [fetch host ?r2 ?s2] =>
      destruct (fetch_run r2 s2) as (o2 & -> & _)
  end.
  eexists _, _. cbn [snd sent]. split; [reflexivity |]. split; [reflexivity |].
  cbn [authorization method url body]. by rewrite Hkey, Htoken.
Qed.

(** The two checks of [postTweet]. *)
Lemma postTweet_disabled text reply s :
  posting_disabled (getConfig s) = true ->
  postTweet host indexes text reply s
  = (Throw (ErrorWith "X/Twitter posting is not enabled"), s).
Proof.
  intros Hoff. unfold postTweet, mbind, ST_bind, inspect, raise.
  destruct (getConfig s) as [[cid c] |]; [| done].
  by rewrite Hoff.
Qed.

Lemma postTweet_no_credentials text reply s :
  posting_disabled (getConfig s) = false ->
  credentials_of (env host) = None ->
  exists message,
    postTweet host indexes text reply s = (Throw (ErrorWith message), s).
Proof.
  intros Hon Hcr. unfold postTweet, mbind, ST_bind, inspect, raise.
  destruct (getConfig s) as [[cid c] |]; [| done].
  rewrite Hon, Hcr. by eexists.
Qed.

(** X22. Without a configuration that has both [enabled] and
    [postFromAgent] on, or without the four credentials in the
    environment, [postTweet] throws an [Error] and does nothing else:
    no request is sent, and nothing is cached or logged. *)
Theorem postTweet_needs_permission text reply s :
  posting_disabled (getConfig s) = true \/ credentials_of (env host) = None ->
  exists message,
    postTweet host indexes text reply s = (Throw (ErrorWith message), s).
Proof.
  intros Hwhy.
  destruct (posting_disabled (getConfig s)) eqn:Hoff.
  - eexists. by apply postTweet_disabled.
  - destruct Hwhy as [? | Hcr]; [done |]. by apply postTweet_no_credentials.
Qed.

(** What [postTweet] does once its two checks have passed. *)
Lemma postTweet_permitted text reply s cid c credentials :
  getConfig s = Some (cid, c) ->
  posting_disabled (getConfig s) = false ->
  credentials_of (env host) = Some credentials ->
  exists request outcome,
    let s2 := mkState (xConfig s) (xTweets s) (activityLog s) (sent s)
                      (S (readings s)) (S (draws s)) in
    let s3 := mkState (xConfig s) (xTweets s) (activityLog s)
                      (sent s ++ [request]) (S (readings s)) (S (draws s)) in
    method request = Some "POST"
    /\ url request = "https://api.twitter.com/2/tweets"
    /\ body request
       = Some (mkBody text (if truthy reply then reply else None))
    /\ match answer host s2 request with
       | Responds response => outcome = Normal response
       | Fails t => outcome = Throw t
       end
    /\ postTweet host indexes text reply s
       = match outcome with
         | Throw t => (Throw t, s3)
         | Normal response =>
             if negb (ok response) then
               (Throw (ErrorWith ("Failed to post tweet: " +:+ payload response)), s3)
             else
               (result ← json response;
                data ← member "data" (Some result);
                id ← member "id" data;
                tweetId ← string_argument id;
                _ ← cacheTweet host indexes
                      (Tweet.mk tweetId text
                         (if truthy (Config.username (Config.values c))
                          then default EmptyString (Config.username (Config.values c))
                          else "agent")
                         None None true (truthy reply) reply
                         None None None
                         (Config.showOnLanding (Config.values c)) None);
                _ ← logTweetActivity host
                      (if truthy reply then "x_reply" else "x_post")
                      (if truthy reply
                       then "Replied to tweet: " +:+ substring 0 50 text +:+ "..."
                       else "Posted tweet: " +:+ substring 0 50 text +:+ "...")
                      Activity.public;
                mret data) s3
         end.
Proof.
  intros Hcfg Hen Hcr.
  pose proof (makeOAuthRequest_run "POST" "https://api.twitter.com/2/tweets"
                (mkBody text (if truthy reply then reply else None))
                credentials s) as Hreq.
  cbn zeta in Hreq.
  match type of Hreq with
  | _ = fetch host ?r ?s2 =>
      destruct (fetch_run r s2) as (outcome & Hfetch & Hout);
      exists r, outcome
  end.
  cbn zeta. split; [done |]. split; [done |]. split; [done |].
  split; [exact Hout |].
  rewrite Hfetch in Hreq. cbn [xConfig xTweets activityLog sent readings draws] in Hreq.
  unfold postTweet. unfold mbind at 1, ST_bind at 1. unfold inspect at 1.
  rewrite Hen. rewrite Hcfg. rewrite Hcr.
  destruct outcome as [response | t].
  - rewrite (bind_Normal _ _ _ _ _ Hreq). by destruct (ok response).
  - by rewrite (bind_Throw _ _ _ _ _ Hreq).
Qed.


Lemma logTweetActivity_run actionType summary visibility s :
  logTweetActivity host actionType summary visibility s
  = (Normal (),
     mkState (xConfig s) (xTweets s)
             (<[fresh (dom (activityLog s)) :=
                  Activity.mkDoc (reading host (S (readings s))) actionType
                    summary "x" visibility (reading host (readings s))]>
                (activityLog s))
             (sent s) (S (S (readings s))) (draws s)).
Proof. reflexivity. Qed.

(** Reading [result.data.id] off the answer changes no state; it either
    throws or yields [result.data] and the id, a string. *)
Lemma reading_answer {B} response
    (k : option JsValue -> list N -> ST State B) s :
  (exists t,
      (result ← json response;
       data ← member "data" (Some result);
       id ← member "id" data;
       tweetId ← string_argument id;
       k data tweetId) s = (Throw t, s))
  \/ (exists members fields tweetId,
         JSON.parse (payload response) = Some (JObject members)
         /\ last_member (code_units "data") members = Some (JObject fields)
         /\ last_member (code_units "id") fields = Some (JString tweetId)
         /\ (result ← json response;
             data ← member "data" (Some result);
             id ← member "id" data;
             tweetId ← string_argument id;
             k data tweetId) s = k (Some (JObject fields)) tweetId s).
Proof.
  unfold json, member, string_argument, mbind, ST_bind, raise, mret, ST_ret.
  destruct (JSON.parse (payload response)) as [result |] eqn:Hparse;
    [| left; by eexists].
  destruct result as [| b | n | str | items | members];
    try (left; by eexists).
  destruct (last_member (code_units "data") members) as [data |] eqn:Hdata;
    [| left; by eexists].
  destruct data as [| b | n | str | items | fields];
    try (left; by eexists).
  destruct (last_member (code_units "id") fields) as [id |] eqn:Hid;
    [| left; by eexists].
  destruct id as [| b | n | tweetId | items | inner];
    try (left; by eexists).
  right. by exists members, fields, tweetId.
Qed.

Lemma reading_answer_found {B} response
    (k : option JsValue -> list N -> ST State B) s members fields tweetId :
  JSON.parse (payload response) = Some (JObject members) ->
  last_member (code_units "data") members = Some (JObject fields) ->
  last_member (code_units "id") fields = Some (JString tweetId) ->
  (result ← json response;
   data ← member "data" (Some result);
   id ← member "id" data;
   tweetId ← string_argument id;
   k data tweetId) s = k (Some (JObject fields)) tweetId s.
Proof.
  intros Hparse Hdata Hid.
  unfold json, member, string_argument, mbind, ST_bind, raise, mret, ST_ret.
  rewrite Hparse. cbn beta iota. rewrite Hdata. cbn beta iota.
  by rewrite Hid.
Qed.

(** X23. When the X API answers a permitted post with a response that is
    not [ok], [postTweet] throws an [Error] whose message carries the
    body of the response; the one request was sent, and nothing is
    cached or logged. *)
Theorem postTweet_rejected_by_api text reply s credentials response :
  posting_disabled (getConfig s) = false ->
  credentials_of (env host) = Some credentials ->
  (forall st request, answer host st request = Responds response) ->
  ok response = false ->
  exists request s',
    postTweet host indexes text reply s
    = (Throw (ErrorWith ("Failed to post tweet: " +:+ payload response)), s')
    /\ sent s' = sent s ++ [request]
    /\ method request = Some "POST"
    /\ url request = "https://api.twitter.com/2/tweets"
    /\ body request = Some (mkBody text (if truthy reply then reply else None))
    /\ xTweets s' = xTweets s
    /\ activityLog s' = activityLog s.
Proof.
  intros Hen Hcr Hanswer Hok.
  destruct (getConfig s) as [[cid c] |] eqn:Hcfg; [| done].
  rewrite <- Hcfg in Hen.
  destruct (postTweet_permitted text reply s cid c credentials Hcfg Hen Hcr)
    as (request & outcome & Hm & Hu & Hb & Hout & Hrun).
  cbn zeta in Hout, Hrun. rewrite Hanswer in Hout. subst outcome.
  rewrite Hok in Hrun. cbn [negb] in Hrun.
  eexists request, _. split; [exact Hrun |]. by cbn.
Qed.

(** X24. When the X API answers a permitted post with an [ok] response
    whose body is a JSON object with a string at [data.id], [postTweet]
    returns [data], caches the tweet under that id as a tweet of the
    agent (with the text, the reply flag, and the landing visibility and
    author name of the configuration, [agent] when it has no name), and
    adds one public entry of channel [x] to the activity log. *)
Theorem postTweet_caches_and_logs text reply s cid c credentials response
    members fields tweetId :
  getConfig s = Some (cid, c) ->
  posting_disabled (getConfig s) = false ->
  credentials_of (env host) = Some credentials ->
  (forall st request, answer host st request = Responds response) ->
  ok response = true ->
  JSON.parse (payload response) = Some (JObject members) ->
  last_member (code_units "data") members = Some (JObject fields) ->
  last_member (code_units "id") fields = Some (JString tweetId) ->
  exists s' id d aid a,
    postTweet host indexes text reply s = (Normal (Some (JObject fields)), s')
    /\ xTweets s' !! id = Some d
    /\ Tweet.tweetId (Tweet.values d) = tweetId
    /\ Tweet.text (Tweet.values d) = text
    /\ Tweet.isAgentTweet (Tweet.values d) = true
    /\ Tweet.isReply (Tweet.values d) = truthy reply
    /\ Tweet.showOnLanding (Tweet.values d)
       = Config.showOnLanding (Config.values c)
    /\ Tweet.authorUsername (Tweet.values d)
       = (if truthy (Config.username (Config.values c))
          then default EmptyString (Config.username (Config.values c))
          else "agent")
    /\ activityLog s !! aid = None
    /\ activityLog s' = <[aid := a]> (activityLog s)
    /\ Activity.channel a = "x"
    /\ Activity.visibility a = Activity.public
    /\ Activity.actionType a = (if truthy reply then "x_reply" else "x_post").
Proof.
  intros Hcfg Hen Hcr Hanswer Hok Hparse Hdata Hid.
  destruct (postTweet_permitted text reply s cid c credentials Hcfg Hen Hcr)
    as (request & outcome & _ & _ & _ & Hout & Hrun).
  cbn zeta in Hout, Hrun. rewrite Hanswer in Hout. subst outcome.
  rewrite Hok in Hrun. cbn [negb] in Hrun.
  rewrite Hrun. clear Hrun.
  rewrite (reading_answer_found response _ _ members fields tweetId)
    by done.
  match goal with
  | |- context [mbind _ (cacheTweet host indexes _) ?s3] => set (st := s3)
  end.
  match goal with
  | |- context [cacheTweet host indexes ?args] =>
      destruct (cacheTweet_stores host indexes args st)
        as (id & d & s4 & Hcache & Hst & Htid & Htext & Hauthor & Hagent
            & Hreply & Hshow & _ & Hact & _)
  end.
  rewrite (bind_Normal _ _ _ _ _ Hcache).
  rewrite (bind_Normal _ _ _ _ _ (logTweetActivity_run _ _ _ s4)).
  eexists _, id, d, _, _. split; [reflexivity |].
  cbn [xTweets activityLog]. rewrite Hact.
  do 7 (split; [done |]).
  split; [apply not_elem_of_dom, is_fresh |].
  split; [reflexivity |]. done.
Qed.

(** X25. [postTweet] sends at most one request and never writes the
    configuration. When it throws, nothing has been cached or logged;
    when it returns, the request was sent, the tweet of the agent with
    the given text is cached, and the activity log has one more
    entry. *)
Theorem postTweet_all_or_nothing text reply s :
  let r := (postTweet host indexes text reply s).1 in
  let s' := (postTweet host indexes text reply s).2 in
  xConfig s' = xConfig s
  /\ (length (sent s') <= S (length (sent s)))%nat
  /\ match r with
     | Throw _ => xTweets s' = xTweets s /\ activityLog s' = activityLog s
     | Normal _ =>
         length (sent s') = S (length (sent s))
         /\ (exists id d,
                xTweets s' !! id = Some d
                /\ Tweet.text (Tweet.values d) = text
                /\ Tweet.isAgentTweet (Tweet.values d) = true)
         /\ size (activityLog s') = S (size (activityLog s))
     end.
Proof.
  intros r s'. unfold r, s'. clear r s'.
  destruct (posting_disabled (getConfig s)) eqn:Hen.
  { rewrite (postTweet_disabled text reply s Hen).
    cbn. split; [done |]. split; [lia | done]. }
  destruct (credentials_of (env host)) as [credentials |] eqn:Hcr.
  2: { destruct (postTweet_no_credentials text reply s Hen Hcr)
         as [message ->].
       cbn. split; [done |]. split; [lia | done]. }
  destruct (getConfig s) as [[cid c] |] eqn:Hcfg; [| done].
  rewrite <- Hcfg in Hen.
  destruct (postTweet_permitted text reply s cid c credentials Hcfg Hen Hcr)
    as (request & outcome & _ & _ & _ & _ & Hrun).
  cbn zeta in Hrun. rewrite Hrun. clear Hrun.
  destruct outcome as [response | t].
  2: { cbn. rewrite length_app. cbn. split; [done |]. split; [lia | done]. }
  destruct (ok response); cbn [negb].
  2: { cbn. rewrite length_app. cbn. split; [done |]. split; [lia | done]. }
  match goal with
  | |- context [mbind ?k0 (json response) ?s3] => set (st := s3)
  end.
  match goal with
  | |- context [cacheTweet host indexes (Tweet.mk _ ?a ?b ?c0 ?d0 ?e ?f ?g ?h ?i ?j ?k0 ?l)] =>
      destruct (reading_answer response
                  (fun data tweetId =>
                     _ ← cacheTweet host indexes
                           (Tweet.mk tweetId a b c0 d0 e f g h i j k0 l);
                     _ ← logTweetActivity host
                           (if truthy reply then "x_reply" else "x_post")
                           (if truthy reply
                            then "Replied to tweet: " +:+ substring 0 50 text +:+ "..."
                            else "Posted tweet: " +:+ substring 0 50 text +:+ "...")
                           Activity.public;
                     mret data) st)
        as [[t Hthrow] | (members & fields & tweetId & _ & _ & _ & Hread)]
  end.
  - rewrite Hthrow. unfold st. cbn. rewrite length_app. cbn.
    split; [done |]. split; [lia | done].
  - rewrite Hread. cbn beta.
    match goal with
    | |- context [cacheTweet host indexes ?args] =>
        destruct (cacheTweet_stores host indexes args st)
          as (id & d & s4 & Hcache & Hst & _ & Htext & _ & Hagent
              & _ & _ & Hconf & Hact & Hsent)
    end.
    rewrite (bind_Normal _ _ _ _ _ Hcache).
    rewrite (bind_Normal _ _ _ _ _ (logTweetActivity_run _ _ _ s4)).
    cbn [fst snd xConfig xTweets activityLog sent mret ST_ret].
    unfold mret, ST_ret. cbn [fst snd xConfig xTweets activityLog sent].
    rewrite Hconf, Hsent, Hact. unfold st. cbn [xConfig sent activityLog].
    rewrite length_app. cbn [length].
    split; [done |]. split; [lia |]. split; [lia |].
    split; [by exists id, d |].
    apply map_size_insert_None, not_elem_of_dom, is_fresh.
Qed.

(** X26. [readTweet] writes no table. Without a bearer token in the
    environment it throws and sends nothing; with one it sends exactly
    one request, to the URL of that tweet and with the token as its
    [Authorization], and when the answer is [ok] it returns the JSON
    value of the body. *)
Theorem readTweet_only_reads tweetId s :
  let r := (readTweet host tweetId s).1 in
  let s' := (readTweet host tweetId s).2 in
  xConfig s' = xConfig s /\ xTweets s' = xTweets s
  /\ activityLog s' = activityLog s
  /\ match X_BEARER_TOKEN (env host) with
     | None | Some EmptyString =>
         r = Throw (ErrorWith "X_BEARER_TOKEN not configured") /\ s' = s
     | Some token =>
         exists request,
           sent s' = sent s ++ [request]
           /\ authorization request = "Bearer " +:+ token
           /\ method request = None
           /\ body request = None
           /\ match answer host s request with
              | Fails t => r = Throw t
              | Responds response =>
                  if ok response
                  then match JSON.parse (payload response) with
                       | Some v => r = Normal v
                       | None => r = Throw SyntaxError
                       end
                  else r = Throw (ErrorWith "Failed to read tweet")
              end
     end.
Proof.
  intros r s'. unfold r, s'. clear r s'.
  unfold readTweet.
  destruct (X_BEARER_TOKEN (env host)) as [token |]; [| done].
  destruct token as [| a token]; [done |].
  cbn [truthy]. rewrite decide_False by done.
  unfold mbind, ST_bind, fetch, raise, json, mret, ST_ret.
  cbn [default].
  match goal with
  | |- context [answer host s ?rq] => set (request := rq)
  end.
  destruct (answer host s request) as [response | t] eqn:Hans.
  - destruct (ok response) eqn:Hok; cbn [negb].
    + destruct (JSON.parse (payload response)) eqn:Hp; cbn;
        (do 3 (split; [done |])); exists request;
        rewrite Hans, Hok, ?Hp; done.
    + cbn. do 3 (split; [done |]). exists request. by rewrite Hans, Hok.
  - cbn. do 3 (split; [done |]). exists request. by rewrite Hans.
Qed.

End Actions.

(** * Properties of the conversation threads *)

Lemma doc_le_creationTime (a b : Threads.Row) :
  Table.doc_le string_compare
    (fun d => [VNumber (Threads.creationTime d)]) a b ->
  Threads.creationTime a.2 <= Threads.creationTime b.2.
Proof.
  unfold Table.doc_le, Table.doc_compare.
  cbn [list_compare value_compare].
  destruct (Z.compare_spec (Threads.creationTime a.2) (Threads.creationTime b.2));
    [lia | lia | done].
Qed.

Section ThreadStore.

Variable host : Threads.Host.

(** The rows of a table that satisfy a condition. *)
Lemma rows_filter name (P : Threads.Row -> Prop) `{!forall r, Decision (P r)} st :
  filter P (Threads.rows name st)
  = filter (fun r : Threads.Row => Threads.table r.2 = name /\ P r)
      (Table.scan string_compare
         (fun d => [VNumber (Threads.creationTime d)]) st).
Proof.
  unfold Threads.rows. rewrite list_filter_filter.
  apply list_filter_iff. intros r. tauto.
Qed.

Lemma messages_of_thread tid st id d :
  (id, d) ∈ filter (Threads.of_thread tid) (Threads.rows "agent_messages" st)
  <-> thread_messages tid st !! id = Some d.
Proof. rewrite rows_filter. apply elem_of_scan_filter. Qed.

Lemma messages_of_thread_length tid st :
  length (filter (Threads.of_thread tid) (Threads.rows "agent_messages" st))
  = size (thread_messages tid st).
Proof. rewrite rows_filter. apply length_scan_filter. Qed.

Lemma messages_of_thread_sorted tid st :
  StronglySorted
    (fun a b : Threads.Row => Threads.creationTime a.2 <= Threads.creationTime b.2)
    (filter (Threads.of_thread tid) (Threads.rows "agent_messages" st)).
Proof.
  rewrite rows_filter.
  eapply StronglySorted_weaken; [| apply (scan_filter_sorted _ string_total)].
  intros a b _ _. apply doc_le_creationTime.
Qed.

Lemma messages_of_thread_NoDup tid st :
  NoDup (filter (Threads.of_thread tid) (Threads.rows "agent_messages" st)).*1.
Proof.
  rewrite rows_filter.
  eapply sublist_NoDup; [| apply fmap_sublist, sublist_filter].
  apply NoDup_scan.
Qed.

(** X27. [create] always returns the id of a thread that was not stored
    before, and [get] on that id returns the thread: its id, the clock
    reading as its creation time, and the metadata it was created with,
    the empty object when none or [null] was given. No other document
    is changed. *)
Theorem create_then_get metadata s :
  exists id s',
    Threads.create host metadata s = (Normal id, s')
    /\ Threads.store s !! id = None
    /\ Threads.get host id (Threads.store s')
       = Some (Threads.mkThread id (Threads.reading host (Threads.readings s))
                 (Some match metadata with
                       | None | Some JNull => JObject []
                       | Some v => v
                       end))
    /\ threads (Threads.store s') !! id
       = Threads.store s' !! id
    /\ forall j, j <> id -> Threads.store s' !! j = Threads.store s !! j.
Proof.
  eexists _, _. split; [reflexivity |].
  cbn [Threads.store].
  split; [apply not_elem_of_dom, is_fresh |].
  split; [| split].
  - unfold Threads.get, Threads.db_get. rewrite lookup_insert_eq.
    unfold Threads.thread_view. cbn. f_equal.
  - unfold threads. rewrite lookup_insert_eq.
    apply map_lookup_filter_Some_2; [apply lookup_insert_eq | done].
  - intros j Hj. by rewrite lookup_insert_ne.
Qed.

(** [getMessages] never throws: its limit is the constant 100. *)
Lemma getMessages_run tid st :
  Threads.getMessages tid st
  = Normal (Threads.message_view
              <$> take 100 (filter (Threads.of_thread tid)
                              (Threads.rows "agent_messages" st))).
Proof. reflexivity. Qed.

(** X28. [getMessages] always returns, and what it returns are the
    views of stored messages of the given thread: all of them when they
    are at most 100 and else 100 of them, oldest first, none of those
    left out older than one returned. [getThreadMessages] returns the
    same list. *)
Theorem getMessages_selects tid st :
  exists rows,
    Threads.getMessages tid st = Normal (Threads.message_view <$> rows)
    /\ Threads.getThreadMessages tid st = Threads.message_view <$> rows
    /\ length rows = Nat.min 100 (size (thread_messages tid st))
    /\ (forall id d, (id, d) ∈ rows -> thread_messages tid st !! id = Some d)
    /\ StronglySorted
         (fun a b : Threads.Row =>
            Threads.creationTime a.2 <= Threads.creationTime b.2) rows
    /\ (forall id d r,
          thread_messages tid st !! id = Some d -> (id, d) ∉ rows -> r ∈ rows ->
          Threads.creationTime r.2 <= Threads.creationTime d).
Proof.
  exists (take 100 (filter (Threads.of_thread tid)
                      (Threads.rows "agent_messages" st))).
  split; [apply getMessages_run |].
  split; [unfold Threads.getThreadMessages; by rewrite getMessages_run |].
  split; [by rewrite length_take, messages_of_thread_length |].
  split; [| split].
  - intros id d Hin. eapply elem_of_sublist in Hin; [| apply sublist_take].
    by apply messages_of_thread.
  - eapply StronglySorted_sublist; [apply sublist_take |].
    apply messages_of_thread_sorted.
  - intros id d r Hd Hout Hr.
    apply (take_sorted_split
             (fun a b : Threads.Row =>
                Threads.creationTime a.2 <= Threads.creationTime b.2)
             100 _ r (id, d) (messages_of_thread_sorted tid st) Hr);
      [by apply messages_of_thread | done].
Qed.

(** Deleting stored documents one by one. *)
Lemma thread_delete_each_run (rows : list Threads.Row) : forall s,
  NoDup rows.*1 ->
  (forall r, r ∈ rows -> is_Some (Threads.store s !! r.1)) ->
  Threads.delete_each rows s
  = (Normal (),
     Threads.mkState
       (filter (fun r : Threads.Row => r.1 ∉ rows.*1) (Threads.store s))
       (Threads.readings s)).
Proof.
  induction rows as [| r rows IH]; intros s Hnd Hst.
  - cbn. unfold mret, ST_ret. destruct s as [st n]. cbn. f_equal. f_equal.
    symmetry. apply map_filter_id. intros i x _. cbn. apply not_elem_of_nil.
  - rewrite fmap_cons in Hnd. apply NoDup_cons in Hnd as [Hr Hnd].
    cbn [Threads.delete_each].
    destruct (Hst r) as [d Hd]; [left |].
    erewrite bind_Normal; [| unfold Threads.db_delete; by rewrite Hd].
    rewrite IH; [| done |].
    + cbn [Threads.store Threads.readings]. f_equal. f_equal.
      apply map_eq. intros i. rewrite fmap_cons.
      destruct (decide (i = r.1)) as [-> | Hne].
      * rewrite (proj2 (map_lookup_filter_None _ _ _)).
        2: { left. apply lookup_delete_eq. }
        symmetry. apply map_lookup_filter_None. right. intros x _. cbn.
        intros Hn. apply Hn. left.
      * destruct (Threads.store s !! i) as [x |] eqn:Hx.
        -- destruct (decide (i ∈ rows.*1)) as [Hi | Hi].
           ++ rewrite (proj2 (map_lookup_filter_None _ _ _)).
              2: { right. intros x' _. cbn. tauto. }
              symmetry. apply map_lookup_filter_None. right. intros x' _. cbn.
              intros Hn. apply Hn. by right.
           ++ rewrite (map_lookup_filter_Some_2 _ _ i x);
                [| by rewrite lookup_delete_ne | done].
              symmetry. apply map_lookup_filter_Some_2; [done |].
              cbn. intros [? | ?]%elem_of_cons; done.
        -- rewrite (proj2 (map_lookup_filter_None _ _ _)).
           2: { left. by rewrite lookup_delete_ne. }
           symmetry. apply map_lookup_filter_None. by left.
    + intros r' Hr'. cbn [Threads.store]. rewrite lookup_delete_ne.
      * apply Hst. by right.
      * intros Heq. apply Hr. rewrite Heq. by apply list_elem_of_fmap_2.
Qed.

Lemma remove_run tid s :
  let messages := filter (Threads.of_thread tid)
                    (Threads.rows "agent_messages" (Threads.store s)) in
  let rest := filter (fun r : Threads.Row => r.1 ∉ messages.*1)
                (Threads.store s) in
  Threads.remove tid s
  = match rest !! tid with
    | Some _ => (Normal (), Threads.mkState (delete tid rest) (Threads.readings s))
    | None => (Throw RuntimeError, s)
    end.
Proof.
  intros messages rest.
  unfold Threads.remove, mutation.
  unfold mbind at 1, ST_bind at 1, inspect at 1. fold messages.
  assert (Hstored : forall r, r ∈ messages -> is_Some (Threads.store s !! r.1)).
  { intros [id d] Hr. apply messages_of_thread in Hr.
    apply map_lookup_filter_Some in Hr as [Hr _]. by exists d. }
  rewrite (bind_Normal _ _ _ _ _
             (thread_delete_each_run messages s
                (messages_of_thread_NoDup tid (Threads.store s)) Hstored)).
  fold rest. unfold Threads.db_delete. cbn [Threads.store Threads.readings].
  by destruct (rest !! tid).
Qed.

Lemma elem_of_messages tid st id :
  id ∈ (filter (Threads.of_thread tid) (Threads.rows "agent_messages" st)).*1
  <-> id ∈ dom (thread_messages tid st).
Proof.
  rewrite elem_of_dom. split.
  - intros ([i d] & -> & Hr)%list_elem_of_fmap.
    apply messages_of_thread in Hr. by exists d.
  - intros [d Hd]. apply (list_elem_of_fmap_2 fst _ (id, d)).
    by apply messages_of_thread.
Qed.

(** X29. [remove] deletes a stored document of the given id together
    with the messages of that thread, and nothing else: afterwards [get]
    finds no thread of that id and [getMessages] no message of it. When
    no document of that id is stored, or when that document is itself a
    message of the thread, [remove] throws and nothing is deleted, the
    messages of the thread included. *)
Theorem remove_cascades tid s :
  (tid ∈ dom (Threads.store s) ->
   tid ∉ dom (thread_messages tid (Threads.store s)) ->
   exists s',
     Threads.remove tid s = (Normal (), s')
     /\ Threads.store s'
        = filter (fun r : Threads.Row =>
                    r.1 <> tid
                    /\ r.1 ∉ dom (thread_messages tid (Threads.store s)))
            (Threads.store s)
     /\ Threads.get host tid (Threads.store s') = None
     /\ Threads.getMessages tid (Threads.store s') = Normal [])
  /\ (tid ∉ dom (Threads.store s)
      \/ tid ∈ dom (thread_messages tid (Threads.store s)) ->
      Threads.remove tid s = (Throw RuntimeError, s)).
Proof.
  rewrite remove_run. cbn zeta.
  set (messages := filter (Threads.of_thread tid)
                     (Threads.rows "agent_messages" (Threads.store s))).
  set (rest := filter (fun r : Threads.Row => r.1 ∉ messages.*1)
                 (Threads.store s)).
  assert (Hmsg : forall i, i ∈ messages.*1
                   <-> i ∈ dom (thread_messages tid (Threads.store s)))
    by (intros i; apply elem_of_messages).
  split.
  - intros [d Hd]%elem_of_dom Hown.
    assert (Hrest : rest !! tid = Some d).
    { apply map_lookup_filter_Some_2; [done |]. cbn.
      by rewrite Hmsg. }
    rewrite Hrest. eexists. split; [reflexivity |].
    cbn [Threads.store].
    assert (Hstore : delete tid rest
              = filter (fun r : Threads.Row =>
                          r.1 <> tid
                          /\ r.1 ∉ dom (thread_messages tid (Threads.store s)))
                  (Threads.store s)).
    { apply map_eq. intros i. unfold rest.
      destruct (decide (i = tid)) as [-> | Hne].
      - rewrite lookup_delete_eq. symmetry. apply map_lookup_filter_None.
        right. intros x _. cbn. tauto.
      - rewrite lookup_delete_ne by done.
        destruct (Threads.store s !! i) as [x |] eqn:Hx.
        + destruct (decide (i ∈ messages.*1)) as [Hi | Hi].
          * rewrite (proj2 (map_lookup_filter_None _ _ _)).
            2: { right. intros x' _. cbn. tauto. }
            symmetry. apply map_lookup_filter_None. right. intros x' _. cbn.
            rewrite <- Hmsg. tauto.
          * rewrite (map_lookup_filter_Some_2 _ _ i x); [| done | done].
            symmetry. apply map_lookup_filter_Some_2; [done |]. cbn.
            by rewrite <- Hmsg.
        + rewrite (proj2 (map_lookup_filter_None _ _ _)) by (by left).
          symmetry. apply map_lookup_filter_None. by left. }
    split; [exact Hstore |].
    split.
    + unfold Threads.get, Threads.db_get. rewrite lookup_delete_eq.
      by destruct (Threads.well_formed host tid).
    + rewrite getMessages_run.
      destruct (filter (Threads.of_thread tid)
                  (Threads.rows "agent_messages" (delete tid rest)))
        as [| [i x] l] eqn:El; [done | exfalso].
      assert (Hin : (i, x) ∈ filter (Threads.of_thread tid)
                      (Threads.rows "agent_messages" (delete tid rest)))
        by (rewrite El; left).
      apply messages_of_thread in Hin.
      apply map_lookup_filter_Some in Hin as [Hin [Htab Hof]].
      rewrite Hstore in Hin.
      apply map_lookup_filter_Some in Hin as [Hin [_ Hnot]]. cbn in *.
      apply Hnot. apply elem_of_dom. exists x.
      by apply map_lookup_filter_Some_2.
  - intros Hwhy.
    assert (Hrest : rest !! tid = None); [| by rewrite Hrest].
    apply map_lookup_filter_None.
    destruct Hwhy as [Hno | Hown].
    + left. by apply not_elem_of_dom.
    + right. intros x _. cbn.
      rewrite Hmsg. tauto.
Qed.

(** The threads a page of [list] is taken from. *)
Lemma elem_of_thread_rows st id d :
  (id, d) ∈ Threads.rows "agent_threads" st <-> threads st !! id = Some d.
Proof. apply elem_of_scan_filter. Qed.

(** X30. [listPublic] always returns. With a negative limit it returns
    no thread; otherwise it returns what [list] returns: at most the
    limit's number of threads, its own or the default 20, each the view
    of a stored thread, the most recently created first. *)
Theorem listPublic_returns limit st :
  (Table.or_default limit 20 < 0 -> Threads.listPublic limit st = [])
  /\ (0 <= Table.or_default limit 20 ->
      Threads.list limit st = Normal (Threads.listPublic limit st))
  /\ (length (Threads.listPublic limit st)
      <= Z.to_nat (Table.or_default limit 20))%nat
  /\ (forall v, v ∈ Threads.listPublic limit st ->
        exists d, threads st !! Threads.threadId v = Some d
                  /\ Threads.createdAt v = Threads.creationTime d
                  /\ Threads.metadata v = Threads.fields d !! "metadata")
  /\ StronglySorted
       (fun a b => Threads.createdAt b <= Threads.createdAt a)
       (Threads.listPublic limit st).
Proof.
  unfold Threads.listPublic, Threads.list, Table.take_docs.
  destruct (Z.ltb_spec (Table.or_default limit 20) 0) as [Hneg | Hpos].
  { split; [done |]. split; [lia |]. split; [cbn; lia |].
    split; [intros v Hv; by apply elem_of_nil in Hv | constructor]. }
  split; [lia |]. split; [done |].
  split; [rewrite length_fmap, length_take; lia |].
  split.
  - intros v ([id d] & -> & Hr)%list_elem_of_fmap.
    eapply elem_of_sublist in Hr; [| apply sublist_take].
    apply elem_of_reverse, elem_of_thread_rows in Hr. by exists d.
  - assert (Hs : StronglySorted
                   (fun a b : Threads.Row =>
                      Threads.creationTime b.2 <= Threads.creationTime a.2)
                   (take (Z.to_nat (Table.or_default limit 20))
                      (reverse (Threads.rows "agent_threads" st)))).
    { eapply StronglySorted_sublist; [apply sublist_take |].
      eapply StronglySorted_weaken;
        [| apply StronglySorted_reverse;
           [apply (doc_le_trans _ string_total)
           | apply (scan_filter_sorted _ string_total)]].
      intros a b _ _. unfold flip. apply doc_le_creationTime. }
    induction Hs as [| r l Hs IH Hall]; [constructor |].
    rewrite fmap_cons. constructor; [done |].
    rewrite Forall_forall in Hall. apply Forall_forall.
    intros v (r' & -> & Hr')%list_elem_of_fmap.
    by apply Hall.
Qed.

End ThreadStore.

(** * The properties on the scenarios *)

(** The two cached tweets have distinct ids. *)
Lemma x_seeded_unique : unique_tweet_ids (XTwitter.xTweets x_seeded).
Proof.
  intros i j di dj Hi Hj Heq. cbn in Hi, Hj.
  apply lookup_insert_Some in Hi as [[<- <-] | [_ Hi]];
    apply lookup_insert_Some in Hj as [[<- <-] | [_ Hj]]; [done | | |].
  - apply lookup_insert_Some in Hj as [[<- <-] | [_ Hj]];
      [discriminate Heq | by rewrite lookup_empty in Hj].
  - apply lookup_insert_Some in Hi as [[<- <-] | [_ Hi]];
      [discriminate Heq | by rewrite lookup_empty in Hi].
  - apply lookup_insert_Some in Hi as [[<- <-] | [_ Hi]];
      [| by rewrite lookup_empty in Hi].
    apply lookup_insert_Some in Hj as [[<- <-] | [_ Hj]];
      [done | by rewrite lookup_empty in Hj].
Qed.

(** After hiding tweet 1001, the landing page shows tweet 1002 only. *)
Lemma hidden_tweet_leaves_landing_witness :
  XTwitter.Tweet.tweetId
    (XTwitter.Tweet.values (cached_tweet "1002" "second" 3000))
  <> code_units "1001".
Proof.
  apply (hidden_tweet_leaves_landing x_indexes (code_units "1001") x_seeded
           None [(2%positive, cached_tweet "1002" "second" 3000)]
           x_seeded_unique)
    with (id := 2%positive).
  - vm_compute. reflexivity.
  - left.
Defined.

Lemma cacheTweet_keeps_ids_unique_witness :
  unique_tweet_ids
    (XTwitter.xTweets
       (XTwitter.cacheTweet x_accepting x_indexes
          (XTwitter.Tweet.values (cached_tweet "1001" "edited" 2000))
          x_seeded).2).
Proof.
  apply (cacheTweet_keeps_ids_unique x_accepting x_indexes).
  exact x_seeded_unique.
Defined.

Lemma postTweet_needs_permission_witness :
  exists message,
    XTwitter.postTweet x_bare x_indexes "hello world" None x_seeded
    = (Throw (ErrorWith message), x_seeded).
Proof.
  apply (postTweet_needs_permission x_bare x_indexes).
  right. reflexivity.
Defined.

Lemma postTweet_rejected_by_api_witness :
  exists request s',
    XTwitter.postTweet x_refusing x_indexes "hello world" (Some "1001") x_seeded
    = (Throw (ErrorWith "Failed to post tweet: Forbidden"), s')
    /\ XTwitter.sent s' = XTwitter.sent x_seeded ++ [request]
    /\ XTwitter.method request = Some "POST"
    /\ XTwitter.url request = "https://api.twitter.com/2/tweets"
    /\ XTwitter.body request = Some (XTwitter.mkBody "hello world" (Some "1001"))
    /\ XTwitter.xTweets s' = XTwitter.xTweets x_seeded
    /\ XTwitter.activityLog s' = XTwitter.activityLog x_seeded.
Proof.
  apply (postTweet_rejected_by_api x_refusing x_indexes "hello world"
           (Some "1001") x_seeded
           (XTwitter.mkCredentials "key" "secret" "token" "token-secret")
           (XTwitter.mkResponse false "Forbidden")).
  - vm_compute. reflexivity.
  - reflexivity.
  - reflexivity.
  - reflexivity.
Defined.

Lemma postTweet_caches_and_logs_witness :
  exists s' id d aid a,
    XTwitter.postTweet x_accepting x_indexes "hello world" None x_seeded
    = (Normal (Some (JObject [(code_units "id", js_string "1003")])), s')
    /\ XTwitter.xTweets s' !! id = Some d
    /\ XTwitter.Tweet.tweetId (XTwitter.Tweet.values d) = code_units "1003"
    /\ XTwitter.Tweet.text (XTwitter.Tweet.values d) = "hello world"
    /\ XTwitter.Tweet.isAgentTweet (XTwitter.Tweet.values d) = true
    /\ XTwitter.Tweet.isReply (XTwitter.Tweet.values d) = false
    /\ XTwitter.Tweet.showOnLanding (XTwitter.Tweet.values d) = true
    /\ XTwitter.Tweet.authorUsername (XTwitter.Tweet.values d) = "clawsync"
    /\ XTwitter.activityLog x_seeded !! aid = None
    /\ XTwitter.activityLog s' = <[aid := a]> (XTwitter.activityLog x_seeded)
    /\ XTwitter.Activity.channel a = "x"
    /\ XTwitter.Activity.visibility a = XTwitter.Activity.public
    /\ XTwitter.Activity.actionType a = "x_post".
Proof.
  apply (postTweet_caches_and_logs x_accepting x_indexes "hello world" None
           x_seeded 1%positive x_config
           (XTwitter.mkCredentials "key" "secret" "token" "token-secret")
           (XTwitter.mkResponse true posted_body)
           [(code_units "data", JObject [(code_units "id", js_string "1003")])]
           [(code_units "id", js_string "1003")]
           (code_units "1003")).
  - vm_compute. reflexivity.
  - vm_compute. reflexivity.
  - reflexivity.
  - reflexivity.
  - reflexivity.
  - vm_compute. reflexivity.
  - vm_compute. reflexivity.
  - vm_compute. reflexivity.
Defined.

Lemma oauth_header_is_unsigned_witness :
  exists r1 r2,
    XTwitter.sent
      (XTwitter.makeOAuthRequest x_accepting "POST"
         "https://api.twitter.com/2/tweets"
         (XTwitter.mkBody "hello world" None)
         (XTwitter.mkCredentials "key" "secret" "token" "token-secret")
         x_seeded).2
    = XTwitter.sent x_seeded ++ [r1]
    /\ XTwitter.sent
         (XTwitter.makeOAuthRequest x_accepting "DELETE"
            "https://api.twitter.com/2/tweets/1001"
            (XTwitter.mkBody "another text" (Some "1002"))
            (XTwitter.mkCredentials "key" "forged" "token" "forged")
            x_seeded).2
       = XTwitter.sent x_seeded ++ [r2]
    /\ XTwitter.authorization r1 = XTwitter.authorization r2
    /\ XTwitter.method r1 = Some "POST"
    /\ XTwitter.url r1 = "https://api.twitter.com/2/tweets"
    /\ XTwitter.body r1 = Some (XTwitter.mkBody "hello world" None).
Proof.
  apply (oauth_header_is_unsigned x_accepting).
  - reflexivity.
  - reflexivity.
Defined.

(** Removing the stored thread takes its two messages with it and leaves
    the message of the other thread. *)
Example remove_stored_thread :
  Threads.remove "t1" (Threads.mkState thread_store 0)
  = (Normal (), Threads.mkState (<["m3" := orphan_message]> ∅) 0).
Proof. vm_compute. reflexivity. Qed.

(** Removing a thread that is not stored throws, and its message
    stays. *)
Example remove_missing_thread :
  Threads.remove "t2" (Threads.mkState thread_store 0)
  = (Throw RuntimeError, Threads.mkState thread_store 0).
Proof. vm_compute. reflexivity. Qed.

(** [get] does not look at the table of the document it is given the id
    of: on the id of a message it returns the view of that message as a
    thread, without metadata. *)
Example get_on_a_message :
  Threads.get thread_host "m1" thread_store
  = Some (Threads.mkThread "m1" 110 None).
Proof. vm_compute. reflexivity. Qed.

(** A negative limit: [list] throws and [listPublic] returns no
    thread. *)
Example list_negative_limit :
  Threads.list (Some (-1)) thread_store = Throw RuntimeError
  /\ Threads.listPublic (Some (-1)) thread_store = [].
Proof. vm_compute. done. Qed.
